(** * Midgard block pipeline: a shallow embedding of the Go sources

    The development follows the packages of the repository:
    - [Go]: the fragments of the Go runtime the sources rely on (int64
      wrap-around, errors, [time.Time], [database/sql] results);
    - [Timeseries]: [internal/timeseries] (mapdiff.go, lookup.go and the
      commit/restore code of the package);
    - [Chain]: [chain/chain.go], the Tendermint block follower;
    - [Event]: the event demultiplexer;
    - [Api]: the price computations of [internal/api/v1.go].

    Maps are stdpp [gmap]s, int64 values are [Z] with the wrap-around
    written out where the source computes, loops that need not terminate
    take fuel. *)

From stdpp Require Import gmap strings list fin_maps pretty sorting.
From Stdlib Require Import ZArith Lia QArith Floats.

Open Scope Z_scope.

(* ===================================================================== *)
(** * Go runtime fragments *)
(* ===================================================================== *)

Module Go.

Definition int64_min : Z := - 2 ^ 63.
Definition int64_max : Z := 2 ^ 63 - 1.

(** The values an int64 variable can hold. *)
Definition is_int64 (z : Z) : Prop := int64_min ≤ z ≤ int64_max.

(** Two's complement wrap-around of int64 arithmetic. *)
Definition wrap64 (z : Z) : Z := (z + 2 ^ 63) mod 2 ^ 64 - 2 ^ 63.

(** [error] values: [errors.New], and [fmt.Errorf] with its integer
    arguments, without ([Errorf]) or with ([Wrapf]) an error wrapped by
    [%w]. *)
Inductive error : Type :=
| errorString (msg : string)
| Errorf (format : string) (args : list Z)
| Wrapf (format : string) (args : list Z) (wrapped : error).

(** A Go [(value, error)] pair of which exactly one side is meaningful. *)
Inductive result (A : Type) : Type :=
| Ok (a : A)
| Err (e : error).
Arguments Ok {A} a.
Arguments Err {A} e.

(** A call either returns or panics (index out of range, failed type
    assertion). *)
Inductive outcome (A : Type) : Type :=
| Returns (a : A)
| Panics (why : string).
Arguments Returns {A} a.
Arguments Panics {A} why.

(** [time.Time] as the number of nanoseconds since the zero instant
    (January 1, year 1, 00:00:00 UTC). *)
Definition Time : Type := Z.

Definition IsZero (t : Time) : bool := t =? 0.
Definition Before (t u : Time) : bool := t <? u.

(** Seconds between the zero instant and the Unix epoch. *)
Definition unixToInternal : Z := 62135596800.

Definition UnixNano (t : Time) : Z := wrap64 (t - unixToInternal * 1000000000).
Definition Unix (sec nsec : Z) : Time := (sec + unixToInternal) * 1000000000 + nsec.

(** Arguments of a SQL statement and column values of a result row. *)
Inductive arg : Type :=
| AInt (z : Z)
| AStr (s : string)
| ABytes (b : list Z).

(** [sql.Result]: only [RowsAffected] is used by the sources. *)
Record sqlResult : Type := { RowsAffected : result Z }.

(** [sql.Rows]: the rows the cursor yields and the error [rows.Err()]
    reports once [rows.Next()] has returned false. *)
Record sqlRows : Type := { rows_data : list (list arg); rows_Err : option error }.

(** A line written by package [log]: the format (or message) and its
    arguments. *)
Inductive logArg : Type :=
| LInt (z : Z)
| LStr (s : string)
| LBytes (b : list Z)
| LErr (e : error).

Definition logLine : Type := string * list logArg.

Lemma wrap64_id z : is_int64 z → wrap64 z = z.
Proof.
  unfold is_int64, int64_min, int64_max, wrap64. intros H.
  rewrite Z.mod_small; lia.
Qed.

Lemma wrap64_range z : is_int64 (wrap64 z).
Proof.
  unfold is_int64, int64_min, int64_max, wrap64.
  pose proof (Z.mod_pos_bound (z + 2 ^ 63) (2 ^ 64)). lia.
Qed.

End Go.

Import Go.

(* ===================================================================== *)
(** * Package timeseries *)
(* ===================================================================== *)

Module Timeseries.

(** ** mapdiff.go *)

(** [type mapDiff struct { snapshot mapStrInt }] *)
Record mapDiff : Type := { snapshot : gmap string Z }.

(** [save] replaces the snapshot by a fresh copy of [newMap]. *)
Definition save (newMap : gmap string Z) : mapDiff := {| snapshot := newMap |}.

(** [diff]: the values of [newMap] that differ from the snapshot, and 0
    for the keys the snapshot holds with a non-zero value and [newMap]
    lacks. The pointers of [map[string]*int64] are read only, so the
    argument is a map of values. *)
Definition diff (md : mapDiff) (newMap : gmap string Z) : gmap string Z :=
  let result := filter (λ kv, snapshot md !! kv.1 ≠ Some kv.2) newMap in
  let deleted := filter (λ kv, newMap !! kv.1 = None ∧ kv.2 ≠ 0) (snapshot md) in
  ((λ _, 0) <$> deleted) ∪ result.

(** [diffAtKey]: the comma-ok lookups give the zero value for a missing
    key. *)
Definition diffAtKey (md : mapDiff) (pool : string) (newMap : gmap string Z) : bool * Z :=
  let '(oldV, hasOld) :=
    match snapshot md !! pool with Some v => (v, true) | None => (0, false) end in
  let '(newV, hasNew) :=
    match newMap !! pool with Some v => (v, true) | None => (0, false) end in
  if hasNew then (negb hasOld || negb (oldV =? newV), newV)
  else (hasOld, 0).

(** [type poolIdMap map[string]int] and its [getId]: a known name keeps
    its id, a new one gets the current size of the map. *)
Definition getId (pim : gmap string nat) (poolName : string) : gmap string nat * nat :=
  match pim !! poolName with
  | Some id => (pim, id)
  | None => let newId := size pim in (<[poolName := newId]> pim, newId)
  end.

Record snapshotManager : Type := {
  assetE8DepthSnapshot : mapDiff;
  runeE8DepthSnapshot : mapDiff;
  snapshotHeight : Z
}.

(** [fmt.Sprintf("($%d, $%d, $%d, $%d)", p+1, p+2, p+3, p+4)] *)
Definition rowFormat (p : nat) : string :=
  "($" +:+ pretty (p + 1)%nat +:+ ", $" +:+ pretty (p + 2)%nat +:+
  ", $" +:+ pretty (p + 3)%nat +:+ ", $" +:+ pretty (p + 4)%nat +:+ ")".

(** [strings.Join] *)
Fixpoint Join (elems : list string) (sep : string) : string :=
  match elems with
  | [] => ""
  | [s] => s
  | s :: rest => s +:+ sep +:+ Join rest sep
  end.

(** The variables the loop of [update] appends to, with the package-wide
    [poolIdMapperr]. *)
Record updateAcc : Type := {
  rowStrs : list string;
  values : list arg;
  rowStrs2 : list string;
  values2 : list arg;
  poolIds : gmap string nat
}.

(** The body of [for pool := range poolNames]. *)
Definition updateRow (sm : snapshotManager) (height : Z)
    (assetE8DepthPerPool runeE8DepthPerPool : gmap string Z)
    (acc : updateAcc) (pool : string) : updateAcc :=
  let '(assetDiff, assetValue) := diffAtKey (assetE8DepthSnapshot sm) pool assetE8DepthPerPool in
  let '(runeDiff, runeValue) := diffAtKey (runeE8DepthSnapshot sm) pool runeE8DepthPerPool in
  if assetDiff || runeDiff then
    let p := length (values acc) in
    let '(pim, poolId) := getId (poolIds acc) pool in
    {| rowStrs := rowStrs acc ++ [rowFormat p];
       values := values acc ++ [AInt height; AStr pool; AInt assetValue; AInt runeValue];
       rowStrs2 := rowStrs2 acc ++ [rowFormat p];
       values2 := values2 acc ++ [AInt height; AInt (Z.of_nat poolId); AInt assetValue; AInt runeValue];
       poolIds := pim |}
  else acc.

(** The names of all four maps. *)
Definition poolNames (sm : snapshotManager)
    (assetE8DepthPerPool runeE8DepthPerPool : gmap string Z) : gset string :=
  dom assetE8DepthPerPool ∪ dom runeE8DepthPerPool ∪
  dom (snapshot (assetE8DepthSnapshot sm)) ∪ dom (snapshot (runeE8DepthSnapshot sm)).

(** The loop of [update]. Go leaves the order of a map range open; the
    model visits the names in the order of [elements]. *)
Definition updateRows (sm : snapshotManager) (pim : gmap string nat) (height : Z)
    (assetE8DepthPerPool runeE8DepthPerPool : gmap string Z) : updateAcc :=
  fold_left (updateRow sm height assetE8DepthPerPool runeE8DepthPerPool)
    (elements (poolNames sm assetE8DepthPerPool runeE8DepthPerPool))
    {| rowStrs := []; values := []; rowStrs2 := []; values2 := []; poolIds := pim |}.

Definition queryFront : string :=
  "INSERT INTO aggregate_states (height, pool, asset_e8, rune_e8) VALUES ".
Definition queryFront2 : string :=
  "INSERT INTO aggregate_id_states (height, pool_id, asset_e8, rune_e8) VALUES ".
Definition queryEnd : string := " ON CONFLICT DO NOTHING;".

Section Update.

(** [DBExec] is the package's SQL client hook; the database is a state
    the call may change. *)
Context {DB : Type}.
Variable DBExec : string → list arg → DB → DB * result sqlResult.

(** What [update] leaves behind: the manager, [poolIdMapperr], the
    database, and the error it returns. The log lines of [update] are
    not part of the model. *)
Record updateResult : Type := {
  upd_sm : snapshotManager;
  upd_poolIds : gmap string nat;
  upd_db : DB;
  upd_err : option error
}.

Definition update (sm : snapshotManager) (pim : gmap string nat) (db : DB) (height : Z)
    (assetE8DepthPerPool runeE8DepthPerPool : gmap string Z) : updateResult :=
  let acc := updateRows sm pim height assetE8DepthPerPool runeE8DepthPerPool in
  let sm' := {| assetE8DepthSnapshot := save assetE8DepthPerPool;
                runeE8DepthSnapshot := save runeE8DepthPerPool;
                snapshotHeight := height |} in
  let diffNum := length (rowStrs acc) in
  let ret db' e := {| upd_sm := sm'; upd_poolIds := poolIds acc; upd_db := db'; upd_err := e |} in
  if (diffNum =? 0)%nat then ret db None
  else
    let query := queryFront +:+ Join (rowStrs acc) ", " +:+ queryEnd in
    let query2 := queryFront2 +:+ Join (rowStrs2 acc) ", " +:+ queryEnd in
    match DBExec query (values acc) db with
    | (db1, Err err) => ret db1 (Some (Wrapf "Error saving depths %d: %w" [height] err))
    | (db1, Ok result) =>
      match RowsAffected result with
      | Err err => ret db1 (Some (Wrapf "Error saving depths %d results: %w" [height] err))
      | Ok n =>
        if negb (n =? Z.of_nat diffNum) then
          ret db1 (Some (Errorf "Not all depths were saved at height %d (expected: %d, actual: %d)"
                           [height; n; Z.of_nat diffNum]))
        else
          match DBExec query2 (values2 acc) db1 with
          | (db2, Err err) => ret db2 (Some (Wrapf "Error 2 saving depths %d: %w" [height] err))
          | (db2, Ok result2) =>
            match RowsAffected result2 with
            | Err err => ret db2 (Some (Wrapf "Error 2 saving depths %d results: %w" [height] err))
            | Ok n2 =>
              if negb (n2 =? Z.of_nat diffNum) then
                ret db2 (Some (Errorf "2 Not all depths were saved at height %d (expected: %d, actual: %d)"
                                 [height; Z.of_nat diffNum; n2]))
              else ret db2 None
            end
          end
      end
    end.

End Update.

(** ** The commit state of the package *)

(** [aggTrack] has a snapshot of runningTotals. A nil map reads like an
    empty one, so both are [∅]. *)
Record aggTrack : Type := {
  AssetE8DepthPerPool : gmap string Z;
  RuneE8DepthPerPool : gmap string Z
}.

(** [blockTrack] is a write state. *)
Record blockTrack : Type := {
  Height : Z;
  Timestamp : Time;
  Hash : list Z;
  agg : aggTrack
}.

(** The zero value [var track blockTrack]. *)
Definition zeroTrack : blockTrack :=
  {| Height := 0; Timestamp := 0; Hash := [];
     agg := {| AssetE8DepthPerPool := ∅; RuneE8DepthPerPool := ∅ |} |}.

(** The depth maps of the recorder's running totals; the pointers
    [*int64] of the source are owned by the maps, so the maps hold the
    values. *)
Record runningTotals : Type := {
  assetE8DepthPerPool : gmap string Z;
  runeE8DepthPerPool : gmap string Z
}.

Definition errBeyondLast : error :=
  errorString "cannot resolve beyond the last block (timestamp)".

(** The error of a [rows.Scan] whose destinations do not fit the row. *)
Definition errScan : error := errorString "sql: Scan error".

(** [rows.Scan] into [n] string variables. *)
Definition scanStrings (n : nat) (cols : list arg) : option (list string) :=
  if (length cols =? n)%nat
  then mapM (λ c, match c with AStr s => Some s | _ => None end) cols
  else None.

(** [rows.Scan(&track.Height, &ns, &track.Hash, &aggSerial)] with its
    error dropped, as [loadBlockFromDB] does: the destinations before the
    first column that does not fit are set, the others keep their zero
    value. *)
Definition scanBlockLog (cols : list arg) : Z * Z * list Z * list Z :=
  match cols with
  | [AInt h; AInt ns; ABytes hash; ABytes aggSerial] => (h, ns, hash, aggSerial)
  | [AInt h; AInt ns; ABytes hash; _] => (h, ns, hash, [])
  | [AInt h; AInt ns; _; _] => (h, ns, [], [])
  | [AInt h; _; _; _] => (h, 0, [], [])
  | _ => (0, 0, [], [])
  end.

Section Package.

(** The SQL client hooks [DBQuery] and [DBExec] (the context argument of
    [DBQuery] is left out), the gob codec of [encoding/gob] at type
    [aggTrack], and the two queue reconciliations of the recorder's
    linked events, which are not among the sources at hand. *)
Context {DB linkedEvents : Type}.
Variable DBQuery : string → list arg → DB → DB * result sqlRows.
Variable DBExec : string → list arg → DB → DB * result sqlResult.
(** [Encode] appends to the buffer and may fail part-way. *)
Variable gobEncode : aggTrack → list Z * option error.
Variable gobDecode : list Z → result aggTrack.
Variable ApplyOutboundQ : linkedEvents → runningTotals → Z → Time → linkedEvents * runningTotals.
Variable ApplyFeeQ : linkedEvents → runningTotals → Z → Time → linkedEvents * runningTotals.

(** The package-level variables, the database behind the hooks, the
    lines logged, and the statements handed to [DBQuery] so far (ghost
    state: it makes the order of effects observable). *)
Record pkgState : Type := {
  totals : runningTotals;
  linked : linkedEvents;
  lastBlockTrack : option blockTrack;
  db : DB;
  logged : list logLine;
  issued : list (string * list arg)
}.

Definition setDB (st : pkgState) (d : DB) : pkgState :=
  {| totals := totals st; linked := linked st; lastBlockTrack := lastBlockTrack st;
     db := d; logged := logged st; issued := issued st |}.

Definition logPrintf (st : pkgState) (format : string) (args : list logArg) : pkgState :=
  {| totals := totals st; linked := linked st; lastBlockTrack := lastBlockTrack st;
     db := db st; logged := logged st ++ [(format, args)]; issued := issued st |}.

Definition storeLastBlockTrack (st : pkgState) (track : blockTrack) : pkgState :=
  {| totals := totals st; linked := linked st; lastBlockTrack := Some track;
     db := db st; logged := logged st; issued := issued st |}.

Definition setRecorder (st : pkgState) (l : linkedEvents) (t : runningTotals) : pkgState :=
  {| totals := t; linked := l; lastBlockTrack := lastBlockTrack st;
     db := db st; logged := logged st; issued := issued st |}.

(** A call of the [DBQuery] hook. *)
Definition query (q : string) (args : list arg) (st : pkgState) : pkgState * result sqlRows :=
  let '(d, r) := DBQuery q args (db st) in
  ({| totals := totals st; linked := linked st; lastBlockTrack := lastBlockTrack st;
      db := d; logged := logged st; issued := issued st ++ [(q, args)] |}, r).

(** A call of the [DBExec] hook. *)
Definition exec (q : string) (args : list arg) (st : pkgState) : pkgState * result sqlResult :=
  let '(d, r) := DBExec q args (db st) in (setDB st d, r).

(** [loadBlockFromDB]: reads the row of the given height, or the last
    one when the height is not positive. *)
Definition loadBlockFromDB (height : Z) (st : pkgState) : pkgState * result blockTrack :=
  let restriction :=
    if 0 <? height then "WHERE height = " +:+ pretty height
    else "ORDER BY height DESC LIMIT 1" in
  let q := "SELECT height, timestamp, hash, agg_state FROM block_log " +:+ restriction in
  let st := logPrintf st "Running query on DB %s" [LStr q] in
  match query q [] st with
  | (st, Err err) => (st, Err (Wrapf "last block lookup: %w" [] err))
  | (st, Ok rows) =>
    match rows_data rows with
    | cols :: _ =>
      let '(h, ns, hash, aggSerial) := scanBlockLog cols in
      match gobDecode aggSerial with
      | Err err => (st, Err (Wrapf "restore with malformed aggregation state denied on %w" [] err))
      | Ok a => (st, Ok {| Height := h; Timestamp := Unix 0 ns; Hash := hash; agg := a |})
      end
    | [] =>
      match rows_Err rows with
      | Some err => (st, Err err)
      | None => (st, Ok zeroTrack)
      end
    end
  end.

(** [Setup] initializes the package: the previous state is restored (if
    there was any). The two loops store every entry of the track in the
    recorder's maps, over what the maps hold. *)
Definition Setup (st : pkgState) : pkgState * (Z * Time * list Z * option error) :=
  match loadBlockFromDB (-1) st with
  | (st, Err err) => (st, (0, 0, [], Some err))
  | (st, Ok track) =>
    let st := storeLastBlockTrack st track in
    let t := {| assetE8DepthPerPool := AssetE8DepthPerPool (agg track) ∪ assetE8DepthPerPool (totals st);
                runeE8DepthPerPool := RuneE8DepthPerPool (agg track) ∪ runeE8DepthPerPool (totals st) |} in
    (setRecorder st (linked st) t, (Height track, Timestamp track, Hash track, None))
  end.

Definition insertBlockLog : string :=
  "INSERT INTO block_log (height, timestamp, hash, agg_state) VALUES ($1, $2, $3, $4) ON CONFLICT DO NOTHING".

(** [CommitBlock] marks the given height as done. The accessors
    [recorder.AssetE8DepthPerPool()] and [recorder.RuneE8DepthPerPool()]
    hand out the depths the running totals hold. *)
Definition CommitBlock (height : Z) (timestamp : Time) (hash : list Z) (st : pkgState)
    : pkgState * option error :=
  let track := {| Height := height; Timestamp := timestamp; Hash := hash;
                  agg := {| AssetE8DepthPerPool := assetE8DepthPerPool (totals st);
                            RuneE8DepthPerPool := runeE8DepthPerPool (totals st) |} |} in
  let '(aggSerial, encErr) := gobEncode (agg track) in
  let st := match encErr with
            | Some err => logPrintf st "aggregation state ommited from persistence:" [LErr err]
            | None => st
            end in
  match exec insertBlockLog [AInt height; AInt (UnixNano timestamp); ABytes hash; ABytes aggSerial] st with
  | (st, Err err) => (st, Some (Wrapf "persist block height %d: %w" [height] err))
  | (st, Ok result) =>
    match RowsAffected result with
    | Err err => (st, Some (Wrapf "persist block height %d result: %w" [height] err))
    | Ok n =>
      let st := if n =? 0 then logPrintf st "block height %d already committed" [LInt height] else st in
      let '(l, t) := ApplyOutboundQ (linked st) (totals st) height timestamp in
      let '(l, t) := ApplyFeeQ l t height timestamp in
      let st := setRecorder st l t in
      (storeLastBlockTrack st track, None)
    end
  end.

(** [LastBlock] gets the most recent commit; the type assertion panics
    while nothing is stored. *)
Definition LastBlock (st : pkgState) : outcome (Z * Time * list Z) :=
  match lastBlockTrack st with
  | Some track => Returns (Height track, Timestamp track, Hash track)
  | None => Panics "interface conversion: interface {} is nil, not *timeseries.blockTrack"
  end.

(** [AssetAndRuneDepths] gets the current snapshot handle. *)
Definition AssetAndRuneDepths (st : pkgState) : outcome (gmap string Z * gmap string Z * Time) :=
  match lastBlockTrack st with
  | Some track =>
    Returns (AssetE8DepthPerPool (agg track), RuneE8DepthPerPool (agg track), Timestamp track)
  | None => Panics "interface conversion: interface {} is nil, not *timeseries.blockTrack"
  end.

(** [AssetAndRuneDepthsAtHeight]: same as [AssetAndRuneDepths] but for a
    specific height. A failed load is logged and answered with empty
    maps and the zero time; the line printed for a loaded track is not
    part of the model. *)
Definition AssetAndRuneDepthsAtHeight (height : Z) (st : pkgState)
    : pkgState * (gmap string Z * gmap string Z * Time) :=
  match loadBlockFromDB height st with
  | (st, Err err) => (logPrintf st "Error on db query: " [LErr err], (∅, ∅, 0))
  | (st, Ok track) =>
    (st, (AssetE8DepthPerPool (agg track), RuneE8DepthPerPool (agg track), Timestamp track))
  end.

(** ** lookup.go *)

(** The opening of every point-in-time lookup:
    [if moment.IsZero() { moment = timestamp } else if
    timestamp.Before(moment) { return ..., errBeyondLast }]. [None]
    stands for the return. *)
Definition resolveMoment (moment timestamp : Time) : option Time :=
  if IsZero moment then Some timestamp
  else if Before timestamp moment then None
  else Some moment.

(** [for rows.Next()] over one string column, appending to a slice; a
    failed scan returns what was gathered, with the error. *)
Fixpoint scanColumn (data : list (list arg)) (acc : list string) : list string * option error :=
  match data with
  | [] => (acc, None)
  | cols :: rest =>
    match scanStrings 1 cols with
    | Some [s] => scanColumn rest (acc ++ [s])
    | _ => (acc, Some errScan)
    end
  end.

(** What [Pools] and [StakeAddrs] do once the moment is settled. *)
Definition lookupColumn (q : string) (moment : Time) (st : pkgState)
    : pkgState * (list string * option error) :=
  match query q [AInt (UnixNano moment)] st with
  | (st, Err err) => (st, ([], Some err))
  | (st, Ok rows) =>
    match scanColumn (rows_data rows) [] with
    | (l, Some err) => (st, (l, Some err))
    | (l, None) => (st, (l, rows_Err rows))
    end
  end.

(** [Pools] gets all asset identifiers for a given point in time. *)
Definition Pools (moment : Time) (st : pkgState) : pkgState * outcome (list string * option error) :=
  match LastBlock st with
  | Panics why => (st, Panics why)
  | Returns (_, timestamp, _) =>
    match resolveMoment moment timestamp with
    | None => (st, Returns ([], Some errBeyondLast))
    | Some moment =>
      let '(st, r) :=
        lookupColumn "SELECT pool FROM stake_events WHERE block_timestamp <= $1 GROUP BY pool"
          moment st in
      (st, Returns r)
    end
  end.

(** [PoolStatus] gets the label for a given point in time. *)
Definition PoolStatus (pool : string) (moment : Time) (st : pkgState)
    : pkgState * outcome (string * option error) :=
  match LastBlock st with
  | Panics why => (st, Panics why)
  | Returns (_, timestamp, _) =>
    match resolveMoment moment timestamp with
    | None => (st, Returns ("", Some errBeyondLast))
    | Some moment =>
      let q := "SELECT COALESCE(last(status, block_timestamp), '') FROM pool_events WHERE block_timestamp <= $2 AND asset = $1" in
      match query q [AStr pool; AInt (UnixNano moment)] st with
      | (st, Err err) => (st, Returns ("", Some err))
      | (st, Ok rows) =>
        match rows_data rows with
        | cols :: _ =>
          match scanStrings 1 cols with
          | Some [status] => (st, Returns (status, None))
          | _ => (st, Returns ("", Some errScan))
          end
        | [] => (st, Returns ("", rows_Err rows))
        end
      end
    end
  end.

(** [StakeAddrs] gets all known addresses for a given point in time. *)
Definition StakeAddrs (moment : Time) (st : pkgState) : pkgState * outcome (list string * option error) :=
  match LastBlock st with
  | Panics why => (st, Panics why)
  | Returns (_, timestamp, _) =>
    match resolveMoment moment timestamp with
    | None => (st, Returns ([], Some errBeyondLast))
    | Some moment =>
      let '(st, r) :=
        lookupColumn "SELECT rune_addr FROM stake_events WHERE block_timestamp <= $1 GROUP BY rune_addr"
          moment st in
      (st, Returns r)
    end
  end.

(** [for rows.Next()] over two string columns into a map. *)
Fixpoint scanPairs (wrap : string) (data : list (list arg)) (m : gmap string string)
    : gmap string string * option error :=
  match data with
  | [] => (m, None)
  | cols :: rest =>
    match scanStrings 2 cols with
    | Some [k; v] => scanPairs wrap rest (<[k := v]> m)
    | _ => (m, Some (Wrapf wrap [] errScan))
    end
  end.

(** [Mimir] gets all values for a given point in time. *)
Definition Mimir (moment : Time) (st : pkgState)
    : pkgState * outcome (gmap string string * option error) :=
  match LastBlock st with
  | Panics why => (st, Panics why)
  | Returns (_, timestamp, _) =>
    match resolveMoment moment timestamp with
    | None => (st, Returns (∅, Some errBeyondLast))
    | Some moment =>
      let q := "SELECT name, value FROM set_mimir_event_entries WHERE block_timestamp <= $1" in
      match query q [AInt (UnixNano moment)] st with
      | (st, Err err) => (st, Returns (∅, Some (Wrapf "mimir lookup: %w" [] err)))
      | (st, Ok rows) =>
        match scanPairs "mimir retrieve: %w" (rows_data rows) ∅ with
        | (m, Some err) => (st, Returns (m, Some err))
        | (m, None) => (st, Returns (m, rows_Err rows))
        end
      end
    end
  end.

(** [for rows.Next()] of [newNodes]: every node gets the empty status. *)
Fixpoint scanNodes (data : list (list arg)) (m : gmap string string)
    : gmap string string * option error :=
  match data with
  | [] => (m, None)
  | cols :: rest =>
    match scanStrings 1 cols with
    | Some [node] => scanNodes rest (<[node := ""]> m)
    | _ => (m, Some (Wrapf "new node retrieve: %w" [] errScan))
    end
  end.

Definition newNodes (moment : Time) (st : pkgState) : pkgState * (gmap string string * option error) :=
  let q := "SELECT node_addr FROM new_node_events WHERE block_timestamp <= $1" in
  match query q [AInt (UnixNano moment)] st with
  | (st, Err err) => (st, (∅, Some (Wrapf "new node lookup: %w" [] err)))
  | (st, Ok rows) =>
    match scanNodes (rows_data rows) ∅ with
    | (m, Some err) => (st, (m, Some err))
    | (m, None) => (st, (m, rows_Err rows))
    end
  end.

(** [StatusPerNode] gets the labels for a given point in time. *)
Definition StatusPerNode (moment : Time) (st : pkgState)
    : pkgState * outcome (gmap string string * option error) :=
  match LastBlock st with
  | Panics why => (st, Panics why)
  | Returns (_, timestamp, _) =>
    match resolveMoment moment timestamp with
    | None => (st, Returns (∅, Some errBeyondLast))
    | Some moment =>
      match newNodes moment st with
      | (st, (_, Some err)) => (st, Returns (∅, Some err))
      | (st, (m, None)) =>
        let q := "SELECT node_addr, current FROM update_node_account_status_events WHERE block_timestamp <= $1" in
        match query q [AInt (UnixNano moment)] st with
        | (st, Err err) => (st, Returns (∅, Some (Wrapf "status per node lookup: %w" [] err)))
        | (st, Ok rows) =>
          match scanPairs "status per node retrieve: %w" (rows_data rows) m with
          | (m, Some err) => (st, Returns (m, Some err))
          | (m, None) => (st, Returns (m, rows_Err rows))
          end
        end
      end
    end
  end.

(** The two maps [NodesSecpAndEd] fills, with the lines it logs. *)
Record nodeKeys : Type := {
  secp256k1Addrs : gmap string string;
  ed25519Addrs : gmap string string;
  keyLog : list logLine
}.

(** The body of the loop of [NodesSecpAndEd] for a scanned row. *)
Definition nodeKeysRow (addr secp ed : string) (k : nodeKeys) : nodeKeys :=
  let log1 :=
    match secp256k1Addrs k !! secp with
    | Some current =>
      if negb (String.eqb current addr)
      then [("secp256k1 key %q used by node address %q and %q", [LStr secp; LStr current; LStr addr])]
      else []
    | None => []
    end in
  let secpAddrs := <[secp := addr]> (secp256k1Addrs k) in
  let log2 :=
    match ed25519Addrs k !! ed with
    | Some current =>
      if negb (String.eqb current addr)
      then [("Ed25519 key %q used by node address %q and %q", [LStr ed; LStr current; LStr addr])]
      else []
    | None => []
    end in
  let edAddrs := <[secp := addr]> (ed25519Addrs k) in
  {| secp256k1Addrs := secpAddrs; ed25519Addrs := edAddrs; keyLog := keyLog k ++ log1 ++ log2 |}.

(** [for rows.Next()] of [NodesSecpAndEd]; a failed scan ends the call
    with an error. *)
Fixpoint nodeKeysRows (data : list (list arg)) (k : nodeKeys) : nodeKeys * option error :=
  match data with
  | [] => (k, None)
  | cols :: rest =>
    match scanStrings 3 cols with
    | Some [addr; secp; ed] => nodeKeysRows rest (nodeKeysRow addr secp ed k)
    | _ => (k, Some (Wrapf "node addr resolve: %w" [] errScan))
    end
  end.

Definition queryNodeKeys : string :=
  "SELECT node_addr, secp256k1, ed25519
FROM set_node_keys_events
WHERE block_timestamp <= $1".

(** [NodesSecpAndEd] returns the public keys mapped to their respective
    addresses. [rows.Err()] is not consulted. *)
Definition NodesSecpAndEd (t : Time) (st : pkgState)
    : pkgState * (gmap string string * gmap string string * option error) :=
  match query queryNodeKeys [AInt (UnixNano t)] st with
  | (st, Err err) => (st, (∅, ∅, Some (Wrapf "node addr lookup: %w" [] err)))
  | (st, Ok rows) =>
    let '(k, err) := nodeKeysRows (rows_data rows)
                       {| secp256k1Addrs := ∅; ed25519Addrs := ∅; keyLog := [] |} in
    let st := {| totals := totals st; linked := linked st; lastBlockTrack := lastBlockTrack st;
                 db := db st; logged := logged st ++ keyLog k; issued := issued st |} in
    match err with
    | Some err => (st, (∅, ∅, Some err))
    | None => (st, (secp256k1Addrs k, ed25519Addrs k, None))
    end
  end.

End Package.

End Timeseries.

(* ===================================================================== *)
(** * Tendermint RPC types *)
(* ===================================================================== *)

Module Tendermint.

(** [abci.Event]: a type and key/value attributes. *)
Record Event : Type := { Type_ : string; Attributes : list (list Z * list Z) }.

(** [abci.ResponseDeliverTx], of which the sources read the events. *)
Record ResponseDeliverTx : Type := { Events : list Event }.

(** [coretypes.ResultBlockResults] *)
Record ResultBlockResults : Type := { Height : Z; TxsResults : list ResponseDeliverTx }.

(** The zero value a batched [BlockResults] call hands out before the
    batch is sent. *)
Definition zeroResults : ResultBlockResults := {| Height := 0; TxsResults := [] |}.

(** [types.BlockMeta]: [BlockID.Hash], [Header.Height], [Header.Time]. *)
Record BlockMeta : Type := { BlockID_Hash : list Z; Header_Height : Z; Header_Time : Time }.

(** [coretypes.ResultStatus]: the [SyncInfo] heights. *)
Record ResultStatus : Type := { EarliestBlockHeight : Z; LatestBlockHeight : Z }.

End Tendermint.

(* ===================================================================== *)
(** * Package chain *)
(* ===================================================================== *)

Module Chain.

Import Tendermint.

(** [Block] is a chain record. *)
Record Block : Type := {
  Block_Height : Z;
  Block_Time : Time;
  Block_Hash : list Z;
  Results : ResultBlockResults
}.

Definition zeroBlock : Block :=
  {| Block_Height := 0; Block_Time := 0; Block_Hash := []; Results := zeroResults |}.

(** [Client] provides Tendermint access. Every call acts on the world
    [W] outside the process: the node and the connection to it. *)
Record Client (W : Type) : Type := {
  statusClient_Status : W → W * result ResultStatus;
  historyClient_BlockchainInfo : Z → Z → W → W * result (list BlockMeta);
  (** [signClient] is in batch mode: [BlockResults] enqueues a request
      and hands out the result to be filled in. *)
  signClient_BlockResults : Z → W → W * option error;
  (** [signClientTrigger] sends the batch; the results come back in the
      order of the requests. *)
  signClientTrigger : W → W * result (list ResultBlockResults)
}.
Arguments statusClient_Status {W} c.
Arguments historyClient_BlockchainInfo {W} c.
Arguments signClient_BlockResults {W} c.
Arguments signClientTrigger {W} c.

Definition ErrNoData : error := errorString "no more data on blockchain".
Definition ErrQuit : error := errorString "receive on quit channel".

(** The first pair of neighbours that breaks the descending order, as
    [(previous, height)]. *)
Fixpoint descendingBreak (heights : list Z) : option (Z * Z) :=
  match heights with
  | previous :: ((height :: _) as rest) =>
    if height >=? previous then Some (previous, height) else descendingBreak rest
  | _ => None
  end.

Section WithClient.

Context {W : Type}.
Variable c : Client W.

(** The loop [for i := len(info.BlockMetas) - 1; i >= 0; i--] of
    [fetchBlocks], over the metas from the last to the first: it fills
    [batch[n]] and enqueues the request for its results. Writing past
    the end of [batch] panics. *)
Fixpoint setupBlocks (metas : list BlockMeta) (batch : list Block) (n : nat) (w : W)
    : W * outcome (list Block * nat * option error) :=
  match metas with
  | [] => (w, Returns (batch, n, None))
  | meta :: rest =>
    if (length batch <=? n)%nat then (w, Panics "index out of range")
    else
      let b := {| Block_Height := Header_Height meta; Block_Time := Header_Time meta;
                  Block_Hash := BlockID_Hash meta; Results := zeroResults |} in
      let batch := <[n := b]> batch in
      match signClient_BlockResults c (Header_Height meta) w with
      | (w, Some err) =>
        (w, Returns (batch, 0%nat,
               Some (Wrapf "enqueue BlockResults(%d) for Tendermint RPC batch: %w"
                       [Header_Height meta] err)))
      | (w, None) => setupBlocks rest batch (S n) w
      end
  end.

(** The results of the batch, each in the block it was requested for. *)
Fixpoint fillResults (batch : list Block) (results : list ResultBlockResults) : list Block :=
  match batch, results with
  | b :: batch, r :: results =>
    {| Block_Height := Block_Height b; Block_Time := Block_Time b;
       Block_Hash := Block_Hash b; Results := r |} :: fillResults batch results
  | _, _ => batch
  end.

(** The first block of [batch[:n]] whose results are those of another
    height, as [(requested, got)]. *)
Fixpoint responseMismatch (blocks : list Block) : option (Z * Z) :=
  match blocks with
  | [] => None
  | b :: rest =>
    if negb (Height (Results b) =? Block_Height b)
    then Some (Block_Height b, Height (Results b))
    else responseMismatch rest
  end.

(** [fetchBlocks] resolves n blocks into batch, starting at the offset
    (height). The result holds the batch as the call leaves it. *)
Definition fetchBlocks (batch : list Block) (offset : Z) (w : W)
    : W * outcome (list Block * nat * option error) :=
  let last := wrap64 (offset + wrap64 (Z.of_nat (length batch) - 1)) in
  match historyClient_BlockchainInfo c offset last w with
  | (w, Err err) =>
    (w, Returns (batch, 0%nat, Some (Wrapf "Tendermint RPC BlockchainInfo %d–%d: %w" [offset; last] err)))
  | (w, Ok metas) =>
    match metas with
    | [] => (w, Returns (batch, 0%nat, None))
    | first :: _ =>
      match descendingBreak (Header_Height <$> metas) with
      | Some (previous, height) =>
        (w, Returns (batch, 0%nat,
               Some (Errorf "Tendermint RPC BlockchainInfo %d–%d got chain %d after %d"
                       [offset; last; previous; height])))
      | None =>
        let high := Header_Height first in
        let low := Header_Height (List.last metas first) in
        if (high >? last) || (low <? offset) then
          (w, Returns (batch, 0%nat,
                 Some (Errorf "Tendermint RPC BlockchainInfo %d–%d got %d–%d" [offset; last; low; high])))
        else
          match setupBlocks (reverse metas) batch 0 w with
          | (w, Panics why) => (w, Panics why)
          | (w, Returns (batch, n, Some err)) => (w, Returns (batch, 0%nat, Some err))
          | (w, Returns (batch, n, None)) =>
            match signClientTrigger c w with
            | (w, Err err) =>
              (w, Returns (batch, 0%nat, Some (Wrapf "Tendermint RPC batch %d–%d: %w" [offset; last] err)))
            | (w, Ok results) =>
              let batch := fillResults batch results in
              match responseMismatch (take n batch) with
              | Some (requested, got) =>
                (w, Returns (batch, 0%nat,
                       Some (Errorf "Tendermint RPC BlockResults(%d) got chain %d instead" [requested; got])))
              | None => (w, Returns (batch, n, None))
              end
            end
          end
      end
    end
  end.

(** The state of a run of [Follow]: the blocks sent on [out] so far, the
    two gauges, and the world. *)
Record followState : Type := {
  sent : list Block;
  cursorHeight : Z;
  nodeHeight : Z;
  world : W
}.

(** How a run ends: with the return values [(height, err)], in a panic,
    or not within the fuel given. *)
Inductive followEnd : Type :=
| Return (height : Z) (err : option error)
| Panic (why : string)
| OutOfFuel.

(** [quit] tells, whenever a [select] is reached, whether the receive
    on the quit channel is the case taken. *)
Variable quit : W → W * bool.

(** The loop [for i := 0; i < n; i++] that submits [batch[:n]]; [Some]
    is the return on quit. *)
Fixpoint submit (blocks : list Block) (offset : Z) (st : followState)
    : followState * Z * option followEnd :=
  match blocks with
  | [] => (st, offset, None)
  | b :: rest =>
    match quit (world st) with
    | (w, true) =>
      ({| sent := sent st; cursorHeight := cursorHeight st; nodeHeight := nodeHeight st; world := w |},
       offset, Some (Return offset None))
    | (w, false) =>
      let offset := wrap64 (Block_Height b + 1) in
      submit rest offset
        {| sent := sent st ++ [b]; cursorHeight := offset; nodeHeight := nodeHeight st; world := w |}
    end
  end.

(** The loop of [Follow], one iteration per unit of fuel. *)
Fixpoint followLoop (fuel : nat) (status : ResultStatus) (batch : list Block) (offset : Z)
    (st : followState) : followState * followEnd :=
  match fuel with
  | O => (st, OutOfFuel)
  | S fuel =>
    let polled :=
      if offset >? LatestBlockHeight status then
        match statusClient_Status c (world st) with
        | (w, Err err) =>
          inr ({| sent := sent st; cursorHeight := cursorHeight st; nodeHeight := nodeHeight st; world := w |},
               Return offset (Some (Wrapf "Tendermint RPC status unavailable: %w" [] err)))
        | (w, Ok status) =>
          let st := {| sent := sent st; cursorHeight := cursorHeight st;
                       nodeHeight := LatestBlockHeight status; world := w |} in
          if offset >? LatestBlockHeight status then inr (st, Return offset (Some ErrNoData))
          else inl (status, st)
        end
      else inl (status, st) in
    match polled with
    | inr ended => ended
    | inl (status, st) =>
      match fetchBlocks batch offset (world st) with
      | (w, Panics why) =>
        ({| sent := sent st; cursorHeight := cursorHeight st; nodeHeight := nodeHeight st; world := w |},
         Panic why)
      | (w, Returns (batch, n, Some err)) =>
        ({| sent := sent st; cursorHeight := cursorHeight st; nodeHeight := nodeHeight st; world := w |},
         Return offset (Some err))
      | (w, Returns (batch, n, None)) =>
        let st := {| sent := sent st; cursorHeight := cursorHeight st;
                     nodeHeight := nodeHeight st; world := w |} in
        if (n =? 0)%nat then
          match quit (world st) with
          | (w, true) =>
            ({| sent := sent st; cursorHeight := cursorHeight st; nodeHeight := nodeHeight st; world := w |},
             Return offset (Some ErrNoData))
          | (w, false) =>
            followLoop fuel status batch offset
              {| sent := sent st; cursorHeight := cursorHeight st; nodeHeight := nodeHeight st; world := w |}
          end
        else
          match submit (take n batch) offset st with
          | (st, offset, Some ended) => (st, ended)
          | (st, offset, None) => followLoop fuel status batch offset st
          end
      end
    end
  end.

(** [Follow] reads blocks in chronological order starting at the offset
    height. [out] starts empty; the batch holds 20 blocks. *)
Definition Follow (fuel : nat) (offset : Z) (w : W) : followState * followEnd :=
  match statusClient_Status c w with
  | (w, Err err) =>
    ({| sent := []; cursorHeight := 0; nodeHeight := 0; world := w |},
     Return offset (Some (Wrapf "Tendermint RPC status unavailable: %w" [] err)))
  | (w, Ok status) =>
    followLoop fuel status (replicate 20 zeroBlock) offset
      {| sent := []; cursorHeight := EarliestBlockHeight status;
         nodeHeight := LatestBlockHeight status; world := w |}
  end.

End WithClient.

End Chain.

(* ===================================================================== *)
(** * Package event: the demultiplexer *)
(* ===================================================================== *)

Module Event.

Import Tendermint.

(** [Metadata] has metadata for a block (from the chain). *)
Record Metadata : Type := { BlockTimestamp : Time }.

Definition errEventType : error := errorString "unknown event type".

(** The event types [Demux.event] knows. *)
Definition knownTypes : list string :=
  ["add"; "fee"; "message"; "outbound"; "pool"; "refund"; "reserve"; "stake"; "swap"; "unstake"].

Section Demux.

(** The ten event records and their [LoadTendermint] methods are not
    among the sources at hand. A method loads the attributes into the
    record it is called on, which [Demux] reuses from one event to the
    next, and may fail. *)
Context {Add Fee Message Outbound Pool Refund Reserve Stake Swap Unstake : Type}.
Variable Add_LoadTendermint : Add → list (list Z * list Z) → Add * option error.
Variable Fee_LoadTendermint : Fee → list (list Z * list Z) → Fee * option error.
Variable Message_LoadTendermint : Message → list (list Z * list Z) → Message * option error.
Variable Outbound_LoadTendermint : Outbound → list (list Z * list Z) → Outbound * option error.
Variable Pool_LoadTendermint : Pool → list (list Z * list Z) → Pool * option error.
Variable Refund_LoadTendermint : Refund → list (list Z * list Z) → Refund * option error.
Variable Reserve_LoadTendermint : Reserve → list (list Z * list Z) → Reserve * option error.
Variable Stake_LoadTendermint : Stake → list (list Z * list Z) → Stake * option error.
Variable Swap_LoadTendermint : Swap → list (list Z * list Z) → Swap * option error.
Variable Unstake_LoadTendermint : Unstake → list (list Z * list Z) → Unstake * option error.

(** [Listener] defines an event callback; a callback acts on the state
    [L] of the destination. *)
Class Listener (L : Type) : Type := {
  OnAdd : Add → Metadata → L → L;
  OnFee : Fee → Metadata → L → L;
  OnMessage : Message → Metadata → L → L;
  OnOutbound : Outbound → Metadata → L → L;
  OnPool : Pool → Metadata → L → L;
  OnRefund : Refund → Metadata → L → L;
  OnReserve : Reserve → Metadata → L → L;
  OnStake : Stake → Metadata → L → L;
  OnSwap : Swap → Metadata → L → L;
  OnUnstake : Unstake → Metadata → L → L
}.

Context {L : Type} `{!Listener L}.

(** [Demux] is a demultiplexer for events from the blockchain. *)
Record Demux : Type := {
  listener : L;
  reuse_Add : Add;
  reuse_Fee : Fee;
  reuse_Message : Message;
  reuse_Outbound : Outbound;
  reuse_Pool : Pool;
  reuse_Refund : Refund;
  reuse_Reserve : Reserve;
  reuse_Stake : Stake;
  reuse_Swap : Swap;
  reuse_Unstake : Unstake
}.

Definition setListener (d : Demux) (l : L) : Demux :=
  {| listener := l; reuse_Add := reuse_Add d; reuse_Fee := reuse_Fee d; reuse_Message := reuse_Message d; reuse_Outbound := reuse_Outbound d; reuse_Pool := reuse_Pool d; reuse_Refund := reuse_Refund d; reuse_Reserve := reuse_Reserve d; reuse_Stake := reuse_Stake d; reuse_Swap := reuse_Swap d; reuse_Unstake := reuse_Unstake d |}.

Definition set_Add (d : Demux) (r : Add) : Demux :=
  {| listener := listener d; reuse_Add := r; reuse_Fee := reuse_Fee d; reuse_Message := reuse_Message d; reuse_Outbound := reuse_Outbound d; reuse_Pool := reuse_Pool d; reuse_Refund := reuse_Refund d; reuse_Reserve := reuse_Reserve d; reuse_Stake := reuse_Stake d; reuse_Swap := reuse_Swap d; reuse_Unstake := reuse_Unstake d |}.

Definition set_Fee (d : Demux) (r : Fee) : Demux :=
  {| listener := listener d; reuse_Add := reuse_Add d; reuse_Fee := r; reuse_Message := reuse_Message d; reuse_Outbound := reuse_Outbound d; reuse_Pool := reuse_Pool d; reuse_Refund := reuse_Refund d; reuse_Reserve := reuse_Reserve d; reuse_Stake := reuse_Stake d; reuse_Swap := reuse_Swap d; reuse_Unstake := reuse_Unstake d |}.

Definition set_Message (d : Demux) (r : Message) : Demux :=
  {| listener := listener d; reuse_Add := reuse_Add d; reuse_Fee := reuse_Fee d; reuse_Message := r; reuse_Outbound := reuse_Outbound d; reuse_Pool := reuse_Pool d; reuse_Refund := reuse_Refund d; reuse_Reserve := reuse_Reserve d; reuse_Stake := reuse_Stake d; reuse_Swap := reuse_Swap d; reuse_Unstake := reuse_Unstake d |}.

Definition set_Outbound (d : Demux) (r : Outbound) : Demux :=
  {| listener := listener d; reuse_Add := reuse_Add d; reuse_Fee := reuse_Fee d; reuse_Message := reuse_Message d; reuse_Outbound := r; reuse_Pool := reuse_Pool d; reuse_Refund := reuse_Refund d; reuse_Reserve := reuse_Reserve d; reuse_Stake := reuse_Stake d; reuse_Swap := reuse_Swap d; reuse_Unstake := reuse_Unstake d |}.

Definition set_Pool (d : Demux) (r : Pool) : Demux :=
  {| listener := listener d; reuse_Add := reuse_Add d; reuse_Fee := reuse_Fee d; reuse_Message := reuse_Message d; reuse_Outbound := reuse_Outbound d; reuse_Pool := r; reuse_Refund := reuse_Refund d; reuse_Reserve := reuse_Reserve d; reuse_Stake := reuse_Stake d; reuse_Swap := reuse_Swap d; reuse_Unstake := reuse_Unstake d |}.

Definition set_Refund (d : Demux) (r : Refund) : Demux :=
  {| listener := listener d; reuse_Add := reuse_Add d; reuse_Fee := reuse_Fee d; reuse_Message := reuse_Message d; reuse_Outbound := reuse_Outbound d; reuse_Pool := reuse_Pool d; reuse_Refund := r; reuse_Reserve := reuse_Reserve d; reuse_Stake := reuse_Stake d; reuse_Swap := reuse_Swap d; reuse_Unstake := reuse_Unstake d |}.

Definition set_Reserve (d : Demux) (r : Reserve) : Demux :=
  {| listener := listener d; reuse_Add := reuse_Add d; reuse_Fee := reuse_Fee d; reuse_Message := reuse_Message d; reuse_Outbound := reuse_Outbound d; reuse_Pool := reuse_Pool d; reuse_Refund := reuse_Refund d; reuse_Reserve := r; reuse_Stake := reuse_Stake d; reuse_Swap := reuse_Swap d; reuse_Unstake := reuse_Unstake d |}.

Definition set_Stake (d : Demux) (r : Stake) : Demux :=
  {| listener := listener d; reuse_Add := reuse_Add d; reuse_Fee := reuse_Fee d; reuse_Message := reuse_Message d; reuse_Outbound := reuse_Outbound d; reuse_Pool := reuse_Pool d; reuse_Refund := reuse_Refund d; reuse_Reserve := reuse_Reserve d; reuse_Stake := r; reuse_Swap := reuse_Swap d; reuse_Unstake := reuse_Unstake d |}.

Definition set_Swap (d : Demux) (r : Swap) : Demux :=
  {| listener := listener d; reuse_Add := reuse_Add d; reuse_Fee := reuse_Fee d; reuse_Message := reuse_Message d; reuse_Outbound := reuse_Outbound d; reuse_Pool := reuse_Pool d; reuse_Refund := reuse_Refund d; reuse_Reserve := reuse_Reserve d; reuse_Stake := reuse_Stake d; reuse_Swap := r; reuse_Unstake := reuse_Unstake d |}.

Definition set_Unstake (d : Demux) (r : Unstake) : Demux :=
  {| listener := listener d; reuse_Add := reuse_Add d; reuse_Fee := reuse_Fee d; reuse_Message := reuse_Message d; reuse_Outbound := reuse_Outbound d; reuse_Pool := reuse_Pool d; reuse_Refund := reuse_Refund d; reuse_Reserve := reuse_Reserve d; reuse_Stake := reuse_Stake d; reuse_Swap := reuse_Swap d; reuse_Unstake := r |}.

(** [event] notifies Listener for the transaction event. *)
Definition event (d : Demux) (ev : Event) (meta : Metadata) : Demux * option error :=
  let attrs := Attributes ev in
  if String.eqb (Type_ ev) "add" then
    match Add_LoadTendermint (reuse_Add d) attrs with
    | (r, Some err) => (set_Add d r, Some err)
    | (r, None) => (setListener (set_Add d r) (OnAdd r meta (listener d)), None)
    end
  else if String.eqb (Type_ ev) "fee" then
    match Fee_LoadTendermint (reuse_Fee d) attrs with
    | (r, Some err) => (set_Fee d r, Some err)
    | (r, None) => (setListener (set_Fee d r) (OnFee r meta (listener d)), None)
    end
  else if String.eqb (Type_ ev) "message" then
    match Message_LoadTendermint (reuse_Message d) attrs with
    | (r, Some err) => (set_Message d r, Some err)
    | (r, None) => (setListener (set_Message d r) (OnMessage r meta (listener d)), None)
    end
  else if String.eqb (Type_ ev) "outbound" then
    match Outbound_LoadTendermint (reuse_Outbound d) attrs with
    | (r, Some err) => (set_Outbound d r, Some err)
    | (r, None) => (setListener (set_Outbound d r) (OnOutbound r meta (listener d)), None)
    end
  else if String.eqb (Type_ ev) "pool" then
    match Pool_LoadTendermint (reuse_Pool d) attrs with
    | (r, Some err) => (set_Pool d r, Some err)
    | (r, None) => (setListener (set_Pool d r) (OnPool r meta (listener d)), None)
    end
  else if String.eqb (Type_ ev) "refund" then
    match Refund_LoadTendermint (reuse_Refund d) attrs with
    | (r, Some err) => (set_Refund d r, Some err)
    | (r, None) => (setListener (set_Refund d r) (OnRefund r meta (listener d)), None)
    end
  else if String.eqb (Type_ ev) "reserve" then
    match Reserve_LoadTendermint (reuse_Reserve d) attrs with
    | (r, Some err) => (set_Reserve d r, Some err)
    | (r, None) => (setListener (set_Reserve d r) (OnReserve r meta (listener d)), None)
    end
  else if String.eqb (Type_ ev) "stake" then
    match Stake_LoadTendermint (reuse_Stake d) attrs with
    | (r, Some err) => (set_Stake d r, Some err)
    | (r, None) => (setListener (set_Stake d r) (OnStake r meta (listener d)), None)
    end
  else if String.eqb (Type_ ev) "swap" then
    match Swap_LoadTendermint (reuse_Swap d) attrs with
    | (r, Some err) => (set_Swap d r, Some err)
    | (r, None) => (setListener (set_Swap d r) (OnSwap r meta (listener d)), None)
    end
  else if String.eqb (Type_ ev) "unstake" then
    match Unstake_LoadTendermint (reuse_Unstake d) attrs with
    | (r, Some err) => (set_Unstake d r, Some err)
    | (r, None) => (setListener (set_Unstake d r) (OnUnstake r meta (listener d)), None)
    end
  else (d, Some errEventType).

(** The loop over the events of a transaction: an error of [event] is
    logged with the block, the indices and the type. *)
Fixpoint eventsLoop (m : Metadata) (blockID : list Z) (txIndex eventIndex : nat)
    (events : list Event) (d : Demux) (logs : list logLine) : Demux * list logLine :=
  match events with
  | [] => (d, logs)
  | ev :: rest =>
    match event d ev m with
    | (d, Some err) =>
      eventsLoop m blockID txIndex (S eventIndex) rest d
        (logs ++ [("block %s tx %d event %d type %q skipped: %s",
                   [LBytes blockID; LInt (Z.of_nat txIndex); LInt (Z.of_nat eventIndex);
                    LStr (Type_ ev); LErr err])])
    | (d, None) => eventsLoop m blockID txIndex (S eventIndex) rest d logs
    end
  end.

(** The loop over the transactions of a block. *)
Fixpoint txsLoop (m : Metadata) (blockID : list Z) (txIndex : nat)
    (txs : list ResponseDeliverTx) (d : Demux) (logs : list logLine) : Demux * list logLine :=
  match txs with
  | [] => (d, logs)
  | tx :: rest =>
    let '(d, logs) := eventsLoop m blockID txIndex 0 (Events tx) d logs in
    txsLoop m blockID (S txIndex) rest d logs
  end.

(** [Block] invokes Listener for each transaction event in block. It
    has no return value; the model hands back the demultiplexer and the
    lines logged. *)
Definition Block (d : Demux) (block : ResultBlockResults) (meta : BlockMeta)
    : Demux * list logLine :=
  let m := {| BlockTimestamp := Header_Time meta |} in
  txsLoop m (BlockID_Hash meta) 0 (TxsResults block) d [].

End Demux.

End Event.

(* ===================================================================== *)
(** * Package api: the prices of the version 1 handlers *)
(* ===================================================================== *)

Module Api.

(** The conversion [float64(v)] of an int64: the nearest binary64 value,
    ties to even. *)
Definition float64 (v : Z) : float := SF2Prim (binary_normalize prec emax v 0 false).

(** [big.NewRat(a, b)]: the fraction a/b in lowest terms; a zero
    denominator panics. *)
Definition NewRat (a b : Z) : outcome Q :=
  if b =? 0 then Panics "division by zero"
  else Returns (Qred (inject_Z a / inject_Z b)).

(** [Float64] of [big.Rat]: the nearest binary64 value of the fraction,
    found by the division of the numerator by the denominator rounded
    once. *)
Definition Float64 (r : Q) : float :=
  match Qnum r with
  | Z0 => 0%float
  | Zpos n => SF2Prim (SFdiv prec emax (S754_finite false n 0) (S754_finite false (Qden r) 0))
  | Zneg n => SF2Prim (SFdiv prec emax (S754_finite true n 0) (S754_finite false (Qden r) 0))
  end.

(** The value [serveV1Assets] formats for ["priceRune"]:
    [float64(runeE8DepthPerPool[asset])/float64(assetDepth)], present
    when the asset depth is not zero. *)
Definition assetsPriceRune (assetE8DepthPerPool runeE8DepthPerPool : gmap string Z)
    (asset : string) : option float :=
  let assetDepth := default 0 (assetE8DepthPerPool !! asset) in
  if negb (assetDepth =? 0)
  then Some (PrimFloat.div (float64 (default 0 (runeE8DepthPerPool !! asset))) (float64 assetDepth))
  else None.

(** The value [poolsAsset] formats for ["price"]:
    [ratFloatStr(big.NewRat(runeDepth, assetDepth))], present when the
    asset depth is not zero. *)
Definition poolsAssetPrice (assetE8DepthPerPool runeE8DepthPerPool : gmap string Z)
    (asset : string) : option float :=
  let assetDepth := default 0 (assetE8DepthPerPool !! asset) in
  let runeDepth := default 0 (runeE8DepthPerPool !! asset) in
  if negb (assetDepth =? 0) then
    match NewRat runeDepth assetDepth with
    | Returns priceInRune => Some (Float64 priceInRune)
    | Panics _ => None
    end
  else None.

Section Render.

(** [strconv.FormatFloat(f, 'f', -1, 64)] *)
Variable FormatFloat : float → string.

(** [ratFloatStr] transforms the rational value, possibly with loss of
    precision. *)
Definition ratFloatStr (r : Q) : string := FormatFloat (Float64 r).

(** The entry ["priceRune"] of [serveV1Assets]. *)
Definition serveV1Assets_priceRune (assetE8DepthPerPool runeE8DepthPerPool : gmap string Z)
    (asset : string) : option string :=
  FormatFloat <$> assetsPriceRune assetE8DepthPerPool runeE8DepthPerPool asset.

(** The entry ["price"] of [poolsAsset]. *)
Definition poolsAsset_price (assetE8DepthPerPool runeE8DepthPerPool : gmap string Z)
    (asset : string) : option string :=
  FormatFloat <$> poolsAssetPrice assetE8DepthPerPool runeE8DepthPerPool asset.

End Render.

(** ** The helpers of the version 1 handlers *)

(** The parts of [*http.Request] the handlers read: the method, the
    path and the values of a key of the URL query. *)
Record Request : Type := {
  Method : string;
  URL_Path : string;
  URL_Query : string → list string
}.

(** What a handler writes: [respJSON] with a body, or [http.Error] with
    a status code and the text of an error. *)
Inductive response (A : Type) : Type :=
| respJSON (body : A)
| httpError (code : Z) (err : error).
Arguments respJSON {A} body.
Arguments httpError {A} code err.

Definition StatusBadRequest : Z := 400.
Definition StatusInternalServerError : Z := 500.

(** [intStr] returns the value as a decimal string. *)
Definition intStr (v : Z) : string := pretty v.

Definition intArrayStrs (a : list Z) : list string := intStr <$> a.

(** [ratIntStr] returns the (rounded) integer value as a decimal string:
    [big.Int.Div] is the Euclidean division, and the denominator of a
    [big.Rat] is positive. *)
Definition ratIntStr (v : Q) : string := pretty (Qnum v / Z.pos (Qden v)).

(** What is before the first separator, and what is after it if there
    is one: [strings.Index] and the two slices of [strings.SplitN]. *)
Fixpoint cut (sep : Ascii.ascii) (s : string) : string * option string :=
  match s with
  | EmptyString => (EmptyString, None)
  | String c rest =>
    if Ascii.eqb c sep then (EmptyString, Some rest)
    else let '(before, after) := cut sep rest in (String c before, after)
  end.

(** [strings.SplitN(s, sep, n)] for a separator of one byte and n ≥ 0:
    at most n substrings, the last one the unsplit remainder. *)
Fixpoint SplitN (s : string) (sep : Ascii.ascii) (n : nat) : list string :=
  match n with
  | O => []
  | S O => [s]
  | S n' =>
    match cut sep s with
    | (before, Some after) => before :: SplitN after sep n'
    | (_, None) => [s]
    end
  end.

Definition assetListMax : nat := 10.

(** The byte [','] *)
Definition comma : Ascii.ascii := Ascii.ascii_of_nat 44.

Definition assetParam (r : Request) : result (list string) :=
  let list := Timeseries.Join (URL_Query r "asset") "," in
  if String.eqb list "" then Err (errorString "asset query parameter required")
  else
    let assets := SplitN list comma (assetListMax + 1) in
    if (assetListMax <? length assets)%nat
    then Err (errorString "too many entries in asset query parameter")
    else Ok assets.

(** [sum += n] over a slice of int64. *)
Definition sumInt64 (values : list Z) : Z :=
  fold_left (λ total n, wrap64 (total + n)) values 0.

(** An index expression [a[i]]; out of range it panics. *)
Definition index (a : list Z) (i : nat) : outcome Z :=
  match a !! i with
  | Some v => Returns v
  | None => Panics "index out of range"
  end.

Definition bindOutcome {A B : Type} (x : outcome A) (f : A → outcome B) : outcome B :=
  match x with
  | Returns a => f a
  | Panics why => Panics why
  end.

(** A value of [map[string]interface{}] as the bond metrics have them:
    an int64 or a string. *)
Inductive metric : Type :=
| MInt (v : Z)
| MStr (s : string).

Section Handlers.

(** The hooks of the handlers that are not among the sources at hand:
    [strconv.FormatFloat(f, 'f', -1, 64)], [strconv.ParseInt(s, 10, 64)]
    and [notinchain.NodeAccountsLookup]. *)
Variable FormatFloat : float → string.
Variable ParseInt : string → result Z.

(** One of the two blocks of [activeAndStandbyBondMetrics], with the
    keys it writes. *)
Definition bondMetrics (kTotal kMin kMax kAvg kMedian : string) (bonds : list Z)
    (m : gmap string metric) : outcome (gmap string metric) :=
  if negb (length bonds =? 0)%nat then
    let total := sumInt64 bonds in
    let m := <[kTotal := MInt total]> m in
    bindOutcome (index bonds 0) (λ lo,
    let m := <[kMin := MInt lo]> m in
    bindOutcome (index bonds (length bonds - 1)) (λ hi,
    let m := <[kMax := MInt hi]> m in
    bindOutcome (NewRat total (Z.of_nat (length bonds))) (λ avg,
    let m := <[kAvg := MStr (ratFloatStr FormatFloat avg)]> m in
    bindOutcome (index bonds (length bonds / 2)) (λ med,
    Returns (<[kMedian := MInt med]> m)))))
  else Returns m.

Definition activeAndStandbyBondMetrics (active standby : list Z) : outcome (gmap string metric) :=
  bindOutcome
    (bondMetrics "totalActiveBond" "minimumActiveBond" "maximumActiveBond"
       "averageActiveBond" "medianActiveBond" active ∅)
    (bondMetrics "totalStandbyBond" "minimumStandbyBond" "maximumStandbyBond"
       "averageStandbyBond" "medianStandbyBond" standby).

Context {DB linkedEvents : Type}.
Variable DBQuery : string → list arg → DB → DB * result sqlRows.

Abbreviation pkgState := (@Timeseries.pkgState DB linkedEvents).

(** [respError] logs the request and answers with status 500. *)
Definition respError {A : Type} (st : pkgState) (r : Request) (err : error)
    : pkgState * response A :=
  (Timeseries.logPrintf st "HTTP %q %q: %s" [LStr (Method r); LStr (URL_Path r); LErr err],
   httpError StatusInternalServerError err).

(** [heightParam] returns the value of the height url parameter. If the
    parameter is missing or -1 it returns the height of the latest
    block. *)
Definition heightParam (r : Request) (st : pkgState) : outcome (Z * option error) :=
  bindOutcome (Timeseries.LastBlock st) (λ '(lastHeight, _, _),
  match URL_Query r "height" with
  | [] => Returns (lastHeight, None)
  | [param] =>
    match ParseInt param with
    | Err err => Returns (-1, Some (Wrapf "couldn't parse block parameter as int: %w" [] err))
    | Ok height =>
      if height =? -1 then Returns (lastHeight, None)
      else if (height <=? 0) || (lastHeight <? height)
      then Returns (-1, Some (Errorf "block parameter is out of bounds: %d" [height]))
      else Returns (height, None)
    end
  | _ => Returns (-1, Some (errorString "too many height parameters"))
  end).

(** A node account as [notinchain.NodeAccountsLookup] reports it. *)
Record NodeAccount : Type := {
  NodeAddr : string;
  Status : string;
  Bond : Z
}.

Variable NodeAccountsLookup : result (list NodeAccount).

(** The two sets and the two slices [serveV1Network] gathers from the
    node accounts. *)
Record bonded : Type := {
  activeNodes : gset string;
  standbyNodes : gset string;
  activeBonds : list Z;
  standbyBonds : list Z
}.

Definition gatherBonds (nodes : list NodeAccount) : bonded :=
  fold_left (λ b node,
    if String.eqb (Status node) "active" then
      {| activeNodes := {[NodeAddr node]} ∪ activeNodes b; standbyNodes := standbyNodes b;
         activeBonds := activeBonds b ++ [Bond node]; standbyBonds := standbyBonds b |}
    else if String.eqb (Status node) "standby" then
      {| activeNodes := activeNodes b; standbyNodes := {[NodeAddr node]} ∪ standbyNodes b;
         activeBonds := activeBonds b; standbyBonds := standbyBonds b ++ [Bond node] |}
    else b)
    nodes {| activeNodes := ∅; standbyNodes := ∅; activeBonds := []; standbyBonds := [] |}.

(** The body of the response of [serveV1Network]. *)
Record network : Type := {
  net_activeBonds : list string;
  net_activeNodeCount : string;
  net_bondMetrics : gmap string metric;
  net_totalStaked : string;
  net_standbyBonds : list string;
  net_standbyNodeCount : string
}.

(** [serveV1Network]. The range over the depth map goes in the order
    [order] gives; [sort.Sort] leaves the bonds in ascending order,
    which for integers is one list, the one [merge_sort] gives. *)
Definition serveV1Network (order : gmap string Z → list (string * Z)) (r : Request)
    (st : pkgState) : outcome (pkgState * response network) :=
  bindOutcome (Timeseries.AssetAndRuneDepths st) (λ '(_, runeE8DepthPerPool, _),
  let runeDepth := sumInt64 (order runeE8DepthPerPool).*2 in
  match NodeAccountsLookup with
  | Err err => Returns (respError st r err)
  | Ok nodes =>
    let b := gatherBonds nodes in
    let active := merge_sort Z.le (activeBonds b) in
    let standby := merge_sort Z.le (standbyBonds b) in
    bindOutcome (activeAndStandbyBondMetrics active standby) (λ metrics,
    Returns (st, respJSON {|
      net_activeBonds := intArrayStrs active;
      net_activeNodeCount := pretty (size (activeNodes b));
      net_bondMetrics := metrics;
      net_totalStaked := intStr runeDepth;
      net_standbyBonds := intArrayStrs standby;
      net_standbyNodeCount := pretty (size (standbyNodes b)) |}))
  end).

(** [serveV1Pools] and [serveV1Stakers] ask for the zero time, which
    the lookups take for the timestamp of the last block. *)
Definition serveV1Pools (r : Request) (st : pkgState) : pkgState * outcome (response (list string)) :=
  match Timeseries.Pools DBQuery 0 st with
  | (st, Panics why) => (st, Panics why)
  | (st, Returns (_, Some err)) => let '(st, resp) := respError st r err in (st, Returns resp)
  | (st, Returns (pools, None)) => (st, Returns (respJSON pools))
  end.

Definition serveV1Stakers (r : Request) (st : pkgState) : pkgState * outcome (response (list string)) :=
  match Timeseries.StakeAddrs DBQuery 0 st with
  | (st, Panics why) => (st, Panics why)
  | (st, Returns (_, Some err)) => let '(st, resp) := respError st r err in (st, Returns resp)
  | (st, Returns (addrs, None)) => (st, Returns (respJSON addrs))
  end.

(** An entry of the response of [serveV1Nodes]. *)
Record nodeEntry : Type := {
  Secp : string;
  Ed : string
}.

Definition zeroEntry : nodeEntry := {| Secp := ""; Ed := "" |}.

(** [serveV1Nodes]. [now] is what [time.Now()] gives; the three ranges
    over maps go in the orders given, one for each range. *)
Definition serveV1Nodes (orderSecp orderEd : gmap string string → list (string * string))
    (orderEntries : gmap string nodeEntry → list (string * nodeEntry))
    (now : Time) (r : Request) (st : pkgState) : pkgState * response (list nodeEntry) :=
  match Timeseries.NodesSecpAndEd DBQuery now st with
  | (st, (_, _, Some err)) => respError st r err
  | (st, (secpAddrs, edAddrs, None)) =>
    let m := fold_left (λ m '(key, addr),
               let e := default zeroEntry (m !! addr) in
               <[addr := {| Secp := key; Ed := Ed e |}]> m) (orderSecp secpAddrs) ∅ in
    let m := fold_left (λ m '(key, addr),
               let e := default zeroEntry (m !! addr) in
               <[addr := {| Secp := Secp e; Ed := key |}]> m) (orderEd edAddrs) m in
    (st, respJSON (orderEntries m).*2)
  end.

End Handlers.

(** ** [poolsAsset] *)

(** [outcome] as a monad: a panic ends the computation. *)
#[export] Instance outcome_ret : MRet outcome := λ A a, Returns a.
#[export] Instance outcome_bind : MBind outcome := λ A B f x, bindOutcome x f.

(** [z.Mul(x, y)], [z.Add(x, y)] and [z.Quo(x, y)] of [big.Rat], whose
    values are kept in lowest terms; a zero divisor panics. *)
Definition ratMul (x y : Q) : Q := Qred (x * y).
Definition ratAdd (x y : Q) : Q := Qred (x + y).
Definition ratQuo (x y : Q) : outcome Q :=
  if Qnum y =? 0 then Panics "division by zero" else Returns (Qred (x / y)).

(** [p != nil] *)
Definition notNil {A : Type} (p : option A) : bool :=
  match p with Some _ => true | None => false end.

(** [z.Add(x, y)] with operands that may be nil pointers: reading
    through a nil [*big.Rat] panics. *)
Definition ratAddPtr (x y : option Q) : outcome Q :=
  match x, y with
  | Some a, Some b => Returns (ratAdd a b)
  | _, _ => Panics "invalid memory address or nil pointer dereference"
  end.

(** [stat.Window] and the fields of the lookups of package [stat] that
    [poolsAsset] reads. *)
Record Window : Type := { Since : Time; Until : Time }.

Record PoolStakes : Type := {
  Stakes_TxCount : Z;
  Stakes_AssetE8Total : Z;
  Stakes_RuneE8Total : Z;
  Stakes_StakeUnitsTotal : Z
}.

Record PoolUnstakes : Type := {
  Unstakes_TxCount : Z;
  Unstakes_AssetE8Total : Z;
  Unstakes_RuneE8Total : Z;
  Unstakes_StakeUnitsTotal : Z
}.

Record PoolSwaps : Type := {
  Swaps_TxCount : Z;
  Swaps_AssetE8Total : Z;
  Swaps_LiqFeeE8Total : Z;
  Swaps_TradeSlipBPTotal : Z
}.

Section PoolsAsset.

Variable FormatFloat : float → string.

(** [if n != 0 { m[key] = ratFloatStr(value) }], where computing the
    value may panic. *)
Definition whenCount (n : Z) (key : string) (value : outcome Q) (m : gmap string string)
    : outcome (gmap string string) :=
  if negb (n =? 0) then
    r ← value; mret (<[key := ratFloatStr FormatFloat r]> m)
  else mret m.

(** What [poolsAsset] computes from the depths and the lookups it
    made. *)
Definition poolsAssetBody (asset : string) (height assetDepth runeDepth : Z)
    (status : string) (stakeAddrs : list string)
    (stakes : PoolStakes) (unstakes : PoolUnstakes) (swapsFromRune swapsToRune : PoolSwaps)
    : outcome (gmap string string) :=
  let swapCount := wrap64 (Swaps_TxCount swapsFromRune + Swaps_TxCount swapsToRune) in
  let m : gmap string string := list_to_map [
    ("height", intStr height);
    ("asset", asset);
    ("assetDepth", intStr assetDepth);
    ("assetStakedTotal", intStr (Stakes_AssetE8Total stakes));
    ("buyAssetCount", intStr (Swaps_TxCount swapsFromRune));
    ("buyFeesTotal", intStr (Swaps_LiqFeeE8Total swapsFromRune));
    ("poolDepth", intStr (wrap64 (2 * runeDepth)));
    ("poolFeesTotal",
       intStr (wrap64 (Swaps_LiqFeeE8Total swapsFromRune + Swaps_LiqFeeE8Total swapsToRune)));
    ("poolUnits",
       intStr (wrap64 (Stakes_StakeUnitsTotal stakes - Unstakes_StakeUnitsTotal unstakes)));
    ("runeDepth", intStr runeDepth);
    ("runeStakedTotal", intStr (wrap64 (Stakes_RuneE8Total stakes - Unstakes_RuneE8Total unstakes)));
    ("sellAssetCount", intStr (Swaps_TxCount swapsToRune));
    ("sellFeesTotal", intStr (Swaps_LiqFeeE8Total swapsToRune));
    ("stakeTxCount", intStr (Stakes_TxCount stakes));
    ("stakersCount", pretty (length stakeAddrs));
    ("stakingTxCount", intStr (wrap64 (Stakes_TxCount stakes + Unstakes_TxCount unstakes)));
    ("status", status);
    ("swappingTxCount", intStr swapCount);
    ("withdrawTxCount", intStr (Unstakes_TxCount unstakes))
  ] in
  m ← (if negb (assetDepth =? 0) then
         priceInRune ← NewRat runeDepth assetDepth;
         let m := <["price" := ratFloatStr FormatFloat priceInRune]> m in
         poolStakedTotal ← NewRat (wrap64 (Stakes_AssetE8Total stakes - Unstakes_AssetE8Total unstakes)) 1;
         let poolStakedTotal := ratMul poolStakedTotal priceInRune in
         runeStaked ← NewRat (wrap64 (Stakes_RuneE8Total stakes - Unstakes_RuneE8Total unstakes)) 1;
         let poolStakedTotal := ratAdd poolStakedTotal runeStaked in
         let m := <["poolStakedTotal" := ratIntStr poolStakedTotal]> m in
         buyVolume ← NewRat (Swaps_AssetE8Total swapsFromRune) 1;
         let buyVolume := ratMul buyVolume priceInRune in
         let m := <["buyVolume" := ratIntStr buyVolume]> m in
         sellVolume ← NewRat (Swaps_AssetE8Total swapsToRune) 1;
         let sellVolume := ratMul sellVolume priceInRune in
         let m := <["sellVolume" := ratIntStr sellVolume]> m in
         poolVolume ← NewRat (wrap64 (Swaps_AssetE8Total swapsFromRune + Swaps_AssetE8Total swapsToRune)) 1;
         let poolVolume := ratMul poolVolume priceInRune in
         let m := <["poolVolume" := ratIntStr poolVolume]> m in
         m ← whenCount (Swaps_TxCount swapsFromRune) "buyTxAverage"
               (r ← NewRat (Swaps_TxCount swapsFromRune) 1; ratQuo buyVolume r) m;
         m ← whenCount (Swaps_TxCount swapsToRune) "sellTxAverage"
               (r ← NewRat (Swaps_TxCount swapsToRune) 1; ratQuo sellVolume r) m;
         whenCount swapCount "poolTxAverage"
           (r ← NewRat swapCount 1; ratQuo poolVolume r) m
       else mret m);
  let assetStaked := wrap64 (Stakes_AssetE8Total stakes - Unstakes_AssetE8Total unstakes) in
  '(assetROI, m) ← (if negb (assetStaked =? 0) then
                      roi ← NewRat (wrap64 (assetDepth - assetStaked)) assetStaked;
                      mret (Some roi, <["assetROI" := ratFloatStr FormatFloat roi]> m)
                    else mret (None, m));
  let runeStaked := wrap64 (Stakes_RuneE8Total stakes - Unstakes_RuneE8Total unstakes) in
  '(runeROI, m) ← (if negb (runeStaked =? 0) then
                     roi ← NewRat (wrap64 (runeDepth - runeStaked)) runeStaked;
                     mret (Some roi, <["runeROI" := ratFloatStr FormatFloat roi]> m)
                   else mret (None, m));
  m ← (if notNil assetROI || notNil runeROI then
         avg ← ratAddPtr assetROI runeROI;
         half ← NewRat 1 2;
         mret (<["poolROI" := ratFloatStr FormatFloat (ratMul avg half)]> m)
       else mret m);
  m ← whenCount (Swaps_TxCount swapsFromRune) "buyFeeAverage"
        (NewRat (Swaps_LiqFeeE8Total swapsFromRune) (Swaps_TxCount swapsFromRune)) m;
  m ← whenCount (Swaps_TxCount swapsToRune) "sellFeeAverage"
        (NewRat (Swaps_LiqFeeE8Total swapsToRune) (Swaps_TxCount swapsToRune)) m;
  m ← whenCount swapCount "poolFeeAverage"
        (NewRat (wrap64 (Swaps_LiqFeeE8Total swapsFromRune + Swaps_LiqFeeE8Total swapsToRune))
           swapCount) m;
  m ← whenCount (Swaps_TxCount swapsFromRune) "buySlipAverage"
        (r ← NewRat (Swaps_TradeSlipBPTotal swapsFromRune) (Swaps_TxCount swapsFromRune);
         basis ← NewRat 10000 1; ratQuo r basis) m;
  m ← whenCount (Swaps_TxCount swapsToRune) "sellSlipAverage"
        (r ← NewRat (Swaps_TradeSlipBPTotal swapsToRune) (Swaps_TxCount swapsToRune);
         basis ← NewRat 10000 1; ratQuo r basis) m;
  whenCount swapCount "poolSlipAverage"
    (r ← NewRat (wrap64 (Swaps_TradeSlipBPTotal swapsFromRune + Swaps_TradeSlipBPTotal swapsToRune))
           swapCount;
     basis ← NewRat 10000 1; ratQuo r basis) m.

Context {DB linkedEvents : Type}.
Variable DBQuery : string → list arg → DB → DB * result sqlRows.

(** The four lookups of package [stat], which is not among the sources
    at hand. *)
Variable PoolStakesLookup : string → Window → DB → DB * result PoolStakes.
Variable PoolUnstakesLookup : string → Window → DB → DB * result PoolUnstakes.
Variable PoolSwapsFromRuneLookup : string → Window → DB → DB * result PoolSwaps.
Variable PoolSwapsToRuneLookup : string → Window → DB → DB * result PoolSwaps.

(** [poolsAsset]: the six lookups, the first error of which is
    returned, and the computation on what they gave. *)
Definition poolsAsset (asset : string) (height : Z)
    (assetE8DepthPerPool runeE8DepthPerPool : gmap string Z) (window : Window)
    (st : @Timeseries.pkgState DB linkedEvents)
    : @Timeseries.pkgState DB linkedEvents * outcome (result (gmap string string)) :=
  match Timeseries.PoolStatus DBQuery asset (Until window) st with
  | (st, Panics why) => (st, Panics why)
  | (st, Returns (_, Some err)) => (st, Returns (Err err))
  | (st, Returns (status, None)) =>
    match Timeseries.StakeAddrs DBQuery (Until window) st with
    | (st, Panics why) => (st, Panics why)
    | (st, Returns (_, Some err)) => (st, Returns (Err err))
    | (st, Returns (stakeAddrs, None)) =>
      match PoolStakesLookup asset window (Timeseries.db st) with
      | (d, Err err) => (Timeseries.setDB st d, Returns (Err err))
      | (d, Ok stakes) =>
        match PoolUnstakesLookup asset window d with
        | (d, Err err) => (Timeseries.setDB st d, Returns (Err err))
        | (d, Ok unstakes) =>
          match PoolSwapsFromRuneLookup asset window d with
          | (d, Err err) => (Timeseries.setDB st d, Returns (Err err))
          | (d, Ok swapsFromRune) =>
            match PoolSwapsToRuneLookup asset window d with
            | (d, Err err) => (Timeseries.setDB st d, Returns (Err err))
            | (d, Ok swapsToRune) =>
              let assetDepth := default 0 (assetE8DepthPerPool !! asset) in
              let runeDepth := default 0 (runeE8DepthPerPool !! asset) in
              (Timeseries.setDB st d,
               m ← poolsAssetBody asset height assetDepth runeDepth status stakeAddrs
                     stakes unstakes swapsFromRune swapsToRune;
               mret (Ok m))
            end
          end
        end
      end
    end
  end.

End PoolsAsset.

End Api.

(* ===================================================================== *)
(** * Package timescale: the pool cache *)
(* ===================================================================== *)

Module Timescale.

Record poolCache : Type := {
  assetDepth : Z;
  runeDepth : Z
}.

(** [updatePoolCache] adds the changes to the depths the cache holds
    for the pool, from zero for a pool it does not hold yet, and
    returns the depths it then holds. The cache is the map
    [initPoolCache] made. *)
Definition updatePoolCache (pools : gmap string poolCache) (pool : string)
    (assetChanges runeChanges : Z) : gmap string poolCache * (Z * Z) :=
  let p := default {| assetDepth := 0; runeDepth := 0 |} (pools !! pool) in
  let p := {| assetDepth := wrap64 (assetDepth p + assetChanges);
              runeDepth := wrap64 (runeDepth p + runeChanges) |} in
  (<[pool := p]> pools, (assetDepth p, runeDepth p)).

End Timescale.

(* ===================================================================== *)
(** * The gob value encoding of an aggTrack *)
(* ===================================================================== *)

(** [encoding/gob] is a library outside the repository; the package
    code takes its codec as a parameter. This module writes down, from
    the documentation of the wire format, the encoding of the value of
    an [aggTrack]: unsigned integers (one byte below 128, else the
    negated byte count and the big-endian bytes), signed integers
    (folded onto unsigned ones, bit 0 telling the complement), strings,
    maps (count and entries) and struct fields (field deltas, closed by
    0). The type descriptors that precede the value in a stream do not
    depend on the value and are left out. Bytes are the integers
    0..255. *)
Module Gob.

Import Timeseries.

(** The [k] low bytes of [n], most significant first. *)
Fixpoint bigEndian (k : nat) (n : Z) : list Z :=
  match k with
  | O => []
  | S k => bigEndian k (n / 256) ++ [n mod 256]
  end.

Fixpoint fromBigEndian (bytes : list Z) (acc : Z) : Z :=
  match bytes with
  | [] => acc
  | b :: rest => fromBigEndian rest (acc * 256 + b)
  end.

(** The least number of bytes that hold [n > 0]. *)
Definition byteLen (n : Z) : nat := Z.to_nat (Z.log2 n / 8 + 1).

Definition encodeUint (n : Z) : list Z :=
  if n <=? 127 then [n]
  else let k := byteLen n in (256 - Z.of_nat k) :: bigEndian k n.

Definition decodeUint (bytes : list Z) : option (Z * list Z) :=
  match bytes with
  | [] => None
  | b :: rest =>
    if b <=? 127 then Some (b, rest)
    else
      let k := Z.to_nat (256 - b) in
      if (k <=? 8)%nat && (k <=? length rest)%nat
      then Some (fromBigEndian (take k rest) 0, drop k rest)
      else None
  end.

Definition encodeInt (i : Z) : list Z :=
  encodeUint (if i <? 0 then Z.lor (Z.shiftl (Z.lnot i) 1) 1 else Z.shiftl i 1).

Definition decodeInt (bytes : list Z) : option (Z * list Z) :=
  '(u, rest) ← decodeUint bytes;
  Some (if Z.odd u then Z.lnot (Z.shiftr u 1) else Z.shiftr u 1, rest).

Definition stringBytes (s : string) : list Z :=
  (λ a, Z.of_N (Ascii.N_of_ascii a)) <$> String.list_ascii_of_string s.

Definition bytesString (bytes : list Z) : string :=
  String.string_of_list_ascii ((λ b, Ascii.ascii_of_N (Z.to_N b)) <$> bytes).

Definition encodeString (s : string) : list Z :=
  encodeUint (Z.of_nat (length (stringBytes s))) ++ stringBytes s.

Definition decodeString (bytes : list Z) : option (string * list Z) :=
  '(n, rest) ← decodeUint bytes;
  let k := Z.to_nat n in
  if (k <=? length rest)%nat then Some (bytesString (take k rest), drop k rest) else None.

Definition encodeEntry (kv : string * Z) : list Z := encodeString kv.1 ++ encodeInt kv.2.

(** A map: the number of entries, then the entries in the order the
    encoder ranges over the map. *)
Definition encodeMap (entries : list (string * Z)) : list Z :=
  encodeUint (Z.of_nat (length entries)) ++ concat (encodeEntry <$> entries).

Fixpoint decodeEntries (count : nat) (bytes : list Z) (m : gmap string Z)
    : option (gmap string Z * list Z) :=
  match count with
  | O => Some (m, bytes)
  | S count =>
    '(k, bytes) ← decodeString bytes;
    '(v, bytes) ← decodeInt bytes;
    decodeEntries count bytes (<[k := v]> m)
  end.

Definition decodeMap (bytes : list Z) : option (gmap string Z * list Z) :=
  '(n, rest) ← decodeUint bytes;
  decodeEntries (Z.to_nat n) rest ∅.

(** The struct: field 0 is [AssetE8DepthPerPool], field 1 is
    [RuneE8DepthPerPool]; each is announced by its distance to the field
    before it, counting from -1. *)
Definition encodeFields (assetEntries runeEntries : list (string * Z)) : list Z :=
  [1] ++ encodeMap assetEntries ++ [1] ++ encodeMap runeEntries ++ [0].

Definition errGob : error := errorString "gob: malformed aggregation state".

(** Reads fields until the closing 0; a field left out keeps its zero
    value. *)
Fixpoint decodeFields (fuel : nat) (field : Z) (bytes : list Z) (a : aggTrack) : result aggTrack :=
  match fuel with
  | O => Err errGob
  | S fuel =>
    match decodeUint bytes with
    | None => Err errGob
    | Some (delta, rest) =>
      if delta =? 0 then Ok a
      else
        let field := field + delta in
        match decodeMap rest with
        | None => Err errGob
        | Some (m, rest) =>
          if field =? 0 then
            decodeFields fuel field rest
              {| AssetE8DepthPerPool := m; RuneE8DepthPerPool := RuneE8DepthPerPool a |}
          else if field =? 1 then
            decodeFields fuel field rest
              {| AssetE8DepthPerPool := AssetE8DepthPerPool a; RuneE8DepthPerPool := m |}
          else Err errGob
        end
    end
  end.

(** The codec in the shape the package takes it. Go leaves open the
    order in which the encoder ranges over a map: [order] lists the
    entries of a map as the encoder meets them. *)
Definition Encode (order : gmap string Z → list (string * Z)) (a : aggTrack)
    : list Z * option error :=
  (encodeFields (order (AssetE8DepthPerPool a)) (order (RuneE8DepthPerPool a)), None).

Definition Decode (bytes : list Z) : result aggTrack :=
  decodeFields 3 (-1) bytes {| AssetE8DepthPerPool := ∅; RuneE8DepthPerPool := ∅ |}.

End Gob.

(* ===================================================================== *)
(** * Stand-ins for the node and the database *)
(* ===================================================================== *)

(** Small executable worlds to run the packages against. *)
Module Fake.

Import Tendermint Chain.

(** A Tendermint node: the heights it holds, what [BlockchainInfo]
    answers for a range, the height [BlockResults] reports for a
    requested one, and the requests waiting in the batch. *)
Record node : Type := {
  earliest : Z;
  latest : Z;
  info : Z → Z → list Z;
  echo : Z → Z;
  pending : list Z
}.

(** What a node that holds the blocks [earliest..latest] answers: the
    heights of the range it was asked for, as far as it holds them,
    highest first. *)
Definition heldRange (earliest latest minHeight maxHeight : Z) : list Z :=
  let lo := Z.max minHeight earliest in
  let hi := Z.min maxHeight latest in
  reverse (seqZ lo (hi - lo + 1)).

Definition metaAt (h : Z) : BlockMeta :=
  {| BlockID_Hash := [h]; Header_Height := h; Header_Time := Unix h 0 |}.

Definition client : Client node := {|
  statusClient_Status w :=
    (w, Ok {| EarliestBlockHeight := earliest w; LatestBlockHeight := latest w |});
  historyClient_BlockchainInfo minHeight maxHeight w :=
    (w, Ok (metaAt <$> info w minHeight maxHeight));
  signClient_BlockResults h w :=
    ({| earliest := earliest w; latest := latest w; info := info w; echo := echo w;
        pending := pending w ++ [h] |}, None);
  signClientTrigger w :=
    ({| earliest := earliest w; latest := latest w; info := info w; echo := echo w;
        pending := [] |},
     Ok ((λ h, {| Height := echo w h; TxsResults := [] |}) <$> pending w))
|}.

(** Nobody asks the follower to quit. *)
Definition neverQuit (w : node) : node * bool := (w, false).

(** The follower is asked to quit at once. *)
Definition quitNow (w : node) : node * bool := (w, true).

(** A well-behaved node that holds the blocks 2 and 3 only: block 1 is
    pruned. *)
Definition prunedNode : node :=
  {| earliest := 2; latest := 3; info := heldRange 2 3; echo := id; pending := [] |}.

(** A node whose [BlockchainInfo] answers in ascending order. *)
Definition ascendingNode : node :=
  {| earliest := 1; latest := 9; info := λ _ _, [5; 7]; echo := id; pending := [] |}.

(** A node whose [BlockResults] answers for the height after the one
    asked for. *)
Definition shiftedNode : node :=
  {| earliest := 1; latest := 2; info := heldRange 1 2; echo := Z.succ; pending := [] |}.

(** A database that holds the tables [block_log], keyed by height, and
    [set_node_keys_events]. *)
Record database : Type := {
  block_log : list (Z * Z * list Z * list Z);
  set_node_keys_events : list (string * string * string)
}.

Definition selectLastBlock : string :=
  "SELECT height, timestamp, hash, agg_state FROM block_log ORDER BY height DESC LIMIT 1".

(** The row of the greatest height. *)
Fixpoint lastBlock (rows : list (Z * Z * list Z * list Z)) (best : option (Z * Z * list Z * list Z))
    : option (Z * Z * list Z * list Z) :=
  match rows with
  | [] => best
  | row :: rest =>
    match best with
    | Some b => if b.1.1.1 <? row.1.1.1 then lastBlock rest (Some row) else lastBlock rest best
    | None => lastBlock rest (Some row)
    end
  end.

(** [INSERT INTO block_log ... ON CONFLICT DO NOTHING] adds the row
    unless the height is taken; any other statement is taken to affect
    one row per group of four arguments. *)
Definition DBExec (q : string) (args : list arg) (d : database) : database * result sqlResult :=
  if String.eqb q Timeseries.insertBlockLog then
    match args with
    | [AInt h; AInt ts; ABytes hash; ABytes aggSerial] =>
      if existsb (λ row, row.1.1.1 =? h) (block_log d)
      then (d, Ok {| RowsAffected := Ok 0 |})
      else ({| block_log := block_log d ++ [(h, ts, hash, aggSerial)];
               set_node_keys_events := set_node_keys_events d |},
            Ok {| RowsAffected := Ok 1 |})
    | _ => (d, Err (errorString "pq: bad arguments"))
    end
  else (d, Ok {| RowsAffected := Ok (Z.of_nat (length args / 4)) |}).

Definition DBQuery (q : string) (args : list arg) (d : database) : database * result sqlRows :=
  if String.eqb q selectLastBlock then
    (d, Ok {| rows_data :=
                match lastBlock (block_log d) None with
                | Some (h, ts, hash, aggSerial) => [[AInt h; AInt ts; ABytes hash; ABytes aggSerial]]
                | None => []
                end;
              rows_Err := None |})
  else if String.eqb q Timeseries.queryNodeKeys then
    (d, Ok {| rows_data := (λ t, [AStr t.1.1; AStr t.1.2; AStr t.2]) <$> set_node_keys_events d;
              rows_Err := None |})
  else (d, Ok {| rows_data := []; rows_Err := None |}).

(** No linked events are kept: the reconciliations change nothing. *)
Definition ApplyQ (l : unit) (t : Timeseries.runningTotals) (height : Z) (timestamp : Time)
    : unit * Timeseries.runningTotals := (l, t).

(** A process that committed block 7 and holds one pool. *)
Definition running : @Timeseries.pkgState database unit := {|
  Timeseries.totals :=
    {| Timeseries.assetE8DepthPerPool := {["BNB.BNB" := 100]};
       Timeseries.runeE8DepthPerPool := {["BNB.BNB" := 1000]} |};
  Timeseries.linked := tt;
  Timeseries.lastBlockTrack :=
    Some {| Timeseries.Height := 7; Timeseries.Timestamp := Unix 1600000000 0;
            Timeseries.Hash := [7];
            Timeseries.agg := {| Timeseries.AssetE8DepthPerPool := {["BNB.BNB" := 100]};
                                 Timeseries.RuneE8DepthPerPool := {["BNB.BNB" := 1000]} |} |};
  Timeseries.db :=
    {| block_log :=
         [(7, 1600000000000000000, [7],
           (Gob.Encode map_to_list
                       {| Timeseries.AssetE8DepthPerPool := {["BNB.BNB" := 100]};
                          Timeseries.RuneE8DepthPerPool := {["BNB.BNB" := 1000]} |}).1)];
       set_node_keys_events :=
         [("thor1a", "secpA", "edA"); ("thor1b", "secpB", "edB"); ("thor1c", "secpA", "edC")] |};
  Timeseries.logged := [];
  Timeseries.issued := []
|}.

(** The same database after a restart: nothing in memory yet. *)
Definition restarted : @Timeseries.pkgState database unit := {|
  Timeseries.totals := {| Timeseries.assetE8DepthPerPool := ∅; Timeseries.runeE8DepthPerPool := ∅ |};
  Timeseries.linked := tt;
  Timeseries.lastBlockTrack := None;
  Timeseries.db := Timeseries.db running;
  Timeseries.logged := [];
  Timeseries.issued := []
|}.

(** Event records that keep the attributes loaded; loading fails on an
    event without attributes. *)
Definition record : Type := list (list Z * list Z).

Definition load (r : record) (attrs : list (list Z * list Z)) : record * option error :=
  match attrs with
  | [] => (r, Some (errorString "missing attributes"))
  | _ => (attrs, None)
  end.

(** A listener that keeps the names of the callbacks it received. *)
#[export] Instance callNames :
  @Event.Listener record record record record record record record record record record
    (list string) := {|
  Event.OnAdd _ _ l := l ++ ["add"];
  Event.OnFee _ _ l := l ++ ["fee"];
  Event.OnMessage _ _ l := l ++ ["message"];
  Event.OnOutbound _ _ l := l ++ ["outbound"];
  Event.OnPool _ _ l := l ++ ["pool"];
  Event.OnRefund _ _ l := l ++ ["refund"];
  Event.OnReserve _ _ l := l ++ ["reserve"];
  Event.OnStake _ _ l := l ++ ["stake"];
  Event.OnSwap _ _ l := l ++ ["swap"];
  Event.OnUnstake _ _ l := l ++ ["unstake"]
|}.

Definition demux :
  @Event.Demux record record record record record record record record record record
    (list string) :=
  {| Event.listener := []; Event.reuse_Add := []; Event.reuse_Fee := []; Event.reuse_Message := [];
     Event.reuse_Outbound := []; Event.reuse_Pool := []; Event.reuse_Refund := [];
     Event.reuse_Reserve := []; Event.reuse_Stake := []; Event.reuse_Swap := [];
     Event.reuse_Unstake := [] |}.

(** A block of two transactions: a stake, an event of a type unknown to
    the demultiplexer and a swap; then a fee without attributes and a
    pool event. *)
Definition block : ResultBlockResults := {|
  Height := 5;
  TxsResults := [
    {| Events := [ {| Type_ := "stake"; Attributes := [([112], [1])] |};
                   {| Type_ := "rewards"; Attributes := [([114], [2])] |};
                   {| Type_ := "swap"; Attributes := [([115], [3])] |} ] |};
    {| Events := [ {| Type_ := "fee"; Attributes := [] |};
                   {| Type_ := "pool"; Attributes := [([116], [4])] |} ] |} ]
|}.

(** A database that cannot be reached. *)
Definition downExec (q : string) (args : list arg) (d : database) : database * result sqlResult :=
  (d, Err (errorString "connection refused")).

Definition downQuery (q : string) (args : list arg) (d : database) : database * result sqlRows :=
  (d, Err (errorString "connection refused")).

(** A process on a database without rows. *)
Definition fresh : @Timeseries.pkgState database unit := {|
  Timeseries.totals := {| Timeseries.assetE8DepthPerPool := ∅; Timeseries.runeE8DepthPerPool := ∅ |};
  Timeseries.linked := tt;
  Timeseries.lastBlockTrack := None;
  Timeseries.db := {| block_log := []; set_node_keys_events := [] |};
  Timeseries.logged := [];
  Timeseries.issued := []
|}.

(** The event tables of a chain with three nodes, two status updates
    for one of them, a mimir value set twice, two pools and a staker. *)
Definition eventTables (q : string) (args : list arg) (d : unit) : unit * result sqlRows :=
  if String.eqb q "SELECT name, value FROM set_mimir_event_entries WHERE block_timestamp <= $1" then
    (d, Ok {| rows_data := [[AStr "churn"; AStr "10"]; [AStr "emission"; AStr "3"];
                            [AStr "churn"; AStr "20"]];
              rows_Err := None |})
  else if String.eqb q "SELECT node_addr FROM new_node_events WHERE block_timestamp <= $1" then
    (d, Ok {| rows_data := [[AStr "thor1a"]; [AStr "thor1b"]]; rows_Err := None |})
  else if String.eqb q "SELECT node_addr, current FROM update_node_account_status_events WHERE block_timestamp <= $1" then
    (d, Ok {| rows_data := [[AStr "thor1a"; AStr "standby"]; [AStr "thor1c"; AStr "active"];
                            [AStr "thor1a"; AStr "active"]];
              rows_Err := None |})
  else if String.eqb q "SELECT pool FROM stake_events WHERE block_timestamp <= $1 GROUP BY pool" then
    (d, Ok {| rows_data := [[AStr "BNB.BNB"]; [AStr "BTC.BTC"]]; rows_Err := None |})
  else if String.eqb q "SELECT rune_addr FROM stake_events WHERE block_timestamp <= $1 GROUP BY rune_addr" then
    (d, Ok {| rows_data := [[AStr "thor1x"]]; rows_Err := None |})
  else (d, Ok {| rows_data := []; rows_Err := None |}).

(** A process over the event tables that committed block 7. *)
Definition indexed : @Timeseries.pkgState unit unit := {|
  Timeseries.totals := {| Timeseries.assetE8DepthPerPool := ∅; Timeseries.runeE8DepthPerPool := ∅ |};
  Timeseries.linked := tt;
  Timeseries.lastBlockTrack :=
    Some {| Timeseries.Height := 7; Timeseries.Timestamp := Unix 1600000000 0;
            Timeseries.Hash := [7];
            Timeseries.agg := {| Timeseries.AssetE8DepthPerPool := ∅;
                                 Timeseries.RuneE8DepthPerPool := ∅ |} |};
  Timeseries.db := tt;
  Timeseries.logged := [];
  Timeseries.issued := []
|}.

(** Stand-ins for the hooks of the handlers: a printer of floats that
    tells zero from the rest, a parser that knows three numerals, the
    node accounts of a small network and the totals of one pool. *)
Definition formatFloat (f : float) : string :=
  if PrimFloat.eqb f 0%float then "0" else "x".

Definition parseInt (s : string) : result Z :=
  if String.eqb s "5" then Ok 5
  else if String.eqb s "-1" then Ok (-1)
  else if String.eqb s "9" then Ok 9
  else Err (errorString "strconv.ParseInt: parsing: invalid syntax").

Definition nodeAccounts : list Api.NodeAccount :=
  [ {| Api.NodeAddr := "thor1a"; Api.Status := "active"; Api.Bond := 300 |};
    {| Api.NodeAddr := "thor1b"; Api.Status := "standby"; Api.Bond := 50 |};
    {| Api.NodeAddr := "thor1c"; Api.Status := "active"; Api.Bond := 100 |};
    {| Api.NodeAddr := "thor1d"; Api.Status := "disabled"; Api.Bond := 7 |};
    {| Api.NodeAddr := "thor1a"; Api.Status := "active"; Api.Bond := 200 |} ].

(** A pool that was staked with an asset only. *)
Definition stakesLookup (asset : string) (w : Api.Window) (d : unit) : unit * result Api.PoolStakes :=
  (d, Ok {| Api.Stakes_TxCount := 1; Api.Stakes_AssetE8Total := 500;
            Api.Stakes_RuneE8Total := 0; Api.Stakes_StakeUnitsTotal := 10 |}).

Definition unstakesLookup (asset : string) (w : Api.Window) (d : unit)
    : unit * result Api.PoolUnstakes :=
  (d, Ok {| Api.Unstakes_TxCount := 0; Api.Unstakes_AssetE8Total := 0;
            Api.Unstakes_RuneE8Total := 0; Api.Unstakes_StakeUnitsTotal := 0 |}).

Definition swapsLookup (asset : string) (w : Api.Window) (d : unit) : unit * result Api.PoolSwaps :=
  (d, Ok {| Api.Swaps_TxCount := 2; Api.Swaps_AssetE8Total := 40;
            Api.Swaps_LiqFeeE8Total := 4; Api.Swaps_TradeSlipBPTotal := 30 |}).

Definition request : Api.Request :=
  {| Api.Method := "GET"; Api.URL_Path := "/v1/pools/detail";
     Api.URL_Query := λ key, if String.eqb key "height" then ["5"]
                             else if String.eqb key "asset" then ["BNB.BNB"; "BTC.BTC"]
                             else [] |}.

End Fake.

(* ===================================================================== *)
(** * The gob value encoding decodes to what was encoded *)
(* ===================================================================== *)

Module GobSpec.

Import Timeseries Gob.

Lemma length_bigEndian k : ∀ n, length (bigEndian k n) = k.
Proof.
  induction k as [|k IH]; intros n; [reflexivity|].
  simpl. rewrite length_app, IH. simpl. lia.
Qed.

Lemma fromBigEndian_app bytes b : ∀ acc,
  fromBigEndian (bytes ++ [b]) acc = fromBigEndian bytes acc * 256 + b.
Proof. induction bytes as [|x bytes IH]; intros acc; simpl; [reflexivity | apply IH]. Qed.

Lemma fromBigEndian_bigEndian k : ∀ n acc,
  fromBigEndian (bigEndian k n) acc = acc * 256 ^ Z.of_nat k + n mod 256 ^ Z.of_nat k.
Proof.
  induction k as [|k IH]; intros n acc.
  - simpl. rewrite Z.mod_1_r. lia.
  - cbn [bigEndian]. rewrite fromBigEndian_app, IH.
    rewrite Nat2Z.inj_succ, Z.pow_succ_r by lia.
    rewrite (Z.rem_mul_r n 256 (256 ^ Z.of_nat k)) by lia. lia.
Qed.

Lemma byteLen_bounds n :
  127 < n < 2 ^ 64 → (1 ≤ byteLen n ≤ 8)%nat ∧ n < 256 ^ Z.of_nat (byteLen n).
Proof.
  intros [Hlo Hhi]. unfold byteLen.
  assert (Hpos : 0 < n) by lia.
  destruct (Z.log2_spec n Hpos) as [Hl Hu].
  assert (Hl2 : 0 ≤ Z.log2 n) by apply Z.log2_nonneg.
  assert (Hl64 : Z.log2 n < 64) by (apply Z.log2_lt_pow2; lia).
  assert (Hq : 0 ≤ Z.log2 n / 8 ≤ 7).
  { split; [apply Z.div_pos; lia|].
    assert (Z.log2 n / 8 < 8) by (apply Z.div_lt_upper_bound; lia). lia. }
  split; [lia|].
  rewrite Z2Nat.id by lia.
  change 256 with (2 ^ 8). rewrite <- Z.pow_mul_r by lia.
  eapply Z.lt_le_trans; [exact Hu|].
  apply Z.pow_le_mono_r; [lia|].
  pose proof (Z.mul_succ_div_gt (Z.log2 n) 8). lia.
Qed.

Lemma decodeUint_encodeUint n rest :
  0 ≤ n < 2 ^ 64 → decodeUint (encodeUint n ++ rest) = Some (n, rest).
Proof.
  intros Hn. unfold encodeUint.
  destruct (Z.leb_spec n 127) as [Hsmall|Hbig].
  - simpl. destruct (Z.leb_spec n 127); [reflexivity | lia].
  - destruct (byteLen_bounds n ltac:(lia)) as [Hk Hfit].
    cbn [app decodeUint].
    destruct (Z.leb_spec (256 - Z.of_nat (byteLen n)) 127); [lia|].
    replace (Z.to_nat (256 - (256 - Z.of_nat (byteLen n)))) with (byteLen n) by lia.
    replace (byteLen n <=? 8)%nat with true by (symmetry; apply Nat.leb_le; lia).
    replace (byteLen n <=? length (bigEndian (byteLen n) n ++ rest))%nat with true
      by (symmetry; apply Nat.leb_le; rewrite length_app, length_bigEndian; lia).
    cbn [andb].
    rewrite take_app_length' by (symmetry; apply length_bigEndian).
    rewrite drop_app_length' by (symmetry; apply length_bigEndian).
    rewrite fromBigEndian_bigEndian, Z.mod_small by lia. reflexivity.
Qed.

Lemma lor_double_1 a : Z.lor (Z.shiftl a 1) 1 = 2 * a + 1.
Proof.
  rewrite Z.shiftl_mul_pow2 by lia. change (2 ^ 1) with 2.
  assert (Hland : Z.land (a * 2) 1 = 0).
  { change 1 with (Z.ones 1). rewrite Z.land_ones by lia.
    change (2 ^ 1) with 2. apply Z.mod_mul. lia. }
  rewrite <- (Z.lxor_lor _ _ Hland), <- (Z.add_nocarry_lxor _ _ Hland). lia.
Qed.

Lemma decodeInt_encodeInt i rest :
  is_int64 i → decodeInt (encodeInt i ++ rest) = Some (i, rest).
Proof.
  unfold is_int64, int64_min, int64_max, encodeInt, decodeInt. intros Hi.
  destruct (Z.ltb_spec i 0) as [Hneg|Hpos].
  - rewrite lor_double_1. unfold Z.lnot.
    rewrite decodeUint_encodeUint by lia. simpl.
    replace (2 * Z.pred (- i) + 1) with (1 + 2 * Z.pred (- i)) by lia.
    rewrite Z.odd_add_mul_2. simpl.
    rewrite Z.shiftr_div_pow2 by lia. change (2 ^ 1) with 2.
    rewrite Z.add_comm, Z.mul_comm, Z.div_add_l by lia.
    change (1 / 2) with 0. f_equal. f_equal. lia.
  - rewrite Z.shiftl_mul_pow2 by lia. change (2 ^ 1) with 2.
    rewrite decodeUint_encodeUint by lia. simpl.
    replace (i * 2) with (0 + 2 * i) by lia.
    rewrite Z.odd_add_mul_2. simpl.
    rewrite Z.shiftr_div_pow2 by lia. change (2 ^ 1) with 2.
    rewrite Z.add_0_l, Z.mul_comm, Z.div_mul by lia. reflexivity.
Qed.

Lemma length_stringBytes s : length (stringBytes s) = String.length s.
Proof.
  unfold stringBytes. rewrite length_fmap.
  induction s as [|a s IH]; simpl; [reflexivity | rewrite IH; reflexivity].
Qed.

Lemma bytesString_stringBytes s : bytesString (stringBytes s) = s.
Proof.
  unfold bytesString, stringBytes.
  induction s as [|a s IH]; [reflexivity|].
  cbn. cbn in IH. rewrite IH, N2Z.id, Ascii.ascii_N_embedding. reflexivity.
Qed.

Lemma decodeString_encodeString s rest :
  Z.of_nat (String.length s) < 2 ^ 64 →
  decodeString (encodeString s ++ rest) = Some (s, rest).
Proof.
  intros Hlen. unfold decodeString, encodeString.
  rewrite <- app_assoc, decodeUint_encodeUint by (rewrite length_stringBytes; lia).
  simpl. rewrite Nat2Z.id.
  replace (length (stringBytes s) <=? length (stringBytes s ++ rest))%nat with true
    by (symmetry; apply Nat.leb_le; rewrite length_app; lia).
  rewrite take_app_length, drop_app_length, bytesString_stringBytes. reflexivity.
Qed.

(** What gob can send of a map: int64 values under keys and in numbers
    whose lengths fit an unsigned 64-bit count. *)
Definition sendable (entries : list (string * Z)) : Prop :=
  Z.of_nat (length entries) < 2 ^ 64 ∧
  Forall (λ kv, Z.of_nat (String.length kv.1) < 2 ^ 64 ∧ is_int64 kv.2) entries.

(** The map a decoder builds from entries read in order. *)
Definition inserted (entries : list (string * Z)) (m : gmap string Z) : gmap string Z :=
  fold_left (λ m kv, <[kv.1 := kv.2]> m) entries m.

Lemma decodeEntries_encode entries rest :
  Forall (λ kv, Z.of_nat (String.length kv.1) < 2 ^ 64 ∧ is_int64 kv.2) entries →
  ∀ m, decodeEntries (length entries) (concat (encodeEntry <$> entries) ++ rest) m =
       Some (inserted entries m, rest).
Proof.
  induction 1 as [|[k v] entries [Hk Hv] _ IH]; intros m; [reflexivity|].
  cbn [length fmap list_fmap concat decodeEntries]. unfold encodeEntry at 1. cbn [fst snd].
  rewrite <- !app_assoc, decodeString_encodeString by exact Hk. simpl.
  rewrite decodeInt_encodeInt by exact Hv. simpl. apply IH.
Qed.

Lemma decodeMap_encodeMap entries rest :
  sendable entries → decodeMap (encodeMap entries ++ rest) = Some (inserted entries ∅, rest).
Proof.
  intros [Hlen Hall]. unfold decodeMap, encodeMap.
  rewrite <- app_assoc, decodeUint_encodeUint by lia. simpl.
  rewrite Nat2Z.id. apply decodeEntries_encode. exact Hall.
Qed.

(** Entries with distinct keys, read in any order, build the map of the
    entries. *)
Lemma inserted_list_to_map entries :
  ∀ m, NoDup entries.*1 → (∀ k, k ∈ entries.*1 → m !! k = None) →
       inserted entries m = list_to_map entries ∪ m.
Proof.
  induction entries as [|[k v] entries IH]; intros m Hnd Hfree.
  - simpl. rewrite (left_id_L ∅ (∪)). reflexivity.
  - apply NoDup_cons in Hnd. destruct Hnd as [Hk Hnd].
    cbn [inserted fold_left fst snd]. fold (inserted entries (<[k := v]> m)).
    rewrite IH.
    + cbn [list_to_map foldr fst snd]. fold (list_to_map entries : gmap string Z).
      rewrite <- insert_union_l. symmetry. apply insert_union_r.
      apply not_elem_of_list_to_map_1. exact Hk.
    + exact Hnd.
    + intros k' Hk'. rewrite lookup_insert_ne.
      * apply Hfree. right. exact Hk'.
      * intros ->. exact (Hk Hk').
Qed.

Lemma inserted_permutation entries (m : gmap string Z) :
  entries ≡ₚ map_to_list m → inserted entries ∅ = m.
Proof.
  intros Hperm.
  assert (Hnd : NoDup entries.*1).
  { rewrite Hperm. apply NoDup_fst_map_to_list. }
  rewrite inserted_list_to_map; [|exact Hnd|intros; apply lookup_empty].
  rewrite (right_id_L ∅ (∪)).
  rewrite (list_to_map_proper entries (map_to_list m) Hnd Hperm).
  apply list_to_map_to_list.
Qed.

Lemma decodeFields_field fuel field entries rest a :
  sendable entries →
  decodeFields (S fuel) field (1 :: encodeMap entries ++ rest) a =
  if field + 1 =? 0 then
    decodeFields fuel (field + 1) rest
      {| AssetE8DepthPerPool := inserted entries ∅; RuneE8DepthPerPool := RuneE8DepthPerPool a |}
  else if field + 1 =? 1 then
    decodeFields fuel (field + 1) rest
      {| AssetE8DepthPerPool := AssetE8DepthPerPool a; RuneE8DepthPerPool := inserted entries ∅ |}
  else Err errGob.
Proof.
  intros Hs. cbn [decodeFields decodeUint]. change (1 <=? 127) with true. cbn iota.
  change (1 =? 0) with false. cbn iota.
  rewrite decodeMap_encodeMap by exact Hs. reflexivity.
Qed.

(** The round trip of the value encoding, whatever the order in which
    the encoder ranged over the two maps. *)
Lemma decodeFields_encodeFields (a : aggTrack) assetEntries runeEntries :
  assetEntries ≡ₚ map_to_list (AssetE8DepthPerPool a) →
  runeEntries ≡ₚ map_to_list (RuneE8DepthPerPool a) →
  sendable assetEntries → sendable runeEntries →
  decodeFields 3 (-1) (encodeFields assetEntries runeEntries)
    {| AssetE8DepthPerPool := ∅; RuneE8DepthPerPool := ∅ |} = Ok a.
Proof.
  intros Hpa Hpr Hsa Hsr. unfold encodeFields.
  change ([1] ++ encodeMap assetEntries ++ [1] ++ encodeMap runeEntries ++ [0])
    with (1 :: encodeMap assetEntries ++ 1 :: encodeMap runeEntries ++ [0]).
  rewrite decodeFields_field by exact Hsa.
  change (-1 + 1) with 0. change (0 =? 0) with true. cbn iota.
  rewrite decodeFields_field by exact Hsr.
  change (0 + 1) with 1. change (1 =? 0) with false. change (1 =? 1) with true. cbn iota.
  cbn [AssetE8DepthPerPool RuneE8DepthPerPool].
  rewrite (inserted_permutation _ _ Hpa), (inserted_permutation _ _ Hpr).
  destruct a. reflexivity.
Qed.

(** An aggregate state the recorder can hold: int64 depths, and keys
    and pool counts that fit the counts of the encoding. *)
Definition recordable (a : aggTrack) : Prop :=
  sendable (map_to_list (AssetE8DepthPerPool a)) ∧ sendable (map_to_list (RuneE8DepthPerPool a)).

Lemma sendable_permutation entries entries' :
  entries ≡ₚ entries' → sendable entries' → sendable entries.
Proof.
  intros Hperm [Hlen Hall]. split.
  - rewrite (Permutation_length Hperm). exact Hlen.
  - rewrite Hperm. exact Hall.
Qed.

(** The codec handed to the package decodes what it encodes, whatever
    the order of the encoder. *)
Lemma Decode_Encode order a :
  (∀ m, order m ≡ₚ map_to_list m) → recordable a →
  (Encode order a).2 = None ∧ Decode (Encode order a).1 = Ok a.
Proof.
  intros Horder [Ha Hr]. split; [reflexivity|].
  unfold Decode, Encode. cbn [fst].
  apply decodeFields_encodeFields; try apply Horder.
  - exact (sendable_permutation _ _ (Horder _) Ha).
  - exact (sendable_permutation _ _ (Horder _) Hr).
Qed.

End GobSpec.

(* ===================================================================== *)
(** * Properties of package timeseries *)
(* ===================================================================== *)

Module TimeseriesSpec.

Import Timeseries.

(** ** The depth snapshots (mapdiff.go) *)

(** [diffAtKey] reports a difference exactly when the two maps disagree
    on the entry of the pool, presence included. *)
Lemma diffAtKey_hasDiff md pool (newMap : gmap string Z) :
  (diffAtKey md pool newMap).1 = true ↔ snapshot md !! pool ≠ newMap !! pool.
Proof.
  unfold diffAtKey.
  destruct (snapshot md !! pool) as [o|], (newMap !! pool) as [n|]; simpl.
  - destruct (Z.eqb_spec o n); simpl; split; congruence.
  - split; congruence.
  - split; congruence.
  - split; congruence.
Qed.

(** The value [diffAtKey] hands back is the current one, 0 for a pool
    the current map lacks. *)
Lemma diffAtKey_newValue md pool (newMap : gmap string Z) :
  (diffAtKey md pool newMap).2 = default 0 (newMap !! pool).
Proof.
  unfold diffAtKey.
  destruct (snapshot md !! pool), (newMap !! pool); reflexivity.
Qed.

(** The row [update] emits for a pool, if any. *)
Definition emittedRow (sm : snapshotManager) (assetE8DepthPerPool runeE8DepthPerPool : gmap string Z)
    (pool : string) : option (string * Z * Z) :=
  let a := diffAtKey (assetE8DepthSnapshot sm) pool assetE8DepthPerPool in
  let r := diffAtKey (runeE8DepthSnapshot sm) pool runeE8DepthPerPool in
  if a.1 || r.1 then Some (pool, a.2, r.2) else None.

Definition emitted (sm : snapshotManager) (assetE8DepthPerPool runeE8DepthPerPool : gmap string Z)
    : list (string * Z * Z) :=
  omap (emittedRow sm assetE8DepthPerPool runeE8DepthPerPool)
    (elements (poolNames sm assetE8DepthPerPool runeE8DepthPerPool)).

Definition rowArgs (height : Z) (row : string * Z * Z) : list arg :=
  [AInt height; AStr row.1.1; AInt row.1.2; AInt row.2].

Lemma updateRow_emittedRow sm height (a r : gmap string Z) acc p :
  updateRow sm height a r acc p =
  match emittedRow sm a r p with
  | Some row =>
    {| rowStrs := rowStrs acc ++ [rowFormat (length (values acc))];
       values := values acc ++ rowArgs height row;
       rowStrs2 := rowStrs2 acc ++ [rowFormat (length (values acc))];
       values2 := values2 acc ++
         [AInt height; AInt (Z.of_nat (getId (poolIds acc) p).2); AInt row.1.2; AInt row.2];
       poolIds := (getId (poolIds acc) p).1 |}
  | None => acc
  end.
Proof.
  unfold updateRow, emittedRow.
  destruct (diffAtKey (assetE8DepthSnapshot sm) p a) as [ad av].
  destruct (diffAtKey (runeE8DepthSnapshot sm) p r) as [rd rv]. simpl.
  destruct (ad || rd); [|reflexivity].
  destruct (getId (poolIds acc) p) as [pim id]. reflexivity.
Qed.

Lemma updateRow_fold sm height (a r : gmap string Z) pools :
  ∀ acc,
    let acc' := fold_left (updateRow sm height a r) pools acc in
    values acc' = values acc ++ flat_map (rowArgs height) (omap (emittedRow sm a r) pools) ∧
    length (rowStrs acc') = (length (rowStrs acc) + length (omap (emittedRow sm a r) pools))%nat ∧
    length (rowStrs2 acc') = (length (rowStrs2 acc) + length (omap (emittedRow sm a r) pools))%nat.
Proof.
  induction pools as [|p pools IH]; intros acc.
  - simpl. rewrite app_nil_r. split; [reflexivity | lia].
  - cbn [fold_left]. cbv zeta.
    destruct (IH (updateRow sm height a r acc p)) as (IHv & IHs & IHs2).
    rewrite IHv, IHs, IHs2, updateRow_emittedRow.
    change (omap (emittedRow sm a r) (p :: pools)) with
      (match emittedRow sm a r p with
       | Some y => y :: omap (emittedRow sm a r) pools
       | None => omap (emittedRow sm a r) pools
       end).
    destruct (emittedRow sm a r p) as [row|].
    + cbn [values rowStrs rowStrs2 flat_map]. rewrite <- app_assoc, !length_app.
      cbn [length]. split; [reflexivity | lia].
    + split; [reflexivity | lia].
Qed.

(** The statement arguments of the first insert are the emitted rows,
    four arguments each, and [diffNum] counts them. *)
Lemma updateRows_emitted sm pim height (a r : gmap string Z) :
  values (updateRows sm pim height a r) = flat_map (rowArgs height) (emitted sm a r) ∧
  length (rowStrs (updateRows sm pim height a r)) = length (emitted sm a r).
Proof.
  unfold updateRows, emitted.
  pose proof (updateRow_fold sm height a r (elements (poolNames sm a r))
    {| rowStrs := []; values := []; rowStrs2 := []; values2 := []; poolIds := pim |}) as H.
  simpl in H. destruct H as (Hv & Hs & _). split; assumption.
Qed.

(** A pool has a row among the emitted ones exactly when its entry in the
    asset map or in the rune map differs from the entry of the previous
    snapshot; the row carries the current values, 0 for a missing one. *)
Lemma emitted_iff_entry_differs sm (a r : gmap string Z) pool av rv :
  (pool, av, rv) ∈ emitted sm a r ↔
  (snapshot (assetE8DepthSnapshot sm) !! pool ≠ a !! pool ∨
   snapshot (runeE8DepthSnapshot sm) !! pool ≠ r !! pool) ∧
  av = default 0 (a !! pool) ∧ rv = default 0 (r !! pool).
Proof.
  unfold emitted. rewrite list_elem_of_omap. split.
  - intros (p & _ & Hrow). unfold emittedRow in Hrow.
    destruct ((diffAtKey (assetE8DepthSnapshot sm) p a).1 ||
              (diffAtKey (runeE8DepthSnapshot sm) p r).1) eqn:Hd; [|discriminate].
    injection Hrow as -> <- <-.
    rewrite !diffAtKey_newValue. split; [|done].
    apply orb_true_iff in Hd. rewrite !diffAtKey_hasDiff in Hd. exact Hd.
  - intros (Hd & -> & ->). exists pool. split.
    + apply elem_of_elements. unfold poolNames.
      rewrite !elem_of_union, !elem_of_dom.
      destruct (a !! pool) eqn:Ha; [eauto 6|].
      destruct (r !! pool) eqn:Hr; [eauto 6|].
      destruct (snapshot (assetE8DepthSnapshot sm) !! pool) eqn:Hsa; [eauto 6|].
      destruct (snapshot (runeE8DepthSnapshot sm) !! pool) eqn:Hsr; [eauto 6|].
      destruct Hd; congruence.
    + unfold emittedRow.
      rewrite <- !diffAtKey_hasDiff in Hd. apply orb_true_iff in Hd.
      rewrite Hd, !diffAtKey_newValue. reflexivity.
Qed.

Lemma emittedRow_pool sm (a r : gmap string Z) p row :
  emittedRow sm a r p = Some row → row.1.1 = p.
Proof.
  unfold emittedRow. destruct (_ || _); [|discriminate]. intros H. by injection H as <-.
Qed.

Lemma omap_emittedRow_pools sm (a r : gmap string Z) pools :
  NoDup pools →
  NoDup ((omap (emittedRow sm a r) pools).*1.*1) ∧
  ∀ p, p ∈ (omap (emittedRow sm a r) pools).*1.*1 → p ∈ pools.
Proof.
  induction 1 as [|p pools Hnotin Hnodup IH].
  - split; [constructor|]. intros p Hp. by apply not_elem_of_nil in Hp.
  - destruct IH as [IH1 IH2].
    change (omap (emittedRow sm a r) (p :: pools)) with
      (match emittedRow sm a r p with
       | Some y => y :: omap (emittedRow sm a r) pools
       | None => omap (emittedRow sm a r) pools
       end).
    destruct (emittedRow sm a r p) as [row|] eqn:Hrow.
    + apply emittedRow_pool in Hrow. cbn [fmap list_fmap]. rewrite Hrow.
      change (list_fmap _ _ fst (list_fmap _ _ fst ?l)) with (l.*1.*1).
      split.
      * constructor; [|exact IH1]. intros Hin. exact (Hnotin (IH2 p Hin)).
      * intros q Hq. apply elem_of_cons in Hq. destruct Hq as [->|Hq]; [left | right; exact (IH2 q Hq)].
    + split; [exact IH1|]. intros q Hq. right. exact (IH2 q Hq).
Qed.

(** What [update] hands to the first insert: four arguments (height,
    pool, asset depth, rune depth) for each row, one row per pool, for
    exactly the pools whose entry in the asset map or in the rune map
    differs from the entry of the previous snapshot, a pool that is
    missing on one side and present on the other included; the depths
    are the current ones, 0 for a missing one. *)
Theorem update_rows_of_changed_pools sm pim height (a r : gmap string Z) :
  ∃ rows,
    values (updateRows sm pim height a r) = flat_map (rowArgs height) rows ∧
    length (rowStrs (updateRows sm pim height a r)) = length rows ∧
    NoDup rows.*1.*1 ∧
    ∀ pool av rv,
      (pool, av, rv) ∈ rows ↔
      (snapshot (assetE8DepthSnapshot sm) !! pool ≠ a !! pool ∨
       snapshot (runeE8DepthSnapshot sm) !! pool ≠ r !! pool) ∧
      av = default 0 (a !! pool) ∧ rv = default 0 (r !! pool).
Proof.
  exists (emitted sm a r).
  destruct (updateRows_emitted sm pim height a r) as [Hvalues Hlen].
  split; [exact Hvalues|]. split; [exact Hlen|]. split.
  - unfold emitted. apply omap_emittedRow_pools. apply NoDup_elements.
  - intros pool av rv. unfold emitted. rewrite list_elem_of_omap. split.
    + intros (p & _ & Hrow). unfold emittedRow in Hrow.
      destruct ((diffAtKey (assetE8DepthSnapshot sm) p a).1 ||
                (diffAtKey (runeE8DepthSnapshot sm) p r).1) eqn:Hd; [|discriminate].
      injection Hrow as -> <- <-.
      rewrite !diffAtKey_newValue. split; [|done].
      apply orb_true_iff in Hd. rewrite !diffAtKey_hasDiff in Hd. exact Hd.
    + intros (Hd & -> & ->). exists pool. split.
      * apply elem_of_elements. unfold poolNames.
        rewrite !elem_of_union, !elem_of_dom.
        destruct (a !! pool) eqn:Ha; [eauto 6|].
        destruct (r !! pool) eqn:Hr; [eauto 6|].
        destruct (snapshot (assetE8DepthSnapshot sm) !! pool) eqn:Hsa; [eauto 6|].
        destruct (snapshot (runeE8DepthSnapshot sm) !! pool) eqn:Hsr; [eauto 6|].
        destruct Hd; congruence.
      * unfold emittedRow.
        rewrite <- !diffAtKey_hasDiff in Hd. apply orb_true_iff in Hd.
        rewrite Hd, !diffAtKey_newValue. reflexivity.
Qed.

(** C2, at a pool that left the maps with depth 0. The previous snapshot
    holds BNB.BNB with asset depth 0 and rune depth 0 and the current
    maps lack the pool: both depths are 0 before and after, yet [update]
    emits the row (2, BNB.BNB, 0, 0), [diffAtKey] answering [hasOld] for
    a missing pool. The sibling [diff] of the same file emits nothing on
    the same maps, its guard being [!ok && oldv != 0]. *)
Theorem update_emits_row_for_vanished_zero_pool :
  let sm := {| assetE8DepthSnapshot := save {["BNB.BNB" := 0]};
               runeE8DepthSnapshot := save {["BNB.BNB" := 0]};
               snapshotHeight := 1 |} in
  diffAtKey (assetE8DepthSnapshot sm) "BNB.BNB" ∅ = (true, 0) ∧
  values (updateRows sm ∅ 2 ∅ ∅) = [AInt 2; AStr "BNB.BNB"; AInt 0; AInt 0] ∧
  diff (assetE8DepthSnapshot sm) ∅ = ∅ ∧
  diff (runeE8DepthSnapshot sm) ∅ = ∅.
Proof. cbv zeta. repeat split; vm_compute; reflexivity. Qed.

(** ** [diff] and the pool ids *)

(** The entry of [diff] for a key: the current value where it is new or
    changed, 0 where a non-zero value went missing, none otherwise. *)
Lemma diff_lookup md (newMap : gmap string Z) k :
  diff md newMap !! k =
  match newMap !! k with
  | Some v => if decide (snapshot md !! k = Some v) then None else Some v
  | None =>
    match snapshot md !! k with
    | Some o => if decide (o = 0) then None else Some 0
    | None => None
    end
  end.
Proof.
  unfold diff. rewrite lookup_union, lookup_fmap, !map_lookup_filter.
  destruct (newMap !! k) as [v|] eqn:Hn; destruct (snapshot md !! k) as [o|] eqn:Ho; simpl;
    rewrite ?Hn, ?Ho; simpl; repeat case_guard; simpl; repeat case_decide;
    first [reflexivity | congruence | tauto].
Qed.

(** The snapshot overwritten with the entries of [diff] reads like the
    current map, a missing value read as 0; and a map diffed against its
    own saved copy has no differences. *)
Theorem diff_patches_snapshot md (newMap : gmap string Z) :
  (∀ k, default 0 ((diff md newMap ∪ snapshot md) !! k) = default 0 (newMap !! k)) ∧
  diff (save newMap) newMap = ∅.
Proof.
  split.
  - intros k. rewrite lookup_union, diff_lookup.
    destruct (newMap !! k) as [v|]; destruct (snapshot md !! k) as [o|];
      repeat case_decide; simpl; congruence.
  - apply map_empty. intros k. rewrite diff_lookup. simpl.
    destruct (newMap !! k) as [v|]; [|reflexivity].
    case_decide; congruence.
Qed.

(** The ids of [poolIdMapperr] are in use once each and lie below the
    size of the map. *)
Definition uniqueIds (pim : gmap string nat) : Prop :=
  (∀ name id, pim !! name = Some id → (id < size pim)%nat) ∧
  (∀ name1 name2 id, pim !! name1 = Some id → pim !! name2 = Some id → name1 = name2).

Lemma getId_uniqueIds pim name :
  uniqueIds pim →
  uniqueIds (getId pim name).1 ∧
  (getId pim name).1 !! name = Some (getId pim name).2 ∧
  pim ⊆ (getId pim name).1.
Proof.
  intros [Hlt Hinj]. unfold getId.
  destruct (pim !! name) as [id|] eqn:Hname; simpl.
  - split; [split; assumption|]. split; [exact Hname | reflexivity].
  - split; [|split; [apply lookup_insert_eq | apply insert_subseteq; exact Hname]].
    split.
    + intros n id Hn. rewrite map_size_insert_None by exact Hname.
      destruct (decide (n = name)) as [->|Hne].
      * rewrite lookup_insert_eq in Hn. injection Hn as <-. lia.
      * rewrite lookup_insert_ne in Hn by congruence. specialize (Hlt _ _ Hn). lia.
    + intros n1 n2 id H1 H2.
      destruct (decide (n1 = name)) as [->|Hne1]; destruct (decide (n2 = name)) as [->|Hne2];
        [reflexivity| | |].
      * rewrite lookup_insert_eq in H1. injection H1 as <-.
        rewrite lookup_insert_ne in H2 by congruence. specialize (Hlt _ _ H2). lia.
      * rewrite lookup_insert_eq in H2. injection H2 as <-.
        rewrite lookup_insert_ne in H1 by congruence. specialize (Hlt _ _ H1). lia.
      * rewrite lookup_insert_ne in H1, H2 by congruence. exact (Hinj _ _ _ H1 H2).
Qed.

Lemma updateRow_fold_ids sm height (a r : gmap string Z) pools :
  ∀ acc,
    uniqueIds (poolIds acc) →
    let acc' := fold_left (updateRow sm height a r) pools acc in
    uniqueIds (poolIds acc') ∧ poolIds acc ⊆ poolIds acc' ∧
    ∀ p, p ∈ pools → is_Some (emittedRow sm a r p) → is_Some (poolIds acc' !! p).
Proof.
  induction pools as [|p pools IH]; intros acc Hids.
  - simpl. split; [exact Hids|]. split; [reflexivity|].
    intros p Hp. by apply not_elem_of_nil in Hp.
  - cbn [fold_left]. cbv zeta.
    assert (Hstep : uniqueIds (poolIds (updateRow sm height a r acc p)) ∧
                    poolIds acc ⊆ poolIds (updateRow sm height a r acc p) ∧
                    (is_Some (emittedRow sm a r p) →
                     is_Some (poolIds (updateRow sm height a r acc p) !! p))).
    { rewrite updateRow_emittedRow. destruct (emittedRow sm a r p) as [row|].
      - destruct (getId_uniqueIds (poolIds acc) p Hids) as (H1 & H2 & H3).
        cbn [poolIds]. split; [exact H1|]. split; [exact H3|]. intros _. rewrite H2. eauto.
      - split; [exact Hids|]. split; [reflexivity|]. intros [? ?]. discriminate. }
    destruct Hstep as (Hids1 & Hsub1 & Hp1).
    destruct (IH _ Hids1) as (Hids2 & Hsub2 & Hp2).
    split; [exact Hids2|]. split; [etrans; eassumption|].
    intros q Hq Hrow. apply elem_of_cons in Hq. destruct Hq as [->|Hq].
    + destruct (Hp1 Hrow) as [id Hid]. exists id.
      exact (lookup_weaken _ _ _ _ Hid Hsub2).
    + exact (Hp2 q Hq Hrow).
Qed.

(** ** The two inserts of [update] *)

(** The insert did not go through: [DBExec] returned an error, or the
    result could not tell its affected rows. *)
Definition insertFails (r : result sqlResult) : Prop :=
  match r with
  | Err _ => True
  | Ok res => match RowsAffected res with Err _ => True | Ok _ => False end
  end.

(** The database reports a number of affected rows other than [diffNum]. *)
Definition countDiffers (r : result sqlResult) (diffNum : nat) : Prop :=
  match r with
  | Err _ => False
  | Ok res => match RowsAffected res with Err _ => False | Ok n => n ≠ Z.of_nat diffNum end
  end.

(** The database reports exactly [diffNum] affected rows. *)
Definition insertSaved (r : result sqlResult) (diffNum : nat) : Prop :=
  match r with
  | Err _ => False
  | Ok res => RowsAffected res = Ok (Z.of_nat diffNum)
  end.

Section UpdateSpec.

Context {DB : Type}.
Variable DBExec : string → list arg → DB → DB * result sqlResult.

(** C7. With [diffNum] the number of emitted rows: when no row is
    emitted [update] returns nil and leaves the database alone;
    otherwise it returns an error exactly when the first insert fails or
    reports another count than [diffNum], or the first went through and
    the second fails or reports another count; it returns nil exactly
    when both inserts report [diffNum] rows. *)
Theorem update_error_iff sm pim (db : DB) height (a r : gmap string Z) :
  let acc := updateRows sm pim height a r in
  let diffNum := length (emitted sm a r) in
  let first := DBExec (queryFront +:+ Join (rowStrs acc) ", " +:+ queryEnd) (values acc) db in
  let second := DBExec (queryFront2 +:+ Join (rowStrs2 acc) ", " +:+ queryEnd) (values2 acc) first.1 in
  let res := update DBExec sm pim db height a r in
  (diffNum = 0%nat → upd_err res = None ∧ upd_db res = db) ∧
  (diffNum ≠ 0%nat →
    (is_Some (upd_err res) ↔
       insertFails first.2 ∨ countDiffers first.2 diffNum ∨
       (insertSaved first.2 diffNum ∧ (insertFails second.2 ∨ countDiffers second.2 diffNum))) ∧
    (upd_err res = None ↔ insertSaved first.2 diffNum ∧ insertSaved second.2 diffNum)).
Proof.
  cbv zeta. unfold update.
  destruct (updateRows_emitted sm pim height a r) as [_ Hlen]. rewrite Hlen.
  set (acc := updateRows sm pim height a r).
  set (diffNum := length (emitted sm a r)).
  split.
  - intros ->. simpl. split; reflexivity.
  - intros Hne. apply Nat.eqb_neq in Hne. rewrite Hne.
    destruct (DBExec _ (values acc) db) as [db1 [res1|e1]]; simpl.
    2:{ split; [split; [intros _; left; exact I | eauto] |].
        split; [discriminate | intros [[] _]]. }
    destruct (RowsAffected res1) as [n1|e1] eqn:Hn1; simpl.
    2:{ split; [split; [intros _; left; exact I | eauto] |].
        split; [discriminate | intros [? _]; discriminate]. }
    destruct (Z.eqb_spec n1 (Z.of_nat diffNum)) as [->|Hn]; simpl.
    2:{ split; [split; [intros _; right; left; exact Hn | eauto] |].
        split; [discriminate | intros [? _]; congruence]. }
    destruct (DBExec _ (values2 acc) db1) as [db2 [res2|e2]]; simpl.
    2:{ split; [split; [intros _; right; right; split; [reflexivity | left; exact I] | eauto] |].
        split; [discriminate | intros [_ []]]. }
    destruct (RowsAffected res2) as [n2|e2] eqn:Hn2; simpl.
    2:{ split; [split; [intros _; right; right; split; [reflexivity | left; exact I] | eauto] |].
        split; [discriminate | intros [_ ?]; discriminate]. }
    destruct (Z.eqb_spec n2 (Z.of_nat diffNum)) as [->|Hn']; simpl.
    + split; [|split; [intros _; split; reflexivity | reflexivity]].
      split; [intros [? ?]; discriminate |].
      intros [[]|[Hc|[_ [[]|Hc]]]]; congruence.
    + split; [split; [intros _; right; right; split; [reflexivity | right; exact Hn'] | eauto] |].
      split; [discriminate | intros [_ ?]; congruence].
Qed.

(** [update] leaves the snapshots at the current maps whatever the
    inserts answer. *)
Lemma update_saves sm pim (db : DB) height (a r : gmap string Z) :
  upd_sm (update DBExec sm pim db height a r) =
    {| assetE8DepthSnapshot := save a; runeE8DepthSnapshot := save r; snapshotHeight := height |} ∧
  upd_poolIds (update DBExec sm pim db height a r) = poolIds (updateRows sm pim height a r).
Proof.
  unfold update.
  destruct (length (rowStrs (updateRows sm pim height a r)) =? 0)%nat; [split; reflexivity|].
  destruct (DBExec _ (values _) db) as [db1 [res1|e1]]; [|split; reflexivity].
  destruct (RowsAffected res1) as [n1|e1]; [|split; reflexivity].
  destruct (negb (n1 =? _)); [split; reflexivity|].
  destruct (DBExec _ (values2 _) db1) as [db2 [res2|e2]]; [|split; reflexivity].
  destruct (RowsAffected res2) as [n2|e2]; [|split; reflexivity].
  destruct (negb (n2 =? _)); split; reflexivity.
Qed.

Lemma emittedRow_saved height (a r : gmap string Z) p :
  emittedRow {| assetE8DepthSnapshot := save a; runeE8DepthSnapshot := save r;
                snapshotHeight := height |} a r p = None.
Proof.
  unfold emittedRow. cbn [assetE8DepthSnapshot runeE8DepthSnapshot].
  destruct (diffAtKey (save a) p a).1 eqn:Ha.
  { apply diffAtKey_hasDiff in Ha. destruct Ha. reflexivity. }
  destruct (diffAtKey (save r) p r).1 eqn:Hr.
  { apply diffAtKey_hasDiff in Hr. destruct Hr. reflexivity. }
  reflexivity.
Qed.

Lemma updateRow_fold_none sm height (a r : gmap string Z) pools acc :
  (∀ p, emittedRow sm a r p = None) →
  fold_left (updateRow sm height a r) pools acc = acc.
Proof.
  intros Hnone. revert acc. induction pools as [|p pools IH]; intros acc; [reflexivity|].
  cbn [fold_left]. rewrite updateRow_emittedRow, Hnone. apply IH.
Qed.

(** The snapshots advance even when an insert fails, so that the rows
    of a failed [update] are not emitted again: a second [update] with
    the same maps, whatever the first one returned, emits no row, runs
    no statement, assigns no pool id and returns nil. *)
Theorem update_again_emits_nothing sm pim (db : DB) height height' (a r : gmap string Z) :
  let res := update DBExec sm pim db height a r in
  let again := update DBExec (upd_sm res) (upd_poolIds res) (upd_db res) height' a r in
  upd_err again = None ∧
  upd_db again = upd_db res ∧
  upd_poolIds again = upd_poolIds res ∧
  emitted (upd_sm res) a r = [].
Proof.
  cbv zeta. destruct (update_saves sm pim db height a r) as [Hsm Hids].
  set (res := update DBExec sm pim db height a r) in *. rewrite Hsm.
  assert (Hrows : ∀ pim', updateRows
      {| assetE8DepthSnapshot := save a; runeE8DepthSnapshot := save r; snapshotHeight := height |}
      pim' height' a r =
      {| rowStrs := []; values := []; rowStrs2 := []; values2 := []; poolIds := pim' |}).
  { intros pim'. unfold updateRows. apply updateRow_fold_none. intros p. apply emittedRow_saved. }
  unfold update. rewrite Hrows. cbn [rowStrs length Nat.eqb upd_err upd_db upd_poolIds poolIds].
  repeat split.
  unfold emitted. induction (elements _) as [|p pools IH]; [reflexivity|].
  cbn [omap list_omap]. rewrite emittedRow_saved. exact IH.
Qed.

(** [update] keeps the pool ids apart: with ids in use once each and
    below the size of the map on entry, they are so on return; a known
    pool keeps its id; and every pool of an emitted row has an id. *)
Theorem update_keeps_pool_ids sm pim (db : DB) height (a r : gmap string Z) :
  uniqueIds pim →
  let res := update DBExec sm pim db height a r in
  uniqueIds (upd_poolIds res) ∧
  pim ⊆ upd_poolIds res ∧
  ∀ pool av rv, (pool, av, rv) ∈ emitted sm a r → is_Some (upd_poolIds res !! pool).
Proof.
  intros Hids. cbv zeta.
  destruct (update_saves sm pim db height a r) as [_ ->].
  unfold updateRows.
  destruct (updateRow_fold_ids sm height a r (elements (poolNames sm a r))
    {| rowStrs := []; values := []; rowStrs2 := []; values2 := []; poolIds := pim |} Hids)
    as (H1 & H2 & H3).
  split; [exact H1|]. split; [exact H2|].
  intros pool av rv Hrow. unfold emitted in Hrow.
  apply list_elem_of_omap in Hrow. destruct Hrow as (p & Hp & Hrow).
  assert (p = pool) as ->.
  { unfold emittedRow in Hrow. destruct (_ || _); [|discriminate]. by injection Hrow. }
  apply H3; [exact Hp | eauto].
Qed.

End UpdateSpec.

(** ** Commit and lookups *)

Lemma resolveMoment_zero moment timestamp :
  IsZero moment = true → resolveMoment moment timestamp = Some timestamp.
Proof. unfold resolveMoment. intros ->. reflexivity. Qed.

Lemma resolveMoment_self timestamp : resolveMoment timestamp timestamp = Some timestamp.
Proof.
  unfold resolveMoment, Before. rewrite Z.ltb_irrefl.
  destruct (IsZero timestamp); reflexivity.
Qed.

Lemma resolveMoment_beyond moment timestamp :
  IsZero moment = false → Before timestamp moment = true →
  resolveMoment moment timestamp = None.
Proof. unfold resolveMoment. intros -> ->. reflexivity. Qed.

(** The effect of one row of [NodesSecpAndEd] on the two maps: both are
    written under the secp256k1 key. *)
Lemma nodeKeysRow_maps addr secp ed k :
  secp256k1Addrs (nodeKeysRow addr secp ed k) = <[secp := addr]> (secp256k1Addrs k) ∧
  ed25519Addrs (nodeKeysRow addr secp ed k) = <[secp := addr]> (ed25519Addrs k).
Proof. split; reflexivity. Qed.

(** A scanned row of [set_node_keys_events]. *)
Definition keyRow (t : string * string * string) : list arg :=
  [AStr t.1.1; AStr t.1.2; AStr t.2].

(** The map that holds, for every row, the address under the row's
    secp256k1 key; a later row wins. *)
Definition bySecp (rows : list (string * string * string)) (m : gmap string string)
    : gmap string string :=
  fold_left (λ m t, <[t.1.2 := t.1.1]> m) rows m.

Lemma nodeKeysRows_bySecp rows :
  ∀ k, ∃ k', nodeKeysRows (keyRow <$> rows) k = (k', None) ∧
    secp256k1Addrs k' = bySecp rows (secp256k1Addrs k) ∧
    ed25519Addrs k' = bySecp rows (ed25519Addrs k).
Proof.
  induction rows as [|[[addr secp] ed] rows IH]; intros k.
  - exists k. repeat split.
  - destruct (IH (nodeKeysRow addr secp ed k)) as (k' & Hrun & Hs & He).
    exists k'. split; [exact Hrun|]. rewrite Hs, He. split; reflexivity.
Qed.

Lemma bySecp_app rows1 rows2 m : bySecp (rows1 ++ rows2) m = bySecp rows2 (bySecp rows1 m).
Proof. apply fold_left_app. Qed.

Lemma bySecp_other rows secp :
  ∀ m, (∀ t, t ∈ rows → t.1.2 ≠ secp) → bySecp rows m !! secp = m !! secp.
Proof.
  induction rows as [|t rows IH]; intros m Hne; [reflexivity|].
  simpl. rewrite IH.
  - apply lookup_insert_ne. apply Hne. left.
  - intros t' Ht'. apply Hne. right. exact Ht'.
Qed.

Lemma bySecp_keys rows key :
  ∀ m, is_Some (bySecp rows m !! key) ↔ is_Some (m !! key) ∨ ∃ t, t ∈ rows ∧ t.1.2 = key.
Proof.
  induction rows as [|t rows IH]; intros m.
  - simpl. split; [eauto|]. intros [H|(t & Ht & _)]; [exact H|]. by apply not_elem_of_nil in Ht.
  - simpl. rewrite IH. split.
    + intros [Hm|(t' & Ht' & Hk)].
      * destruct (decide (t.1.2 = key)) as [Heq|Hne].
        -- right. exists t. split; [left | exact Heq].
        -- left. rewrite lookup_insert_ne in Hm; [exact Hm | exact Hne].
      * right. exists t'. split; [right; exact Ht' | exact Hk].
    + intros [Hm|(t' & Ht' & Hk)].
      * left. destruct (decide (t.1.2 = key)) as [Heq|Hne].
        -- rewrite Heq, lookup_insert_eq. eauto.
        -- rewrite lookup_insert_ne; [exact Hm | exact Hne].
      * apply elem_of_cons in Ht'. destruct Ht' as [->|Ht'].
        -- left. rewrite Hk, lookup_insert_eq. eauto.
        -- right. exists t'. split; [exact Ht' | exact Hk].
Qed.

Lemma bySecp_is_Some rows secp :
  ∀ m, is_Some (m !! secp) → is_Some (bySecp rows m !! secp).
Proof.
  induction rows as [|t rows IH]; intros m Hm; [exact Hm|].
  simpl. apply IH. destruct (decide (t.1.2 = secp)) as [->|Hne].
  - rewrite lookup_insert_eq. eauto.
  - rewrite lookup_insert_ne; [exact Hm | exact Hne].
Qed.

Section PackageSpec.

Context {DB linkedEvents : Type}.
Variable DBQuery : string → list arg → DB → DB * result sqlRows.
Variable DBExec : string → list arg → DB → DB * result sqlResult.
Variable gobEncode : aggTrack → list Z * option error.
Variable gobDecode : list Z → result aggTrack.
Variable ApplyOutboundQ : linkedEvents → runningTotals → Z → Time → linkedEvents * runningTotals.
Variable ApplyFeeQ : linkedEvents → runningTotals → Z → Time → linkedEvents * runningTotals.

Abbreviation pkgState := (@pkgState DB linkedEvents).

(** [query] hands exactly its statement to the database. *)
Lemma query_issued q args (st : pkgState) :
  issued (query DBQuery q args st).1 = issued st ++ [(q, args)].
Proof. unfold query. destruct (DBQuery q args (db st)) as [d r]. reflexivity. Qed.

Lemma lookupColumn_issued q moment (st : pkgState) :
  issued (lookupColumn DBQuery q moment st).1 = issued st ++ [(q, [AInt (UnixNano moment)])].
Proof.
  unfold lookupColumn.
  pose proof (query_issued q [AInt (UnixNano moment)] st) as H.
  destruct (query DBQuery q [AInt (UnixNano moment)] st) as [st1 [rows|e]]; [|exact H].
  destruct (scanColumn (rows_data rows) []) as [l [e|]]; exact H.
Qed.

Lemma newNodes_issued moment (st : pkgState) :
  issued (newNodes DBQuery moment st).1 =
  issued st ++ [("SELECT node_addr FROM new_node_events WHERE block_timestamp <= $1",
                 [AInt (UnixNano moment)])].
Proof.
  unfold newNodes.
  match goal with |- context [query DBQuery ?q ?a st] =>
    pose proof (query_issued q a st) as H; destruct (query DBQuery q a st) as [st1 [rows|e]] end;
    [|exact H].
  destruct (scanNodes (rows_data rows) ∅) as [l [e|]]; exact H.
Qed.

Lemma head_drop_issued (l : list (string * list arg)) x rest :
  head (drop (length l) (l ++ x :: rest)) = Some x.
Proof. rewrite drop_app_length. reflexivity. Qed.

(** C5. When the insert into [block_log] goes through and reports zero
    affected rows, [CommitBlock] returns nil; it logs that the height was
    already committed, leaves the recorder as [ApplyOutboundQ] followed
    by [ApplyFeeQ] make it, and stores the snapshot taken on entry as
    the last block. *)
Theorem CommitBlock_already_committed height timestamp hash (st : pkgState) d result :
  let track := {| Height := height; Timestamp := timestamp; Hash := hash;
                  agg := {| AssetE8DepthPerPool := assetE8DepthPerPool (totals st);
                            RuneE8DepthPerPool := runeE8DepthPerPool (totals st) |} |} in
  let enc := gobEncode (agg track) in
  let encLog := match enc.2 with
                | Some err => [("aggregation state ommited from persistence:", [LErr err])]
                | None => []
                end in
  let out := ApplyOutboundQ (linked st) (totals st) height timestamp in
  let fee := ApplyFeeQ out.1 out.2 height timestamp in
  DBExec insertBlockLog
    [AInt height; AInt (UnixNano timestamp); ABytes hash; ABytes enc.1] (db st) = (d, Ok result) →
  RowsAffected result = Ok 0 →
  let r := CommitBlock DBExec gobEncode ApplyOutboundQ ApplyFeeQ height timestamp hash st in
  r.2 = None ∧
  logged r.1 = logged st ++ encLog ++ [("block height %d already committed", [LInt height])] ∧
  linked r.1 = fee.1 ∧ totals r.1 = fee.2 ∧
  lastBlockTrack r.1 = Some track ∧
  db r.1 = d.
Proof.
  cbv zeta. intros Hexec Hrows. unfold CommitBlock, exec.
  destruct (gobEncode _) as [aggSerial [err|]]; simpl in *.
  - rewrite Hexec, Hrows. simpl.
    destruct (ApplyOutboundQ _ _ _ _) as [l t]. simpl.
    destruct (ApplyFeeQ l t _ _) as [l' t']. simpl.
    rewrite <- app_assoc. repeat split.
  - rewrite Hexec, Hrows. simpl.
    destruct (ApplyOutboundQ _ _ _ _) as [l t]. simpl.
    destruct (ApplyFeeQ l t _ _) as [l' t']. simpl.
    repeat split.
Qed.

(** C9. When the query yields the rows [(addr, secp, ed)], the returned
    [ed25519Addrs] holds, like [secp256k1Addrs], the addresses under the
    secp256k1 keys of the rows: the write of a row is keyed by its
    secp256k1 key, and the keys of the map are the secp256k1 keys of the
    rows, so that an Ed25519 key is a key only where it is the secp256k1
    key of some row. The write of a row maps its secp256k1 key to its
    address, and the key stays so mapped unless a later row has the same
    secp256k1 key. *)
Theorem NodesSecpAndEd_ed25519_keyed_by_secp t (st : pkgState) d rows err :
  DBQuery queryNodeKeys [AInt (UnixNano t)] (db st) =
    (d, Ok {| rows_data := keyRow <$> rows; rows_Err := err |}) →
  ∃ st' edAddrs,
    NodesSecpAndEd DBQuery t st = (st', (bySecp rows ∅, edAddrs, None)) ∧
    edAddrs = bySecp rows ∅ ∧
    (∀ addr secp ed k, ed25519Addrs (nodeKeysRow addr secp ed k) = <[secp := addr]> (ed25519Addrs k)) ∧
    (∀ key, is_Some (edAddrs !! key) ↔ ∃ t', t' ∈ rows ∧ t'.1.2 = key) ∧
    (∀ before addr secp ed after,
       rows = before ++ (addr, secp, ed) :: after →
       bySecp (before ++ [(addr, secp, ed)]) ∅ !! secp = Some addr ∧
       is_Some (edAddrs !! secp) ∧
       ((∀ t', t' ∈ after → t'.1.2 ≠ secp) → edAddrs !! secp = Some addr)).
Proof.
  intros Hq. unfold NodesSecpAndEd, query. rewrite Hq. simpl.
  destruct (nodeKeysRows_bySecp rows
    {| secp256k1Addrs := ∅; ed25519Addrs := ∅; keyLog := [] |}) as (k' & Hrun & Hs & He).
  rewrite Hrun. simpl in Hs, He. rewrite Hs, He.
  eexists _, _. split; [reflexivity|]. split; [reflexivity|].
  split; [reflexivity|].
  split.
  { intros key. rewrite bySecp_keys, lookup_empty. split.
    - intros [[x Hx]|H]; [discriminate | exact H].
    - intros H. right. exact H. }
  intros before addr secp ed after ->.
  assert (Hw : bySecp (before ++ [(addr, secp, ed)]) ∅ !! secp = Some addr).
  { rewrite bySecp_app. simpl. apply lookup_insert_eq. }
  split; [exact Hw|].
  replace (before ++ (addr, secp, ed) :: after) with ((before ++ [(addr, secp, ed)]) ++ after)
    by (rewrite <- app_assoc; reflexivity).
  rewrite bySecp_app. split.
  - apply bySecp_is_Some. rewrite Hw. eauto.
  - intros Hlater. rewrite bySecp_other; [exact Hw | exact Hlater].
Qed.

(** C10. With a last block stored, for [Pools], [PoolStatus],
    [StakeAddrs], [Mimir] and [StatusPerNode]: a zero moment gives what
    the timestamp of the last block gives, and the first statement
    handed to the database carries that timestamp; a moment which is not
    zero and lies after that timestamp gives the beyond-last error with
    the empty result, the package state, the statements issued so far
    among it, staying as it was. *)
Theorem lookups_resolve_moment (st : pkgState) track pool moment :
  lastBlockTrack st = Some track →
  let ts := Timestamp track in
  let first (st' : pkgState) := head (drop (length (issued st)) (issued st')) in
  (IsZero moment = true →
     (Pools DBQuery moment st = Pools DBQuery ts st ∧
      PoolStatus DBQuery pool moment st = PoolStatus DBQuery pool ts st ∧
      StakeAddrs DBQuery moment st = StakeAddrs DBQuery ts st ∧
      Mimir DBQuery moment st = Mimir DBQuery ts st ∧
      StatusPerNode DBQuery moment st = StatusPerNode DBQuery ts st) ∧
     (first (Pools DBQuery moment st).1 =
        Some ("SELECT pool FROM stake_events WHERE block_timestamp <= $1 GROUP BY pool",
              [AInt (UnixNano ts)]) ∧
      first (PoolStatus DBQuery pool moment st).1 =
        Some ("SELECT COALESCE(last(status, block_timestamp), '') FROM pool_events WHERE block_timestamp <= $2 AND asset = $1",
              [AStr pool; AInt (UnixNano ts)]) ∧
      first (StakeAddrs DBQuery moment st).1 =
        Some ("SELECT rune_addr FROM stake_events WHERE block_timestamp <= $1 GROUP BY rune_addr",
              [AInt (UnixNano ts)]) ∧
      first (Mimir DBQuery moment st).1 =
        Some ("SELECT name, value FROM set_mimir_event_entries WHERE block_timestamp <= $1",
              [AInt (UnixNano ts)]) ∧
      first (StatusPerNode DBQuery moment st).1 =
        Some ("SELECT node_addr FROM new_node_events WHERE block_timestamp <= $1",
              [AInt (UnixNano ts)]))) ∧
  (IsZero moment = false → Before ts moment = true →
     Pools DBQuery moment st = (st, Returns ([], Some errBeyondLast)) ∧
     PoolStatus DBQuery pool moment st = (st, Returns ("", Some errBeyondLast)) ∧
     StakeAddrs DBQuery moment st = (st, Returns ([], Some errBeyondLast)) ∧
     Mimir DBQuery moment st = (st, Returns (∅, Some errBeyondLast)) ∧
     StatusPerNode DBQuery moment st = (st, Returns (∅, Some errBeyondLast))).
Proof.
  intros Htrack. cbv zeta. split.
  - intros Hzero.
    unfold Pools, PoolStatus, StakeAddrs, Mimir, StatusPerNode, LastBlock.
    rewrite Htrack. rewrite (resolveMoment_zero _ _ Hzero), resolveMoment_self.
    split; [repeat split|].
    repeat split.
    + pose proof (lookupColumn_issued
        "SELECT pool FROM stake_events WHERE block_timestamp <= $1 GROUP BY pool"
        (Timestamp track) st) as H.
      destruct (lookupColumn _ _ _ st) as [st1 r]. simpl in *.
      rewrite H. apply head_drop_issued.
    + match goal with |- context [query DBQuery ?q ?a st] =>
        pose proof (query_issued q a st) as H;
        destruct (query DBQuery q a st) as [st1 [rows|e]] end; simpl in H.
      * destruct (rows_data rows) as [|cols ?]; simpl;
          [rewrite H; apply head_drop_issued|].
        destruct (scanStrings 1 cols) as [[|? [|? ?]]|]; simpl;
          rewrite H; apply head_drop_issued.
      * simpl. rewrite H. apply head_drop_issued.
    + pose proof (lookupColumn_issued
        "SELECT rune_addr FROM stake_events WHERE block_timestamp <= $1 GROUP BY rune_addr"
        (Timestamp track) st) as H.
      destruct (lookupColumn _ _ _ st) as [st1 r]. simpl in *.
      rewrite H. apply head_drop_issued.
    + match goal with |- context [query DBQuery ?q ?a st] =>
        pose proof (query_issued q a st) as H;
        destruct (query DBQuery q a st) as [st1 [rows|e]] end; simpl in H.
      * destruct (scanPairs _ (rows_data rows) ∅) as [m [e|]]; simpl;
          rewrite H; apply head_drop_issued.
      * simpl. rewrite H. apply head_drop_issued.
    + pose proof (newNodes_issued (Timestamp track) st) as H.
      destruct (newNodes DBQuery (Timestamp track) st) as [st1 [m [e|]]]; simpl in H.
      * simpl. rewrite H. apply head_drop_issued.
      * match goal with |- context [query DBQuery ?q ?a st1] =>
          pose proof (query_issued q a st1) as H';
          destruct (query DBQuery q a st1) as [st2 [rows|e]] end; simpl in H'.
        -- destruct (scanPairs _ (rows_data rows) m) as [m' [e|]]; simpl;
             rewrite H', H, <- app_assoc; apply head_drop_issued.
        -- simpl. rewrite H', H, <- app_assoc. apply head_drop_issued.
  - intros Hnz Hbeyond.
    unfold Pools, PoolStatus, StakeAddrs, Mimir, StatusPerNode, LastBlock.
    rewrite Htrack, (resolveMoment_beyond _ _ Hnz Hbeyond). repeat split.
Qed.

(** What the package does with a codec that decodes the bytes it gave
    for the state at hand: [CommitBlock] hands these bytes to the insert
    as [agg_state] and keeps the two maps as the last block; and when,
    after a restart with an empty recorder, the last row of [block_log]
    is the one inserted, [loadBlockFromDB] and [Setup] leave the recorder
    and the last block with depth maps equal to those committed. *)
Lemma commit_restore_with_codec height timestamp hash (st fresh : pkgState) d d' result n err :
  let snap := {| AssetE8DepthPerPool := assetE8DepthPerPool (totals st);
                 RuneE8DepthPerPool := runeE8DepthPerPool (totals st) |} in
  let aggSerial := (gobEncode snap).1 in
  (gobEncode snap).2 = None →
  gobDecode aggSerial = Ok snap →
  DBExec insertBlockLog
    [AInt height; AInt (UnixNano timestamp); ABytes hash; ABytes aggSerial] (db st) = (d, Ok result) →
  RowsAffected result = Ok n →
  DBQuery "SELECT height, timestamp, hash, agg_state FROM block_log ORDER BY height DESC LIMIT 1"
    [] (db fresh) =
    (d', Ok {| rows_data := [[AInt height; AInt (UnixNano timestamp); ABytes hash; ABytes aggSerial]];
               rows_Err := err |}) →
  totals fresh = {| assetE8DepthPerPool := ∅; runeE8DepthPerPool := ∅ |} →
  let committed := CommitBlock DBExec gobEncode ApplyOutboundQ ApplyFeeQ height timestamp hash st in
  let restored := Setup DBQuery gobDecode fresh in
  committed.2 = None ∧
  agg <$> lastBlockTrack committed.1 = Some snap ∧
  restored.2 = (height, Unix 0 (UnixNano timestamp), hash, None) ∧
  assetE8DepthPerPool (totals restored.1) = assetE8DepthPerPool (totals st) ∧
  runeE8DepthPerPool (totals restored.1) = runeE8DepthPerPool (totals st) ∧
  agg <$> lastBlockTrack restored.1 = Some snap.
Proof.
  cbv zeta. intros Henc Hdec Hexec Hrows Hquery Hfresh.
  split; [|split].
  - unfold CommitBlock, exec.
    destruct (gobEncode _) as [aggSerial encErr]. simpl in *. subst encErr.
    rewrite Hexec, Hrows.
    destruct (ApplyOutboundQ _ _ _ _) as [l t]. destruct (ApplyFeeQ l t _ _) as [l' t'].
    reflexivity.
  - unfold CommitBlock, exec.
    destruct (gobEncode _) as [aggSerial encErr]. simpl in *. subst encErr.
    rewrite Hexec, Hrows.
    destruct (ApplyOutboundQ _ _ _ _) as [l t]. destruct (ApplyFeeQ l t _ _) as [l' t'].
    reflexivity.
  - assert (Hq : "SELECT height, timestamp, hash, agg_state FROM block_log " +:+
                   (if 0 <? -1 then "WHERE height = " +:+ pretty (-1)
                    else "ORDER BY height DESC LIMIT 1") =
                 "SELECT height, timestamp, hash, agg_state FROM block_log ORDER BY height DESC LIMIT 1")
      by reflexivity.
    unfold Setup, loadBlockFromDB, query, logPrintf. cbn [db].
    rewrite Hq, Hquery. cbn [rows_data scanBlockLog]. rewrite Hdec.
    cbn [storeLastBlockTrack setRecorder totals lastBlockTrack agg Height Timestamp Hash
         AssetE8DepthPerPool RuneE8DepthPerPool assetE8DepthPerPool runeE8DepthPerPool
         fst snd fmap option_fmap option_map].
    rewrite Hfresh. cbn [assetE8DepthPerPool runeE8DepthPerPool].
    rewrite !(right_id_L ∅ (∪)). repeat split.
Qed.

(** ** Commit, restore and the last block *)

(** A commit that returns nil is what [LastBlock] and
    [AssetAndRuneDepths] answer with from then on: the height, timestamp
    and hash given, and the depths the recorder held on entry, before the
    queues were applied. *)
Theorem CommitBlock_then_LastBlock height timestamp hash (st st' : pkgState) :
  CommitBlock DBExec gobEncode ApplyOutboundQ ApplyFeeQ height timestamp hash st = (st', None) →
  LastBlock st' = Returns (height, timestamp, hash) ∧
  AssetAndRuneDepths st' =
    Returns (assetE8DepthPerPool (totals st), runeE8DepthPerPool (totals st), timestamp).
Proof.
  unfold CommitBlock, exec. intros H.
  destruct (gobEncode _) as [aggSerial encErr].
  destruct (DBExec _ _ _) as [d [result|err]]; [|destruct encErr; discriminate].
  destruct (RowsAffected result) as [n|err]; [|destruct encErr; discriminate].
  destruct (ApplyOutboundQ _ _ _ _) as [l t]. destruct (ApplyFeeQ l t _ _) as [l' t'].
  injection H as <-. split; reflexivity.
Qed.

(** A commit that fails leaves the package as it was, the database
    apart: the last block is not replaced and the queues are not
    applied. *)
Theorem CommitBlock_error_keeps_state height timestamp hash (st st' : pkgState) err :
  CommitBlock DBExec gobEncode ApplyOutboundQ ApplyFeeQ height timestamp hash st = (st', Some err) →
  lastBlockTrack st' = lastBlockTrack st ∧ totals st' = totals st ∧ linked st' = linked st ∧
  ((∃ cause, err = Wrapf "persist block height %d: %w" [height] cause) ∨
   (∃ cause, err = Wrapf "persist block height %d result: %w" [height] cause)).
Proof.
  unfold CommitBlock, exec. intros H.
  destruct (gobEncode _) as [aggSerial encErr].
  destruct (DBExec _ _ _) as [d [result|cause]].
  - destruct (RowsAffected result) as [n|cause].
    + destruct (ApplyOutboundQ _ _ _ _) as [l t]. destruct (ApplyFeeQ l t _ _) as [l' t'].
      discriminate.
    + injection H as <- <-. destruct encErr; repeat split; eauto.
  - injection H as <- <-. destruct encErr; repeat split; eauto.
Qed.

(** [Setup] on a [block_log] without rows: it returns height 0, the
    zero time and no hash, without an error; the zero track is the last
    block from then on, and the recorder is as it was. *)
Theorem Setup_empty_block_log (st : pkgState) d :
  DBQuery "SELECT height, timestamp, hash, agg_state FROM block_log ORDER BY height DESC LIMIT 1"
    [] (db st) = (d, Ok {| rows_data := []; rows_Err := None |}) →
  let r := Setup DBQuery gobDecode st in
  r.2 = (0, 0, [], None) ∧
  IsZero (r.2.1.1.2) = true ∧
  LastBlock r.1 = Returns (0, 0, []) ∧
  totals r.1 = totals st ∧
  db r.1 = d.
Proof.
  intros Hq. cbv zeta.
  assert (Hsel : "SELECT height, timestamp, hash, agg_state FROM block_log " +:+
                   (if 0 <? -1 then "WHERE height = " +:+ pretty (-1)
                    else "ORDER BY height DESC LIMIT 1") =
                 "SELECT height, timestamp, hash, agg_state FROM block_log ORDER BY height DESC LIMIT 1")
    by reflexivity.
  unfold Setup, loadBlockFromDB, query, logPrintf. cbn [db].
  rewrite Hsel, Hq. cbn [rows_data rows_Err].
  cbn [storeLastBlockTrack setRecorder totals lastBlockTrack agg Height Timestamp Hash zeroTrack
       AssetE8DepthPerPool RuneE8DepthPerPool assetE8DepthPerPool runeE8DepthPerPool
       fst snd LastBlock db].
  rewrite !(left_id_L ∅ (∪)). destruct (totals st). repeat split.
Qed.

(** A [Setup] that fails returns zero values with the error, and leaves
    the last block and the recorder as they were. *)
Theorem Setup_error_keeps_state (st st' : pkgState) h t hash err :
  Setup DBQuery gobDecode st = (st', (h, t, hash, Some err)) →
  h = 0 ∧ t = 0 ∧ hash = [] ∧
  lastBlockTrack st' = lastBlockTrack st ∧ totals st' = totals st.
Proof.
  unfold Setup, loadBlockFromDB, query, logPrintf. cbn [db]. intros H.
  destruct (DBQuery _ _ _) as [d [rows|e]].
  - destruct (rows_data rows) as [|cols rest].
    + destruct (rows_Err rows); [|discriminate].
      injection H as <- <- <- <- _. repeat split.
    + destruct (scanBlockLog cols) as [[[h' ns] hash'] aggSerial].
      destruct (gobDecode aggSerial); [discriminate|].
      injection H as <- <- <- <- _. repeat split.
  - injection H as <- <- <- <- _. repeat split.
Qed.

(** [time.Unix(0, t.UnixNano())] gives [t] back exactly for the
    instants whose Unix time in nanoseconds is an int64 value. *)
Lemma Unix_UnixNano t :
  Unix 0 (UnixNano t) = t ↔ is_int64 (t - unixToInternal * 1000000000).
Proof.
  unfold Unix, UnixNano. split.
  - intros H. pose proof (wrap64_range (t - unixToInternal * 1000000000)) as Hr.
    replace (t - unixToInternal * 1000000000)
      with (wrap64 (t - unixToInternal * 1000000000)) at 1 by lia. exact Hr.
  - intros H. rewrite (wrap64_id _ H). lia.
Qed.

(** The height, timestamp and hash of a commit come back from [Setup]
    after a restart: the timestamp is stored as Unix nanoseconds, so it
    comes back as given exactly when that count is an int64 value. *)
Theorem commit_restores_block height timestamp hash (st fresh : pkgState) d d' result n err :
  let snap := {| AssetE8DepthPerPool := assetE8DepthPerPool (totals st);
                 RuneE8DepthPerPool := runeE8DepthPerPool (totals st) |} in
  let aggSerial := (gobEncode snap).1 in
  (gobEncode snap).2 = None →
  gobDecode aggSerial = Ok snap →
  DBExec insertBlockLog
    [AInt height; AInt (UnixNano timestamp); ABytes hash; ABytes aggSerial] (db st) = (d, Ok result) →
  RowsAffected result = Ok n →
  DBQuery "SELECT height, timestamp, hash, agg_state FROM block_log ORDER BY height DESC LIMIT 1"
    [] (db fresh) =
    (d', Ok {| rows_data := [[AInt height; AInt (UnixNano timestamp); ABytes hash; ABytes aggSerial]];
               rows_Err := err |}) →
  totals fresh = {| assetE8DepthPerPool := ∅; runeE8DepthPerPool := ∅ |} →
  let committed := CommitBlock DBExec gobEncode ApplyOutboundQ ApplyFeeQ height timestamp hash st in
  let restored := Setup DBQuery gobDecode fresh in
  committed.2 = None ∧
  ∃ timestamp',
    restored.2 = (height, timestamp', hash, None) ∧
    LastBlock restored.1 = Returns (height, timestamp', hash) ∧
    (timestamp' = timestamp ↔ is_int64 (timestamp - unixToInternal * 1000000000)).
Proof.
  cbv zeta. intros Henc Hdec Hexec Hrows Hquery Hfresh.
  destruct (commit_restore_with_codec height timestamp hash st fresh d d' result n err
              Henc Hdec Hexec Hrows Hquery Hfresh) as (Hret & _ & Hres & _ & _ & Hlast).
  split; [exact Hret|]. exists (Unix 0 (UnixNano timestamp)).
  split; [exact Hres|]. split; [|apply Unix_UnixNano].
  revert Hres Hlast. unfold Setup.
  destruct (loadBlockFromDB DBQuery gobDecode (-1) fresh) as [st1 [track|e]]; [|discriminate].
  cbn [snd fst LastBlock lastBlockTrack setRecorder storeLastBlockTrack].
  intros Hres _. injection Hres as -> -> ->. reflexivity.
Qed.

(** [AssetAndRuneDepthsAtHeight] answers a failed load, like a height
    [block_log] has no row for, with empty maps and the zero time: the
    caller cannot tell a database error from a height without pools. *)
Theorem AssetAndRuneDepthsAtHeight_missing height (st : pkgState) d :
  0 < height →
  ((∃ err, DBQuery ("SELECT height, timestamp, hash, agg_state FROM block_log WHERE height = " +:+
                      pretty height) [] (db st) = (d, Err err)) ∨
   (∃ rowsErr, DBQuery ("SELECT height, timestamp, hash, agg_state FROM block_log WHERE height = " +:+
                          pretty height) [] (db st) =
                 (d, Ok {| rows_data := []; rows_Err := rowsErr |}))) →
  (AssetAndRuneDepthsAtHeight DBQuery gobDecode height st).2 = (∅, ∅, 0).
Proof.
  intros Hpos Hq. apply Z.ltb_lt in Hpos.
  assert (Hsel : "SELECT height, timestamp, hash, agg_state FROM block_log " +:+
                   ("WHERE height = " +:+ pretty height) =
                 "SELECT height, timestamp, hash, agg_state FROM block_log WHERE height = " +:+
                   pretty height) by reflexivity.
  unfold AssetAndRuneDepthsAtHeight, loadBlockFromDB, query, logPrintf. cbn [db].
  rewrite Hpos, Hsel.
  destruct Hq as [[err ->] | [rowsErr ->]]; [reflexivity|].
  cbn [rows_data rows_Err]. destruct rowsErr; reflexivity.
Qed.

(** ** What the lookups make of the rows *)

(** A row of two string columns. *)
Definition pairRow (kv : string * string) : list arg := [AStr kv.1; AStr kv.2].

(** A row of one string column. *)
Definition nameRow (name : string) : list arg := [AStr name].

Lemma scanPairs_rows wrap pairs :
  ∀ m, scanPairs wrap (pairRow <$> pairs) m = (list_to_map (reverse pairs) ∪ m, None).
Proof.
  induction pairs as [|[k v] pairs IH]; intros m.
  - simpl. rewrite (left_id_L ∅ (∪)). reflexivity.
  - change (scanPairs wrap (pairRow <$> (k, v) :: pairs) m)
      with (scanPairs wrap (pairRow <$> pairs) (<[k := v]> m)).
    rewrite IH, reverse_cons, list_to_map_app.
    cbn [list_to_map foldr uncurry]. rewrite insert_empty.
    rewrite insert_union_singleton_l, (assoc_L (∪)). reflexivity.
Qed.

Lemma scanNodes_rows names :
  ∀ m, scanNodes (nameRow <$> names) m =
       (gset_to_gmap "" (list_to_set names) ∪ m, None).
Proof.
  induction names as [|name names IH]; intros m.
  - simpl. rewrite gset_to_gmap_empty, (left_id_L ∅ (∪)). reflexivity.
  - change (scanNodes (nameRow <$> name :: names) m)
      with (scanNodes (nameRow <$> names) (<[name := ""]> m)).
    rewrite IH. f_equal. cbn [list_to_set]. rewrite gset_to_gmap_union_singleton.
    apply map_eq. intros k. rewrite !lookup_union.
    destruct (decide (k = name)) as [->|Hne].
    + rewrite !lookup_insert_eq.
      destruct (gset_to_gmap "" (list_to_set names) !! name) as [x|] eqn:Hx;
        [|destruct (m !! name); reflexivity].
      apply lookup_gset_to_gmap_Some in Hx. destruct Hx as [_ <-].
      destruct (m !! name); reflexivity.
    + rewrite !lookup_insert_ne by congruence. reflexivity.
Qed.

(** [Mimir] maps every name to the value of the last row that has the
    name, and returns with the map what [rows.Err()] reports. *)
Theorem Mimir_last_value_wins (st : pkgState) track moment instant d pairs rowsErr :
  lastBlockTrack st = Some track →
  resolveMoment moment (Timestamp track) = Some instant →
  DBQuery "SELECT name, value FROM set_mimir_event_entries WHERE block_timestamp <= $1"
    [AInt (UnixNano instant)] (db st) =
    (d, Ok {| rows_data := pairRow <$> pairs; rows_Err := rowsErr |}) →
  (Mimir DBQuery moment st).2 = Returns (list_to_map (reverse pairs), rowsErr) ∧
  ∀ before name value after,
    pairs = before ++ (name, value) :: after →
    (∀ kv, kv ∈ after → kv.1 ≠ name) →
    (list_to_map (reverse pairs) : gmap string string) !! name = Some value.
Proof.
  intros Htrack Hinstant Hq. split.
  - unfold Mimir, LastBlock, query. rewrite Htrack, Hinstant, Hq. cbn [rows_data rows_Err].
    rewrite scanPairs_rows, (right_id_L ∅ (∪)). reflexivity.
  - intros before name value after -> Hlater.
    rewrite reverse_app, reverse_cons, list_to_map_app, list_to_map_app, lookup_union.
    replace ((list_to_map (reverse after) ∪ list_to_map [(name, value)] : gmap string string) !! name)
      with (Some value).
    { destruct (list_to_map (reverse before) !! name); reflexivity. }
    rewrite lookup_union.
    replace ((list_to_map (reverse after) : gmap string string) !! name) with (@None string).
    { cbn [list_to_map foldr uncurry]. rewrite lookup_insert_eq. reflexivity. }
    symmetry. apply not_elem_of_list_to_map_1. intros Hin.
    apply list_elem_of_fmap in Hin. destruct Hin as (kv & Hk & Hin).
    rewrite elem_of_reverse in Hin. exact (Hlater kv Hin (eq_sym Hk)).
Qed.

(** [StatusPerNode] gives every new node a status: the current one of
    its last status row, the empty string when it has none; nodes with a
    status row and no new-node row are in the map as well. *)
Theorem StatusPerNode_new_nodes_default (st : pkgState) track moment instant d1 d2 names pairs rowsErr :
  lastBlockTrack st = Some track →
  resolveMoment moment (Timestamp track) = Some instant →
  DBQuery "SELECT node_addr FROM new_node_events WHERE block_timestamp <= $1"
    [AInt (UnixNano instant)] (db st) =
    (d1, Ok {| rows_data := nameRow <$> names; rows_Err := None |}) →
  DBQuery "SELECT node_addr, current FROM update_node_account_status_events WHERE block_timestamp <= $1"
    [AInt (UnixNano instant)] d1 =
    (d2, Ok {| rows_data := pairRow <$> pairs; rows_Err := rowsErr |}) →
  ∃ m,
    (StatusPerNode DBQuery moment st).2 = Returns (m, rowsErr) ∧
    ∀ node,
      m !! node =
      match (list_to_map (reverse pairs) : gmap string string) !! node with
      | Some status => Some status
      | None => if decide (node ∈ names) then Some "" else None
      end.
Proof.
  intros Htrack Hinstant Hq1 Hq2.
  exists (list_to_map (reverse pairs) ∪ gset_to_gmap "" (list_to_set names)). split.
  - unfold StatusPerNode, LastBlock, newNodes, query. rewrite Htrack, Hinstant, Hq1.
    cbn [rows_data rows_Err db]. rewrite scanNodes_rows. cbn [rows_Err db].
    rewrite Hq2. cbn [rows_data rows_Err]. rewrite scanPairs_rows, (right_id_L ∅ (∪)).
    reflexivity.
  - intros node. rewrite lookup_union, lookup_gset_to_gmap.
    destruct (list_to_map (reverse pairs) !! node) as [status|].
    + destruct (guard _); reflexivity.
    + destruct (decide (node ∈ names)) as [Hin|Hout].
      * rewrite option_guard_True by (apply elem_of_list_to_set; exact Hin). reflexivity.
      * rewrite option_guard_False by (rewrite elem_of_list_to_set; exact Hout). reflexivity.
Qed.

End PackageSpec.

(** C5 at the stand-in database, which holds height 7 already. *)
Lemma CommitBlock_already_committed_witness :
  let r := CommitBlock Fake.DBExec (Gob.Encode map_to_list) Fake.ApplyQ Fake.ApplyQ
             7 (Unix 1600000000 0) [7] Fake.running in
  r.2 = None ∧
  logged r.1 = [("block height %d already committed", [LInt 7])] ∧
  db r.1 = db Fake.running.
Proof.
  cbv zeta.
  pose proof (CommitBlock_already_committed Fake.DBExec (Gob.Encode map_to_list) Fake.ApplyQ Fake.ApplyQ
    7 (Unix 1600000000 0) [7] Fake.running (db Fake.running) {| RowsAffected := Ok 0 |}) as H.
  cbv zeta in H.
  destruct H as (Hret & Hlog & _ & _ & _ & Hdb).
  - vm_compute. reflexivity.
  - reflexivity.
  - split; [exact Hret|]. split; [exact Hlog | exact Hdb].
Defined.

(** C9 at the stand-in database: three rows, two of them under the key
    secpA. *)
Lemma NodesSecpAndEd_ed25519_keyed_by_secp_witness :
  ∃ st' edAddrs,
    NodesSecpAndEd Fake.DBQuery (Unix 1600000000 0) Fake.running =
      (st', (bySecp (Fake.set_node_keys_events (db Fake.running)) ∅, edAddrs, None)) ∧
    edAddrs = bySecp (Fake.set_node_keys_events (db Fake.running)) ∅.
Proof.
  destruct (NodesSecpAndEd_ed25519_keyed_by_secp Fake.DBQuery (Unix 1600000000 0) Fake.running
    (db Fake.running) (Fake.set_node_keys_events (db Fake.running)) None)
    as (st' & edAddrs & Hrun & Hed & _).
  - vm_compute. reflexivity.
  - exists st', edAddrs. split; [exact Hrun | exact Hed].
Defined.

(** C10 at the stand-in database, for a moment after the last block. *)
Lemma lookups_resolve_moment_witness :
  Pools Fake.DBQuery (Unix 1700000000 0) Fake.running =
    (Fake.running, Returns ([], Some errBeyondLast)) ∧
  Mimir Fake.DBQuery 0 Fake.running = Mimir Fake.DBQuery (Unix 1600000000 0) Fake.running.
Proof.
  pose proof (lookups_resolve_moment Fake.DBQuery Fake.running
    {| Height := 7; Timestamp := Unix 1600000000 0; Hash := [7];
       agg := {| AssetE8DepthPerPool := {["BNB.BNB" := 100]};
                 RuneE8DepthPerPool := {["BNB.BNB" := 1000]} |} |}
    "BNB.BNB" (Unix 1700000000 0) eq_refl) as Hlate.
  pose proof (lookups_resolve_moment Fake.DBQuery Fake.running
    {| Height := 7; Timestamp := Unix 1600000000 0; Hash := [7];
       agg := {| AssetE8DepthPerPool := {["BNB.BNB" := 100]};
                 RuneE8DepthPerPool := {["BNB.BNB" := 1000]} |} |}
    "BNB.BNB" 0 eq_refl) as Hzero.
  cbv zeta in Hlate, Hzero.
  split.
  - exact (proj1 (proj2 Hlate eq_refl eq_refl)).
  - exact (proj1 (proj2 (proj2 (proj2 (proj1 (proj1 Hzero eq_refl)))))).
Defined.

Lemma update_keeps_pool_ids_witness :
  let res := update Fake.DBExec
               {| assetE8DepthSnapshot := save ∅; runeE8DepthSnapshot := save ∅;
                  snapshotHeight := 7 |}
               {["BTC.BTC" := 0%nat]} (db Fake.running) 8
               {["BNB.BNB" := 100]} {["BNB.BNB" := 1000]} in
  uniqueIds (upd_poolIds res) ∧ ({["BTC.BTC" := 0%nat]} : gmap string nat) ⊆ upd_poolIds res.
Proof.
  cbv zeta.
  destruct (update_keeps_pool_ids Fake.DBExec
    {| assetE8DepthSnapshot := save ∅; runeE8DepthSnapshot := save ∅; snapshotHeight := 7 |}
    {["BTC.BTC" := 0%nat]} (db Fake.running) 8 {["BNB.BNB" := 100]} {["BNB.BNB" := 1000]})
    as (H1 & H2 & _).
  - split.
    + intros name id H. apply lookup_singleton_Some in H. destruct H as [_ <-].
      rewrite map_size_singleton. lia.
    + intros n1 n2 id H1 H2. apply lookup_singleton_Some in H1, H2.
      destruct H1 as [<- _], H2 as [<- _]. reflexivity.
  - split; [exact H1 | exact H2].
Defined.

Lemma CommitBlock_then_LastBlock_witness :
  let st' := (CommitBlock Fake.DBExec (Gob.Encode map_to_list) Fake.ApplyQ Fake.ApplyQ
                8 (Unix 1600000005 0) [8] Fake.running).1 in
  LastBlock st' = Returns (8, Unix 1600000005 0, [8]) ∧
  AssetAndRuneDepths st' =
    Returns (assetE8DepthPerPool (totals Fake.running), runeE8DepthPerPool (totals Fake.running),
             Unix 1600000005 0).
Proof.
  cbv zeta.
  apply (CommitBlock_then_LastBlock Fake.DBExec (Gob.Encode map_to_list) Fake.ApplyQ Fake.ApplyQ
           8 (Unix 1600000005 0) [8] Fake.running).
  vm_compute. reflexivity.
Defined.

Lemma CommitBlock_error_keeps_state_witness :
  let st' := (CommitBlock Fake.downExec (Gob.Encode map_to_list) Fake.ApplyQ Fake.ApplyQ
                8 (Unix 1600000005 0) [8] Fake.running).1 in
  lastBlockTrack st' = lastBlockTrack Fake.running ∧ totals st' = totals Fake.running.
Proof.
  cbv zeta.
  destruct (CommitBlock_error_keeps_state Fake.downExec (Gob.Encode map_to_list) Fake.ApplyQ Fake.ApplyQ
              8 (Unix 1600000005 0) [8] Fake.running
              (CommitBlock Fake.downExec (Gob.Encode map_to_list) Fake.ApplyQ Fake.ApplyQ
                 8 (Unix 1600000005 0) [8] Fake.running).1
              (Wrapf "persist block height %d: %w" [8] (errorString "connection refused")))
    as (H1 & H2 & _).
  - vm_compute. reflexivity.
  - split; [exact H1 | exact H2].
Defined.

Lemma Setup_empty_block_log_witness :
  let r := Setup Fake.DBQuery Gob.Decode Fake.fresh in
  r.2 = (0, 0, [], None) ∧ LastBlock r.1 = Returns (0, 0, []).
Proof.
  cbv zeta.
  destruct (Setup_empty_block_log Fake.DBQuery Gob.Decode Fake.fresh (db Fake.fresh))
    as (H1 & _ & H2 & _).
  - reflexivity.
  - split; [exact H1 | exact H2].
Defined.

Lemma Setup_error_keeps_state_witness :
  lastBlockTrack (Setup Fake.downQuery Gob.Decode Fake.running).1 = lastBlockTrack Fake.running.
Proof.
  destruct (Setup_error_keeps_state Fake.downQuery Gob.Decode Fake.running
              (Setup Fake.downQuery Gob.Decode Fake.running).1 0 0 []
              (Wrapf "last block lookup: %w" [] (errorString "connection refused")))
    as (_ & _ & _ & H & _).
  - vm_compute. reflexivity.
  - exact H.
Defined.

Lemma commit_restores_block_witness :
  let committed := CommitBlock Fake.DBExec (Gob.Encode map_to_list) Fake.ApplyQ Fake.ApplyQ
                     8 (Unix 1600000005 0) [8] Fake.running in
  let restored := Setup Fake.DBQuery Gob.Decode
                    {| totals := totals Fake.restarted; linked := tt; lastBlockTrack := None;
                       db := db committed.1; logged := []; issued := [] |} in
  committed.2 = None ∧
  ∃ timestamp',
    restored.2 = (8, timestamp', [8], None) ∧
    LastBlock restored.1 = Returns (8, timestamp', [8]) ∧
    (timestamp' = Unix 1600000005 0 ↔
     is_int64 (Unix 1600000005 0 - unixToInternal * 1000000000)).
Proof.
  cbv zeta.
  apply (commit_restores_block Fake.DBQuery Fake.DBExec (Gob.Encode map_to_list) Gob.Decode
    Fake.ApplyQ Fake.ApplyQ
    8 (Unix 1600000005 0) [8] Fake.running
    {| totals := totals Fake.restarted; linked := tt; lastBlockTrack := None;
       db := db (CommitBlock Fake.DBExec (Gob.Encode map_to_list) Fake.ApplyQ Fake.ApplyQ
                   8 (Unix 1600000005 0) [8] Fake.running).1;
       logged := []; issued := [] |}
    (db (CommitBlock Fake.DBExec (Gob.Encode map_to_list) Fake.ApplyQ Fake.ApplyQ
           8 (Unix 1600000005 0) [8] Fake.running).1)
    (db (CommitBlock Fake.DBExec (Gob.Encode map_to_list) Fake.ApplyQ Fake.ApplyQ
           8 (Unix 1600000005 0) [8] Fake.running).1)
    {| RowsAffected := Ok 1 |} 1 None).
  - reflexivity.
  - vm_compute. reflexivity.
  - vm_compute. reflexivity.
  - reflexivity.
  - vm_compute. reflexivity.
  - reflexivity.
Defined.

Lemma AssetAndRuneDepthsAtHeight_missing_witness :
  (AssetAndRuneDepthsAtHeight Fake.DBQuery Gob.Decode 9 Fake.running).2 = (∅, ∅, 0).
Proof.
  apply (AssetAndRuneDepthsAtHeight_missing Fake.DBQuery Gob.Decode 9 Fake.running (db Fake.running)).
  - lia.
  - right. exists None. reflexivity.
Defined.

Lemma Mimir_last_value_wins_witness :
  (Mimir Fake.eventTables 0 Fake.indexed).2 =
    Returns (list_to_map (reverse [("churn", "10"); ("emission", "3"); ("churn", "20")]), None) ∧
  (list_to_map (reverse [("churn", "10"); ("emission", "3"); ("churn", "20")])
     : gmap string string) !! "churn" = Some "20".
Proof.
  destruct (Mimir_last_value_wins Fake.eventTables Fake.indexed
    {| Height := 7; Timestamp := Unix 1600000000 0; Hash := [7];
       agg := {| AssetE8DepthPerPool := ∅; RuneE8DepthPerPool := ∅ |} |}
    0 (Unix 1600000000 0) tt
    [("churn", "10"); ("emission", "3"); ("churn", "20")] None) as [H1 H2].
  - reflexivity.
  - reflexivity.
  - reflexivity.
  - split; [exact H1|].
    apply (H2 [("churn", "10"); ("emission", "3")] "churn" "20" []); [reflexivity|].
    intros kv Hkv. by apply not_elem_of_nil in Hkv.
Defined.

Lemma StatusPerNode_new_nodes_default_witness :
  ∃ m,
    (StatusPerNode Fake.eventTables 0 Fake.indexed).2 = Returns (m, None) ∧
    m !! "thor1a" = Some "active" ∧ m !! "thor1b" = Some "" ∧ m !! "thor1c" = Some "active".
Proof.
  destruct (StatusPerNode_new_nodes_default Fake.eventTables Fake.indexed
    {| Height := 7; Timestamp := Unix 1600000000 0; Hash := [7];
       agg := {| AssetE8DepthPerPool := ∅; RuneE8DepthPerPool := ∅ |} |}
    0 (Unix 1600000000 0) tt tt ["thor1a"; "thor1b"]
    [("thor1a", "standby"); ("thor1c", "active"); ("thor1a", "active")] None)
    as (m & Hrun & Hm).
  - reflexivity.
  - reflexivity.
  - reflexivity.
  - reflexivity.
  - exists m. split; [exact Hrun|]. rewrite !Hm. repeat split; vm_compute; reflexivity.
Defined.

(** C3. Let the recorder hold int64 depths (and keys and pools in
    numbers gob can count), and let gob write the value of the state as
    its wire format says, ranging over the maps in any order. Take a
    database that keeps what it is given: the insert into [block_log]
    goes through whatever the bytes of [agg_state] are, and the last
    row then reads back with these bytes. Then [CommitBlock] returns
    nil and leaves the database with a row whose [agg_state] decodes to
    the state of the recorder; and from that database, after a restart
    with an empty recorder, [loadBlockFromDB] decodes the row and
    [Setup] leaves the recorder and the last block with depth maps equal
    to the ones committed. *)
Theorem agg_state_round_trip {DB linkedEvents : Type}
    (DBQuery : string → list arg → DB → DB * result sqlRows)
    (DBExec : string → list arg → DB → DB * result sqlResult)
    (ApplyOutboundQ ApplyFeeQ : linkedEvents → runningTotals → Z → Time → linkedEvents * runningTotals)
    (order : gmap string Z → list (string * Z))
    height timestamp hash (st fresh : @pkgState DB linkedEvents)
    (stored read : list Z → DB) result n err :
  let snap := {| AssetE8DepthPerPool := assetE8DepthPerPool (totals st);
                 RuneE8DepthPerPool := runeE8DepthPerPool (totals st) |} in
  (∀ m, order m ≡ₚ map_to_list m) →
  GobSpec.recordable snap →
  (∀ aggSerial,
     DBExec insertBlockLog
       [AInt height; AInt (UnixNano timestamp); ABytes hash; ABytes aggSerial] (db st) =
       (stored aggSerial, Ok result)) →
  RowsAffected result = Ok n →
  (∀ aggSerial,
     DBQuery "SELECT height, timestamp, hash, agg_state FROM block_log ORDER BY height DESC LIMIT 1"
       [] (stored aggSerial) =
       (read aggSerial,
        Ok {| rows_data := [[AInt height; AInt (UnixNano timestamp); ABytes hash; ABytes aggSerial]];
              rows_Err := err |})) →
  let committed :=
    CommitBlock DBExec (Gob.Encode order) ApplyOutboundQ ApplyFeeQ height timestamp hash st in
  db fresh = db committed.1 →
  totals fresh = {| assetE8DepthPerPool := ∅; runeE8DepthPerPool := ∅ |} →
  let restored := Setup DBQuery Gob.Decode fresh in
  committed.2 = None ∧
  agg <$> lastBlockTrack committed.1 = Some snap ∧
  (∃ aggSerial, db committed.1 = stored aggSerial ∧ Gob.Decode aggSerial = Ok snap) ∧
  restored.2 = (height, Unix 0 (UnixNano timestamp), hash, None) ∧
  assetE8DepthPerPool (totals restored.1) = assetE8DepthPerPool (totals st) ∧
  runeE8DepthPerPool (totals restored.1) = runeE8DepthPerPool (totals st) ∧
  agg <$> lastBlockTrack restored.1 = Some snap.
Proof.
  cbv zeta. intros Horder Hrec Hexec Hrows Hquery Hdb Hfresh.
  destruct (GobSpec.Decode_Encode order _ Horder Hrec) as [Henc Hdec].
  assert (Hstored :
    db (CommitBlock DBExec (Gob.Encode order) ApplyOutboundQ ApplyFeeQ height timestamp hash st).1 =
    stored (Gob.Encode order
              {| AssetE8DepthPerPool := assetE8DepthPerPool (totals st);
                 RuneE8DepthPerPool := runeE8DepthPerPool (totals st) |}).1).
  { unfold CommitBlock, exec. cbn [agg].
    destruct (Gob.Encode order _) as [aggSerial encErr]. cbn [fst snd] in Henc |- *. subst encErr.
    rewrite Hexec, Hrows.
    destruct (ApplyOutboundQ _ _ _ _) as [l t]. destruct (ApplyFeeQ l t _ _) as [l' t'].
    destruct (n =? 0); reflexivity. }
  rewrite Hstored in Hdb.
  pose proof (Hquery (Gob.Encode order
              {| AssetE8DepthPerPool := assetE8DepthPerPool (totals st);
                 RuneE8DepthPerPool := runeE8DepthPerPool (totals st) |}).1) as Hread.
  rewrite <- Hdb in Hread.
  destruct (commit_restore_with_codec DBQuery DBExec (Gob.Encode order) Gob.Decode
              ApplyOutboundQ ApplyFeeQ height timestamp hash st fresh _ _ result n err
              Henc Hdec (Hexec _) Hrows Hread Hfresh)
    as (Hret & Htrack & Hrestored & Hasset & Hrune & Hlast).
  split; [exact Hret|]. split; [exact Htrack|].
  split; [eexists; split; [exact Hstored | exact Hdec]|].
  split; [exact Hrestored|]. split; [exact Hasset|]. split; [exact Hrune | exact Hlast].
Qed.

(** C3 at the stand-in database: the state of the running process is
    committed for height 8, and restored by the process restarted on
    the database the commit left. *)
Lemma agg_state_round_trip_witness :
  let committed := CommitBlock Fake.DBExec (Gob.Encode map_to_list) Fake.ApplyQ Fake.ApplyQ
                     8 (Unix 1600000005 0) [8] Fake.running in
  let restored := Setup Fake.DBQuery Gob.Decode
                    {| totals := totals Fake.restarted; linked := tt; lastBlockTrack := None;
                       db := db committed.1; logged := []; issued := [] |} in
  committed.2 = None ∧
  assetE8DepthPerPool (totals restored.1) = {["BNB.BNB" := 100]} ∧
  runeE8DepthPerPool (totals restored.1) = {["BNB.BNB" := 1000]}.
Proof.
  cbv zeta.
  pose proof (agg_state_round_trip Fake.DBQuery Fake.DBExec Fake.ApplyQ Fake.ApplyQ map_to_list
    8 (Unix 1600000005 0) [8] Fake.running
    {| totals := totals Fake.restarted; linked := tt; lastBlockTrack := None;
       db := db (CommitBlock Fake.DBExec (Gob.Encode map_to_list) Fake.ApplyQ Fake.ApplyQ
                   8 (Unix 1600000005 0) [8] Fake.running).1;
       logged := []; issued := [] |}
    (λ aggSerial,
       {| Fake.block_log :=
            Fake.block_log (db Fake.running) ++ [(8, 1600000005000000000, [8], aggSerial)];
          Fake.set_node_keys_events := Fake.set_node_keys_events (db Fake.running) |})
    (λ aggSerial,
       {| Fake.block_log :=
            Fake.block_log (db Fake.running) ++ [(8, 1600000005000000000, [8], aggSerial)];
          Fake.set_node_keys_events := Fake.set_node_keys_events (db Fake.running) |})
    {| RowsAffected := Ok 1 |} 1 None) as H.
  cbv zeta in H.
  destruct H as (Hret & _ & _ & _ & Hasset & Hrune & _).
  - reflexivity.
  - unfold GobSpec.recordable, GobSpec.sendable.
    cbv [Fake.running totals assetE8DepthPerPool runeE8DepthPerPool
         AssetE8DepthPerPool RuneE8DepthPerPool].
    rewrite !map_to_list_singleton, !Forall_singleton.
    unfold is_int64, int64_min, int64_max. simpl. lia.
  - intros aggSerial. reflexivity.
  - reflexivity.
  - intros aggSerial. reflexivity.
  - reflexivity.
  - reflexivity.
  - split; [exact Hret|]. split; [exact Hasset | exact Hrune].
Defined.

End TimeseriesSpec.

(* ===================================================================== *)
(** * Properties of package chain *)
(* ===================================================================== *)

Module ChainSpec.

Import Tendermint Chain.

(** Every height of the list is below the one before it. *)
Definition descending (heights : list Z) : Prop :=
  ∀ i previous height,
    heights !! i = Some previous → heights !! S i = Some height → height < previous.

Lemma descending_cons p hs : descending (p :: hs) → descending hs.
Proof. intros H i a b Ha Hb. exact (H (S i) a b Ha Hb). Qed.

Lemma descendingBreak_None heights : descendingBreak heights = None ↔ descending heights.
Proof.
  induction heights as [|p [|h rest] IH]; simpl.
  - split; [|reflexivity]. intros _ i a b Ha. discriminate.
  - split; [|reflexivity]. intros _ [|i] a b Ha Hb; discriminate.
  - destruct (Z.geb_spec h p) as [Hge|Hlt].
    + split; [discriminate|]. intros H. specialize (H 0%nat p h eq_refl eq_refl). lia.
    + rewrite IH. split.
      * intros H [|i] a b Ha Hb.
        -- simpl in Ha, Hb. injection Ha as <-. injection Hb as <-. lia.
        -- exact (H i a b Ha Hb).
      * apply descending_cons.
Qed.

Lemma last_cons (x : Z) l d : List.last (x :: l) d = List.last l x.
Proof.
  revert x d. induction l as [|y l IH]; intros x d; [reflexivity|].
  change (List.last (x :: y :: l) d) with (List.last (y :: l) d).
  rewrite (IH y d). symmetry. apply IH.
Qed.

(** In a descending list every height lies between the last and the
    first. *)
Lemma descending_bounds first rest h :
  descending (first :: rest) → h ∈ first :: rest → List.last rest first ≤ h ≤ first.
Proof.
  revert first h. induction rest as [|x rest IH]; intros first h Hd Hin.
  - apply list_elem_of_singleton in Hin. subst. simpl. lia.
  - pose proof (Hd 0%nat first x eq_refl eq_refl) as Hx.
    rewrite last_cons.
    apply elem_of_cons in Hin. destruct Hin as [->|Hin].
    + specialize (IH x x (descending_cons _ _ Hd) ltac:(left)). lia.
    + specialize (IH x h (descending_cons _ _ Hd) Hin). lia.
Qed.

Lemma last_fmap_height (metas : list BlockMeta) first :
  Header_Height (List.last metas first) = List.last (Header_Height <$> metas) (Header_Height first).
Proof.
  revert first. induction metas as [|m metas IH]; intros first; [reflexivity|].
  destruct metas as [|m' metas]; [reflexivity|]. exact (IH first).
Qed.

Lemma responseMismatch_None blocks :
  responseMismatch blocks = None ↔
  ∀ i b, blocks !! i = Some b → Height (Results b) = Block_Height b.
Proof.
  induction blocks as [|b blocks IH]; simpl.
  - split; [|reflexivity]. intros _ i b Hb. discriminate.
  - destruct (Z.eqb_spec (Height (Results b)) (Block_Height b)) as [Heq|Hne]; simpl.
    + rewrite IH. split.
      * intros H [|i] b' Hb'; [injection Hb' as <-; exact Heq | exact (H i b' Hb')].
      * intros H i b' Hb'. exact (H (S i) b' Hb').
    + split; [discriminate|]. intros H. destruct Hne. exact (H 0%nat b eq_refl).
Qed.

(** ** What [Follow] does guarantee: ascending heights *)

(** Every height is at least [lo] and above the one before it. *)
Fixpoint ascendingFrom (lo : Z) (heights : list Z) : Prop :=
  match heights with
  | [] => True
  | h :: rest => lo ≤ h ∧ ascendingFrom (h + 1) rest
  end.

(** The height after the last of the list, [lo] for the empty list. *)
Definition cursor (lo : Z) (heights : list Z) : Z :=
  fold_left (λ _ h, h + 1) heights lo.

Lemma cursor_snoc lo heights h : cursor lo (heights ++ [h]) = h + 1.
Proof. unfold cursor. rewrite fold_left_app. reflexivity. Qed.

Lemma cursor_app lo hs1 hs2 : cursor lo (hs1 ++ hs2) = cursor (cursor lo hs1) hs2.
Proof. unfold cursor. apply fold_left_app. Qed.

Lemma ascendingFrom_app hs1 : ∀ lo hs2,
  ascendingFrom lo (hs1 ++ hs2) ↔ ascendingFrom lo hs1 ∧ ascendingFrom (cursor lo hs1) hs2.
Proof.
  induction hs1 as [|h hs1 IH]; intros lo hs2; simpl.
  - unfold cursor. simpl. tauto.
  - rewrite IH. unfold cursor. simpl. tauto.
Qed.

Lemma ascendingFrom_weaken heights : ∀ lo lo',
  lo' ≤ lo → ascendingFrom lo heights → ascendingFrom lo' heights.
Proof. destruct heights as [|h rest]; simpl; intros lo lo' Hle; [tauto | intros [? ?]; split; [lia | assumption]]. Qed.

(** A descending list, read from its end, ascends. *)
Lemma descending_reverse_ascending heights lo :
  descending heights → (∀ h, h ∈ heights → lo ≤ h) → ascendingFrom lo (reverse heights).
Proof.
  induction heights as [|p heights IH]; intros Hd Hlo; [exact I|].
  rewrite reverse_cons. apply ascendingFrom_app. split.
  - apply IH; [exact (descending_cons _ _ Hd)|]. intros h Hh. apply Hlo. right. exact Hh.
  - simpl. split; [|exact I].
    destruct heights as [|h heights].
    + unfold cursor. simpl. apply Hlo. left.
    + rewrite reverse_cons, cursor_snoc.
      pose proof (Hd 0%nat p h eq_refl eq_refl). lia.
Qed.

(** The block [fetchBlocks] sets up for a metadata entry. *)
Definition blockOf (meta : BlockMeta) : Block :=
  {| Block_Height := Header_Height meta; Block_Time := Header_Time meta;
     Block_Hash := BlockID_Hash meta; Results := zeroResults |}.

Lemma fillResults_heights batch : ∀ results,
  Block_Height <$> fillResults batch results = Block_Height <$> batch.
Proof.
  induction batch as [|b batch IH]; intros [|r results]; try reflexivity.
  simpl. f_equal. apply IH.
Qed.

Section FollowSpec.

Context {W : Type}.
Variable c : Client W.
Variable quit : W → W * bool.

(** An error of [fetchBlocks] ends [Follow] at once, with that error
    and the offset of the failed call. *)
Lemma followLoop_fetch_error fuel status batch offset st w' batch' n e :
  (offset >? LatestBlockHeight status) = false →
  fetchBlocks c batch offset (world st) = (w', Returns (batch', n, Some e)) →
  followLoop c quit (S fuel) status batch offset st =
    ({| sent := sent st; cursorHeight := cursorHeight st; nodeHeight := nodeHeight st;
        world := w' |}, Return offset (Some e)).
Proof. intros Hpoll Hfetch. simpl. rewrite Hpoll, Hfetch. reflexivity. Qed.

(** The answers of the node that [fetchBlocks] must refuse: a metadata
    list out of descending order, a height outside
    [offset, offset+19], or, once the batch went out, results of
    another height than the one requested. *)
Definition refusable (batch : list Block) (offset : Z) (w1 : W) (metas : list BlockMeta) : Prop :=
  let heights := Header_Height <$> metas in
  ¬ descending heights ∨
  (∃ h, h ∈ heights ∧ ¬ (offset ≤ h ≤ offset + 19)) ∨
  (∃ w2 batch2 n w3 results i b,
     setupBlocks c (reverse metas) batch 0 w1 = (w2, Returns (batch2, n, None)) ∧
     signClientTrigger c w2 = (w3, Ok results) ∧
     take n (fillResults batch2 results) !! i = Some b ∧
     Height (Results b) ≠ Block_Height b).

(** C4. On a batch of 20 blocks, when [BlockchainInfo] answers with a
    metadata list that is not strictly descending, or holds a height
    outside [offset, offset+19], or when a result of the batch is of
    another height than the one requested, [fetchBlocks] returns an
    error and n = 0; a run of [Follow] that makes this call returns the
    error with the offset of the call, sends nothing further and calls
    the node no more. *)
Theorem fetchBlocks_validation_fatal batch offset w w1 metas :
  length batch = 20%nat →
  is_int64 offset →
  Forall is_int64 (Header_Height <$> metas) →
  historyClient_BlockchainInfo c offset (wrap64 (offset + 19)) w = (w1, Ok metas) →
  refusable batch offset w1 metas →
  ∃ w' batch' e,
    fetchBlocks c batch offset w = (w', Returns (batch', 0%nat, Some e)) ∧
    ∀ fuel status st,
      world st = w → (offset >? LatestBlockHeight status) = false →
      followLoop c quit (S fuel) status batch offset st =
        ({| sent := sent st; cursorHeight := cursorHeight st; nodeHeight := nodeHeight st;
            world := w' |}, Return offset (Some e)).
Proof.
  intros Hlen Hoff Hint Hinfo Hbad.
  assert (Hfetch : ∃ w' batch' e,
    fetchBlocks c batch offset w = (w', Returns (batch', 0%nat, Some e))).
  { unfold fetchBlocks. rewrite Hlen.
    change (wrap64 (Z.of_nat 20 - 1)) with 19. rewrite Hinfo.
    destruct metas as [|first rest].
    { exfalso. destruct Hbad as [Hd|[(h & Hin & _)|Hm]].
      - apply Hd. intros i p h Hp. discriminate.
      - simpl in Hin. by apply not_elem_of_nil in Hin.
      - destruct Hm as (w2 & batch2 & n & w3 & results & i & b & Hs & _ & Hi & _).
        simpl in Hs. injection Hs as _ _ <-. rewrite take_0 in Hi. discriminate. }
    destruct (descendingBreak (Header_Height <$> first :: rest)) as [[previous height]|] eqn:Hbreak;
      [eauto|].
    apply descendingBreak_None in Hbreak.
    destruct ((Header_Height first >? wrap64 (offset + 19)) ||
              (Header_Height (List.last (first :: rest) first) <? offset)) eqn:Hrange; [eauto|].
    apply orb_false_iff in Hrange. destruct Hrange as [Hhigh Hlow].
    rewrite Z.gtb_ltb in Hhigh. apply Z.ltb_ge in Hhigh. apply Z.ltb_ge in Hlow.
    rewrite last_fmap_height in Hlow.
    destruct Hbad as [Hd|[(h & Hin & Hout)|Hm]].
    - destruct (Hd Hbreak).
    - exfalso. apply Hout.
      change (Header_Height <$> first :: rest)
        with (Header_Height first :: (Header_Height <$> rest)) in Hlow, Hbreak, Hin.
      rewrite last_cons in Hlow.
      pose proof (descending_bounds (Header_Height first) (Header_Height <$> rest) h Hbreak Hin)
        as Hb.
      rewrite Forall_forall in Hint. specialize (Hint h Hin).
      unfold is_int64, int64_min, int64_max in *.
      destruct (Z.le_gt_cases (offset + 19) (2 ^ 63 - 1)) as [Hfit|Hwrap].
      + rewrite wrap64_id in Hhigh by (unfold is_int64, int64_min, int64_max; lia). lia.
      + lia.
    - destruct Hm as (w2 & batch2 & n & w3 & results & i & b & Hs & Ht & Hi & Hne).
      rewrite Hs, Ht.
      destruct (responseMismatch (take n (fillResults batch2 results)))
        as [[requested got]|] eqn:Hmis; [eauto|].
      exfalso. apply Hne. exact (proj1 (responseMismatch_None _) Hmis i b Hi). }
  destruct Hfetch as (w' & batch' & e & Hfetch).
  exists w', batch', e. split; [exact Hfetch|].
  intros fuel status st <- Hpoll.
  exact (followLoop_fetch_error fuel status batch offset st w' batch' 0%nat e Hpoll Hfetch).
Qed.

(** The set-up loop fills [batch] from index [k] on with the blocks of
    the metadata entries. *)
Lemma setupBlocks_take metas : ∀ batch k w w' batch' n,
  setupBlocks c metas batch k w = (w', Returns (batch', n, None)) →
  n = (k + length metas)%nat ∧ take n batch' = take k batch ++ (blockOf <$> metas).
Proof.
  induction metas as [|meta metas IH]; intros batch k w w' batch' n H; simpl in H.
  - injection H as _ <- <-. rewrite Nat.add_0_r, app_nil_r. split; reflexivity.
  - destruct (Nat.leb_spec (length batch) k) as [|Hlt]; [discriminate|].
    destruct (signClient_BlockResults c (Header_Height meta) w) as [w1 [err|]]; [discriminate|].
    apply IH in H. destruct H as [-> Htake]. split; [simpl; lia|].
    rewrite Htake.
    rewrite (take_S_r _ _ (blockOf meta)) by (apply list_lookup_insert_eq; exact Hlt).
    rewrite take_insert_ge by lia. rewrite <- app_assoc. reflexivity.
Qed.

(** A successful [fetchBlocks] with n > 0 leaves in [batch[:n]] heights
    that ascend from the offset and are int64 values. *)
Lemma fetchBlocks_ascending batch offset w w' batch' n :
  fetchBlocks c batch offset w = (w', Returns (batch', n, None)) →
  n ≠ 0%nat →
  ascendingFrom offset (Block_Height <$> take n batch') ∧
  ∀ h, h ∈ Block_Height <$> take n batch' → h ≤ int64_max.
Proof.
  unfold fetchBlocks. intros H Hn.
  destruct (historyClient_BlockchainInfo c offset _ w) as [w1 [metas|err]]; [|discriminate].
  destruct metas as [|first rest]; [injection H as _ _ <-; done|].
  destruct (descendingBreak _) as [[previous height]|] eqn:Hbreak; [discriminate|].
  apply descendingBreak_None in Hbreak.
  destruct ((Header_Height first >? _) || (_ <? offset)) eqn:Hrange; [discriminate|].
  apply orb_false_iff in Hrange. destruct Hrange as [Hhigh Hlow].
  rewrite Z.gtb_ltb in Hhigh. apply Z.ltb_ge in Hhigh. apply Z.ltb_ge in Hlow.
  rewrite last_fmap_height in Hlow.
  change (Header_Height <$> first :: rest)
    with (Header_Height first :: (Header_Height <$> rest)) in Hlow, Hbreak.
  rewrite last_cons in Hlow.
  destruct (setupBlocks c (reverse (first :: rest)) batch 0 w1)
    as [w2 [[[batch2 n2] [err|]]|why]] eqn:Hsetup; try discriminate.
  destruct (signClientTrigger c w2) as [w3 [results|err]]; [|discriminate].
  destruct (responseMismatch _) as [[requested got]|]; [discriminate|].
  injection H as _ <- <-.
  apply setupBlocks_take in Hsetup. destruct Hsetup as [_ Htake]. simpl in Htake.
  assert (Hheights : Block_Height <$> take n2 (fillResults batch2 results) =
                     reverse (Header_Height first :: (Header_Height <$> rest))).
  { rewrite fmap_take, fillResults_heights, <- fmap_take, Htake, <- list_fmap_compose.
    change (Header_Height <$> first :: rest) with (Header_Height <$> (first :: rest)).
    rewrite fmap_reverse. reflexivity. }
  rewrite Hheights. split.
  - apply descending_reverse_ascending; [exact Hbreak|].
    intros h Hh. pose proof (descending_bounds _ _ h Hbreak Hh). lia.
  - intros h Hh. rewrite elem_of_reverse in Hh.
    pose proof (descending_bounds _ _ h Hbreak Hh).
    pose proof (wrap64_range (offset + wrap64 (Z.of_nat (length batch) - 1))) as [_ Hmax].
    lia.
Qed.

(** The submit loop sends a prefix of the blocks, all of them unless
    quit fires, and leaves the cursor after the last block sent; a return
    on quit carries that cursor and no error. *)
Lemma submit_sends blocks : ∀ offset st st' offset' ended,
  submit quit blocks offset st = (st', offset', ended) →
  ∃ k,
    sent st' = sent st ++ take k blocks ∧
    offset' = fold_left (λ _ b, wrap64 (Block_Height b + 1)) (take k blocks) offset ∧
    (ended = None ∨ ended = Some (Return offset' None)).
Proof.
  induction blocks as [|b blocks IH]; intros offset st st' offset' ended H; simpl in H.
  - injection H as <- <- <-. exists 0%nat. rewrite app_nil_r. auto.
  - destruct (quit (world st)) as [w [|]].
    + injection H as <- <- <-. exists 0%nat. simpl. rewrite app_nil_r. auto.
    + apply IH in H. destruct H as (k & Hsent & Hoff & Hend). exists (S k).
      simpl in *. rewrite Hsent, <- app_assoc. auto.
Qed.

Lemma wrap_cursor heights : ∀ offset,
  is_int64 offset →
  ascendingFrom offset heights →
  (∀ h, h ∈ heights → h < int64_max) →
  fold_left (λ _ h, wrap64 (h + 1)) heights offset = cursor offset heights ∧
  is_int64 (cursor offset heights).
Proof.
  induction heights as [|h heights IH]; intros offset Hoff Hasc Hmax.
  - split; [reflexivity | exact Hoff].
  - destruct Hasc as [Hle Hasc].
    assert (Hh : is_int64 (h + 1)).
    { pose proof (Hmax h ltac:(left)). unfold is_int64, int64_min, int64_max in *. lia. }
    unfold cursor. cbn [fold_left]. rewrite (wrap64_id _ Hh).
    apply IH; [exact Hh | exact Hasc |]. intros h' Hh'. apply Hmax. right. exact Hh'.
Qed.

Lemma ascendingFrom_take heights : ∀ lo k,
  ascendingFrom lo heights → ascendingFrom lo (take k heights).
Proof.
  induction heights as [|h heights IH]; intros lo [|k]; simpl; try tauto.
  intros [? ?]. split; [assumption | apply IH; assumption].
Qed.

Lemma fold_left_heights blocks : ∀ offset,
  fold_left (λ _ b, wrap64 (Block_Height b + 1)) blocks offset =
  fold_left (λ _ h, wrap64 (h + 1)) (Block_Height <$> blocks) offset.
Proof. induction blocks as [|b blocks IH]; intros offset; [reflexivity | apply IH]. Qed.

(** What holds of a run from [start]: the heights sent ascend from
    [start] and the cursor is the height after the last one sent;
    unless the greatest int64 height was sent, after which the cursor
    wraps around. *)
Definition onCourse (start offset : Z) (blocks : list Block) : Prop :=
  let heights := Block_Height <$> blocks in
  int64_max ∈ heights ∨
  (ascendingFrom start heights ∧ offset = cursor start heights ∧ is_int64 offset).

Definition endsOnCourse (start : Z) (blocks : list Block) (ended : followEnd) : Prop :=
  let heights := Block_Height <$> blocks in
  int64_max ∈ heights ∨
  (ascendingFrom start heights ∧
   ∀ height err, ended = Return height err → height = cursor start heights).

Lemma onCourse_return start offset blocks err :
  onCourse start offset blocks → endsOnCourse start blocks (Return offset err).
Proof.
  intros [Hmax|(Hasc & Hcur & _)]; [left; exact Hmax|].
  right. split; [exact Hasc|]. intros height err' Heq. injection Heq as <- _. exact Hcur.
Qed.

Lemma onCourse_no_return start offset blocks ended :
  onCourse start offset blocks → (∀ height err, ended ≠ Return height err) →
  endsOnCourse start blocks ended.
Proof.
  intros [Hmax|(Hasc & _)] Hno; [left; exact Hmax|].
  right. split; [exact Hasc|]. intros height err Heq. destruct (Hno _ _ Heq).
Qed.

(** One fetch and the submit loop after it keep the run on course. *)
Lemma submit_onCourse start batch offset w w1 batch1 n st st2 offset2 ended :
  onCourse start offset (sent st) →
  fetchBlocks c batch offset w = (w1, Returns (batch1, n, None)) →
  n ≠ 0%nat →
  submit quit (take n batch1) offset st = (st2, offset2, ended) →
  onCourse start offset2 (sent st2) ∧
  ∀ e, ended = Some e → endsOnCourse start (sent st2) e.
Proof.
  intros Hinv Hfetch Hn Hsub.
  apply submit_sends in Hsub. destruct Hsub as (k & Hsent & Hoff & Hend).
  assert (Hboth : onCourse start offset2 (sent st2)); [|split; [exact Hboth|]].
  - unfold onCourse. rewrite Hsent, fmap_app.
    destruct Hinv as [Hmax|(Hasc & Hcur & Hint)]; [left; apply elem_of_app; left; exact Hmax|].
    destruct (fetchBlocks_ascending _ _ _ _ _ _ Hfetch Hn) as [Hnew Hle].
    set (heights := Block_Height <$> take k (take n batch1)).
    destruct (decide (int64_max ∈ heights)) as [Hin|Hout];
      [left; apply elem_of_app; right; exact Hin|].
    right.
    assert (Hprefix : heights = take k (Block_Height <$> take n batch1))
      by apply fmap_take.
    assert (Hasc' : ascendingFrom offset heights)
      by (rewrite Hprefix; apply ascendingFrom_take; exact Hnew).
    assert (Hlt : ∀ h, h ∈ heights → h < int64_max).
    { intros h Hh. assert (h ≠ int64_max) by (intros ->; exact (Hout Hh)).
      rewrite Hprefix in Hh. apply subseteq_take in Hh. apply Hle in Hh. lia. }
    destruct (wrap_cursor heights offset Hint Hasc' Hlt) as [Hwrap Hint'].
    rewrite fold_left_heights in Hoff. fold heights in Hoff. rewrite Hwrap in Hoff.
    rewrite cursor_app, <- Hcur. split; [|split; [exact Hoff | rewrite Hoff; exact Hint']].
    apply ascendingFrom_app. rewrite <- Hcur. split; assumption.
  - intros e He. destruct Hend as [->| ->]; [discriminate|].
    injection He as <-. apply (onCourse_return _ _ _ _ Hboth).
Qed.

Lemma followLoop_onCourse start fuel : ∀ status batch offset st st' ended,
  onCourse start offset (sent st) →
  followLoop c quit fuel status batch offset st = (st', ended) →
  endsOnCourse start (sent st') ended.
Proof.
  induction fuel as [|fuel IH]; intros status batch offset st st' ended Hinv H.
  { injection H as <- <-. apply (onCourse_no_return _ _ _ _ Hinv). discriminate. }
  assert (Hfetch : ∀ status st0, sent st0 = sent st →
    match fetchBlocks c batch offset (world st0) with
    | (w, Panics why) =>
      ({| sent := sent st0; cursorHeight := cursorHeight st0; nodeHeight := nodeHeight st0; world := w |},
       Panic why)
    | (w, Returns (batch, n, Some err)) =>
      ({| sent := sent st0; cursorHeight := cursorHeight st0; nodeHeight := nodeHeight st0; world := w |},
       Return offset (Some err))
    | (w, Returns (batch, n, None)) =>
      let st := {| sent := sent st0; cursorHeight := cursorHeight st0;
                   nodeHeight := nodeHeight st0; world := w |} in
      if (n =? 0)%nat then
        match quit (world st) with
        | (w, true) =>
          ({| sent := sent st; cursorHeight := cursorHeight st; nodeHeight := nodeHeight st; world := w |},
           Return offset (Some ErrNoData))
        | (w, false) =>
          followLoop c quit fuel status batch offset
            {| sent := sent st; cursorHeight := cursorHeight st; nodeHeight := nodeHeight st; world := w |}
        end
      else
        match submit quit (take n batch) offset st with
        | (st, offset, Some ended) => (st, ended)
        | (st, offset, None) => followLoop c quit fuel status batch offset st
        end
    end = (st', ended) → endsOnCourse start (sent st') ended).
  { intros status0 st0 Hsame H0. rewrite <- Hsame in Hinv.
    destruct (fetchBlocks c batch offset (world st0)) as [w1 [[[batch1 n] [err|]]|why]] eqn:Hf.
    - injection H0 as <- <-. apply (onCourse_return _ _ _ _ Hinv).
    - cbv beta iota zeta in H0. destruct (Nat.eqb_spec n 0) as [->|Hn].
      + cbn [world sent cursorHeight nodeHeight] in H0. destruct (quit w1) as [w2 [|]].
        * injection H0 as <- <-. apply (onCourse_return _ _ _ _ Hinv).
        * apply IH in H0; [exact H0 | exact Hinv].
      + destruct (submit quit (take n batch1) offset _) as [[st2 offset2] ended2] eqn:Hsub.
        destruct (submit_onCourse start _ _ _ _ _ _ _ _ _ _ (Hinv : onCourse start offset (sent {| sent := sent st0; cursorHeight := cursorHeight st0; nodeHeight := nodeHeight st0; world := w1 |})) Hf Hn Hsub)
          as [Hnext Hquit].
        destruct ended2 as [e|].
        * injection H0 as <- <-. apply Hquit. reflexivity.
        * apply IH in H0; [exact H0 | exact Hnext].
    - injection H0 as <- <-. apply (onCourse_no_return _ _ _ _ Hinv). discriminate. }
  cbn [followLoop] in H.
  destruct (offset >? LatestBlockHeight status).
  - destruct (statusClient_Status c (world st)) as [w [status'|err]].
    + cbv beta iota zeta in H. destruct (offset >? LatestBlockHeight status').
      * injection H as <- <-. apply (onCourse_return _ _ _ _ Hinv).
      * exact (Hfetch status' {| sent := sent st; cursorHeight := cursorHeight st;
                                 nodeHeight := LatestBlockHeight status'; world := w |}
                 eq_refl H).
    + injection H as <- <-. apply (onCourse_return _ _ _ _ Hinv).
  - exact (Hfetch status st eq_refl H).
Qed.

(** [Follow] sends heights that ascend from the offset, and returns the
    height after the last one it sent (the offset when it sent none).
    The one exception is a run that sent the greatest int64 height, after
    which the cursor wraps around. *)
Lemma Follow_sends_ascending fuel offset w st ended :
  is_int64 offset →
  Follow c quit fuel offset w = (st, ended) →
  let heights := Block_Height <$> sent st in
  int64_max ∈ heights ∨
  (ascendingFrom offset heights ∧
   ∀ height err, ended = Return height err → height = cursor offset heights).
Proof.
  intros Hint H. unfold Follow in H.
  assert (Hstart : onCourse offset offset []) by (right; split; [exact I | split; [reflexivity | exact Hint]]).
  destruct (statusClient_Status c w) as [w1 [status|err]].
  - refine (followLoop_onCourse offset fuel _ _ _ _ _ _ _ H). exact Hstart.
  - injection H as <- <-. exact (onCourse_return _ _ _ _ Hstart).
Qed.

(** ** What [Follow] never does *)

(** A strictly descending list is no longer than the span of its
    heights. *)
Lemma descending_length first rest :
  descending (first :: rest) →
  Z.of_nat (length (first :: rest)) ≤ first - List.last rest first + 1.
Proof.
  revert first. induction rest as [|x rest IH]; intros first Hd.
  - simpl. lia.
  - pose proof (Hd 0%nat first x eq_refl eq_refl) as Hx.
    specialize (IH x (descending_cons _ _ Hd)).
    rewrite last_cons. cbn [length] in *. lia.
Qed.

Lemma wrap64_high x : int64_max < x ≤ int64_max + 2 ^ 64 → wrap64 x = x - 2 ^ 64.
Proof.
  unfold wrap64, int64_max. intros Hx.
  rewrite <- (Z_mod_plus_full (x + 2 ^ 63) (-1) (2 ^ 64)).
  rewrite Z.mod_small; lia.
Qed.

(** With room in [batch] for every metadata entry the set-up loop
    returns, and leaves the length of [batch] as it was. *)
Lemma setupBlocks_returns metas : ∀ batch k w,
  (k + length metas ≤ length batch)%nat →
  ∃ w' batch' n err,
    setupBlocks c metas batch k w = (w', Returns (batch', n, err)) ∧
    length batch' = length batch ∧ (n ≤ k + length metas)%nat.
Proof.
  induction metas as [|meta metas IH]; intros batch k w Hfit; simpl.
  - eexists _, _, _, _. split; [reflexivity|]. split; [reflexivity | lia].
  - simpl in Hfit. destruct (Nat.leb_spec (length batch) k) as [Hle|Hlt]; [lia|].
    destruct (signClient_BlockResults c (Header_Height meta) w) as [w1 [err|]].
    + eexists _, _, _, _. split; [reflexivity|].
      rewrite length_insert. split; [reflexivity | lia].
    + destruct (IH (<[k := {| Block_Height := Header_Height meta; Block_Time := Header_Time meta;
                              Block_Hash := BlockID_Hash meta; Results := zeroResults |}]> batch)
                   (S k) w1) as (w' & batch' & n & err & Hrun & Hlen & Hn).
      * rewrite length_insert. lia.
      * exists w', batch', n, err. rewrite Hrun, length_insert in *.
        split; [reflexivity|]. split; [exact Hlen | lia].
Qed.

Lemma fillResults_length batch : ∀ results,
  length (fillResults batch results) = length batch.
Proof.
  induction batch as [|b batch IH]; intros [|r results]; try reflexivity.
  simpl. f_equal. apply IH.
Qed.

Ltac returned :=
  eexists _, _, _, _; split; [reflexivity|];
  split; [try reflexivity |
    split; [cbn; lia | first [intros [? ?]; discriminate | intros _; reflexivity]]].

(** [fetchBlocks] returns: the validation of order and range leaves at
    most [len(batch)] metadata entries, so that no write to [batch] is
    out of range. It reports at most [len(batch)] blocks, and none with
    an error. *)
Theorem fetchBlocks_returns batch offset w :
  is_int64 offset →
  (0 < length batch)%nat →
  Z.of_nat (length batch) ≤ 2 ^ 63 →
  ∃ w' batch' n err,
    fetchBlocks c batch offset w = (w', Returns (batch', n, err)) ∧
    length batch' = length batch ∧
    (n ≤ length batch)%nat ∧
    (is_Some err → n = 0%nat).
Proof.
  intros Hoff Hpos Hlen. unfold fetchBlocks.
  assert (Hwrap : wrap64 (Z.of_nat (length batch) - 1) = Z.of_nat (length batch) - 1)
    by (apply wrap64_id; unfold is_int64, int64_min, int64_max; lia).
  rewrite Hwrap.
  destruct (historyClient_BlockchainInfo c offset _ w) as [w1 [metas|err]]; [|returned].
  destruct metas as [|first rest]; [returned|].
  destruct (descendingBreak _) as [[previous height]|] eqn:Hbreak; [returned|].
  apply descendingBreak_None in Hbreak.
  destruct ((Header_Height first >? _) || (_ <? offset)) eqn:Hrange; [returned|].
  apply orb_false_iff in Hrange. destruct Hrange as [Hhigh Hlow].
  rewrite Z.gtb_ltb in Hhigh. apply Z.ltb_ge in Hhigh. apply Z.ltb_ge in Hlow.
  rewrite last_fmap_height in Hlow.
  change (Header_Height <$> first :: rest)
    with (Header_Height first :: (Header_Height <$> rest)) in Hlow, Hbreak.
  rewrite last_cons in Hlow.
  pose proof (descending_length _ _ Hbreak) as Hspan.
  cbn [length] in Hspan. rewrite length_fmap in Hspan.
  assert (Hfit : (0 + length (reverse (first :: rest)) ≤ length batch)%nat).
  { rewrite length_reverse. cbn [length].
    unfold is_int64, int64_min, int64_max in Hoff.
    destruct (Z.le_gt_cases (offset + (Z.of_nat (length batch) - 1)) int64_max) as [Hin|Hout].
    - rewrite wrap64_id in Hhigh by (unfold is_int64, int64_min, int64_max in *; lia). lia.
    - rewrite wrap64_high in Hhigh by (unfold int64_max in *; lia). lia. }
  destruct (setupBlocks_returns (reverse (first :: rest)) batch 0 w1 Hfit)
    as (w2 & batch2 & n & err & Hsetup & Hlen2 & Hn).
  rewrite Hsetup. rewrite length_reverse in Hfit, Hn.
  destruct err as [err|]; [returned; exact Hlen2|].
  destruct (signClientTrigger c w2) as [w3 [results|err]]; [|returned; exact Hlen2].
  destruct (responseMismatch _) as [[requested got]|]; returned;
    rewrite fillResults_length; exact Hlen2.
Qed.

(** The errors of [fetchBlocks] are formatted ones. *)
Lemma fetchBlocks_error_formatted batch offset w w' batch' n e :
  fetchBlocks c batch offset w = (w', Returns (batch', n, Some e)) →
  (∃ format args wrapped, e = Wrapf format args wrapped) ∨ (∃ format args, e = Errorf format args).
Proof.
  unfold fetchBlocks. intros H.
  destruct (historyClient_BlockchainInfo c offset _ w) as [w1 [metas|err]];
    [|injection H as _ _ _ <-; eauto].
  destruct metas as [|first rest]; [discriminate|].
  destruct (descendingBreak _) as [[previous height]|]; [injection H as _ _ _ <-; eauto|].
  destruct ((Header_Height first >? _) || (_ <? offset)); [injection H as _ _ _ <-; eauto|].
  destruct (setupBlocks c (reverse (first :: rest)) batch 0 w1)
    as [w2 [[[batch2 n2] [err|]]|why]] eqn:Hsetup; try discriminate.
  - injection H as _ _ _ <-. left.
    clear - Hsetup. revert Hsetup. generalize (reverse (first :: rest)), batch, 0%nat, w1.
    intros metas. induction metas as [|meta metas IH]; intros b k w H; simpl in H; [discriminate|].
    destruct (length b <=? k)%nat; [discriminate|].
    destruct (signClient_BlockResults c (Header_Height meta) w) as [w3 [err'|]].
    + injection H as _ _ _ <-. eauto.
    + exact (IH _ _ _ H).
  - destruct (signClientTrigger c w2) as [w3 [results|err]]; [|injection H as _ _ _ <-; eauto].
    destruct (responseMismatch _) as [[requested got]|]; [injection H as _ _ _ <-; eauto|].
    discriminate.
Qed.

(** The blocks a successful [fetchBlocks] reports carry the results of
    their own height. *)
Lemma fetchBlocks_results_match batch offset w w' batch' n :
  fetchBlocks c batch offset w = (w', Returns (batch', n, None)) →
  ∀ b, b ∈ take n batch' → Height (Results b) = Block_Height b.
Proof.
  unfold fetchBlocks. intros H b Hb.
  destruct (historyClient_BlockchainInfo c offset _ w) as [w1 [metas|err]]; [|discriminate].
  destruct metas as [|first rest].
  { injection H as _ <- <-. rewrite take_0 in Hb. by apply not_elem_of_nil in Hb. }
  destruct (descendingBreak _) as [[previous height]|]; [discriminate|].
  destruct ((Header_Height first >? _) || (_ <? offset)); [discriminate|].
  destruct (setupBlocks c (reverse (first :: rest)) batch 0 w1)
    as [w2 [[[batch2 n2] [err|]]|why]]; try discriminate.
  destruct (signClientTrigger c w2) as [w3 [results|err]]; [|discriminate].
  destruct (responseMismatch _) as [[requested got]|] eqn:Hmis; [discriminate|].
  injection H as _ <- <-.
  apply list_elem_of_lookup in Hb. destruct Hb as [i Hi].
  exact (proj1 (responseMismatch_None _) Hmis i b Hi).
Qed.

(** The cursor the submit loop leaves is an int64 value. *)
Lemma submit_cursor_int64 blocks : ∀ offset,
  is_int64 offset →
  is_int64 (fold_left (λ _ b, wrap64 (Block_Height b + 1)) blocks offset).
Proof.
  induction blocks as [|b blocks IH]; intros offset Hoff; [exact Hoff|].
  apply IH, wrap64_range.
Qed.

Section Invariant.

(** An invariant [Inv] of the blocks sent, the cursor and the batch, and
    what it gives at each way [Follow] ends. *)
Variable Inv : list Block → Z → list Block → Prop.
Variable Ends : list Block → followEnd → Prop.

Hypothesis Hfuel : ∀ blocks offset batch,
  Inv blocks offset batch → Ends blocks OutOfFuel.
Hypothesis Hstatus : ∀ blocks offset batch err,
  Inv blocks offset batch →
  Ends blocks (Return offset (Some (Wrapf "Tendermint RPC status unavailable: %w" [] err))).
Hypothesis Hnodata : ∀ blocks offset batch,
  Inv blocks offset batch → Ends blocks (Return offset (Some ErrNoData)).
Hypothesis Hquit : ∀ blocks offset batch,
  Inv blocks offset batch → Ends blocks (Return offset None).
Hypothesis Hfetch : ∀ blocks offset batch w w' batch' n e,
  Inv blocks offset batch →
  fetchBlocks c batch offset w = (w', Returns (batch', n, Some e)) →
  Ends blocks (Return offset (Some e)).
Hypothesis Hpanic : ∀ blocks offset batch w w' why,
  Inv blocks offset batch →
  fetchBlocks c batch offset w = (w', Panics why) →
  Ends blocks (Panic why).
Hypothesis Hnone : ∀ blocks offset batch w w' batch',
  Inv blocks offset batch →
  fetchBlocks c batch offset w = (w', Returns (batch', 0%nat, None)) →
  Inv blocks offset batch'.
Hypothesis Hsend : ∀ blocks offset batch w w' batch' n k,
  Inv blocks offset batch →
  fetchBlocks c batch offset w = (w', Returns (batch', n, None)) →
  n ≠ 0%nat →
  Inv (blocks ++ take k (take n batch'))
      (fold_left (λ _ b, wrap64 (Block_Height b + 1)) (take k (take n batch')) offset)
      batch'.

Lemma followLoop_invariant fuel : ∀ status batch offset st st' ended,
  Inv (sent st) offset batch →
  followLoop c quit fuel status batch offset st = (st', ended) →
  Ends (sent st') ended.
Proof.
  induction fuel as [|fuel IH]; intros status batch offset st st' ended Hinv H.
  { injection H as <- <-. exact (Hfuel _ _ _ Hinv). }
  assert (Hstep : ∀ status st0, sent st0 = sent st →
    match fetchBlocks c batch offset (world st0) with
    | (w, Panics why) =>
      ({| sent := sent st0; cursorHeight := cursorHeight st0; nodeHeight := nodeHeight st0; world := w |},
       Panic why)
    | (w, Returns (batch, n, Some err)) =>
      ({| sent := sent st0; cursorHeight := cursorHeight st0; nodeHeight := nodeHeight st0; world := w |},
       Return offset (Some err))
    | (w, Returns (batch, n, None)) =>
      let st := {| sent := sent st0; cursorHeight := cursorHeight st0;
                   nodeHeight := nodeHeight st0; world := w |} in
      if (n =? 0)%nat then
        match quit (world st) with
        | (w, true) =>
          ({| sent := sent st; cursorHeight := cursorHeight st; nodeHeight := nodeHeight st; world := w |},
           Return offset (Some ErrNoData))
        | (w, false) =>
          followLoop c quit fuel status batch offset
            {| sent := sent st; cursorHeight := cursorHeight st; nodeHeight := nodeHeight st; world := w |}
        end
      else
        match submit quit (take n batch) offset st with
        | (st, offset, Some ended) => (st, ended)
        | (st, offset, None) => followLoop c quit fuel status batch offset st
        end
    end = (st', ended) → Ends (sent st') ended).
  { intros status0 st0 Hsame H0. rewrite <- Hsame in Hinv.
    destruct (fetchBlocks c batch offset (world st0)) as [w1 [[[batch1 n] [err|]]|why]] eqn:Hf.
    - injection H0 as <- <-. exact (Hfetch _ _ _ _ _ _ _ _ Hinv Hf).
    - cbv beta iota zeta in H0. destruct (Nat.eqb_spec n 0) as [->|Hn].
      + cbn [world sent cursorHeight nodeHeight] in H0.
        pose proof (Hnone _ _ _ _ _ _ Hinv Hf) as Hinv1.
        destruct (quit w1) as [w2 [|]].
        * injection H0 as <- <-. exact (Hnodata _ _ _ Hinv).
        * apply IH in H0; [exact H0 | exact Hinv1].
      + destruct (submit quit (take n batch1) offset _) as [[st2 offset2] ended2] eqn:Hsub.
        apply submit_sends in Hsub. destruct Hsub as (k & Hsent & Hoff & Hend).
        cbn [sent] in Hsent.
        pose proof (Hsend _ _ _ _ _ _ _ k Hinv Hf Hn) as Hinv2.
        rewrite <- Hsent, <- Hoff in Hinv2.
        destruct Hend as [->| ->].
        * apply IH in H0; [exact H0 | exact Hinv2].
        * injection H0 as <- <-. exact (Hquit _ _ _ Hinv2).
    - injection H0 as <- <-. exact (Hpanic _ _ _ _ _ _ Hinv Hf). }
  cbn [followLoop] in H.
  destruct (offset >? LatestBlockHeight status).
  - destruct (statusClient_Status c (world st)) as [w [status'|err]].
    + cbv beta iota zeta in H. destruct (offset >? LatestBlockHeight status').
      * injection H as <- <-. exact (Hnodata _ _ _ Hinv).
      * exact (Hstep status' {| sent := sent st; cursorHeight := cursorHeight st;
                                nodeHeight := LatestBlockHeight status'; world := w |}
                 eq_refl H).
    + injection H as <- <-. exact (Hstatus _ _ _ _ Hinv).
  - exact (Hstep status st eq_refl H).
Qed.

Lemma Follow_invariant fuel offset w st ended :
  Inv [] offset (replicate 20 zeroBlock) →
  Follow c quit fuel offset w = (st, ended) →
  Ends (sent st) ended.
Proof.
  intros Hinv H. unfold Follow in H.
  destruct (statusClient_Status c w) as [w1 [status|err]].
  - refine (followLoop_invariant fuel _ _ _ _ _ _ _ H). exact Hinv.
  - injection H as <- <-. exact (Hstatus _ _ _ _ Hinv).
Qed.

End Invariant.

(** [Follow] never panics: no write of [fetchBlocks] to the batch of 20
    blocks is out of range, whatever the node answers. *)
Theorem Follow_never_panics fuel offset w why :
  is_int64 offset →
  (Follow c quit fuel offset w).2 ≠ Panic why.
Proof.
  intros Hoff.
  refine (Follow_invariant
    (λ _ offset batch, is_int64 offset ∧ length batch = 20%nat)
    (λ _ ended, ended ≠ Panic why)
    _ _ _ _ _ _ _ _ fuel offset w _ _ _ (surjective_pairing _)); try discriminate.
  - intros blocks o batch w0 w' why' [Ho Hlen] Hf.
    destruct (fetchBlocks_returns batch o w0 Ho) as (? & ? & ? & ? & Hr & _);
      [lia | rewrite Hlen; vm_compute; discriminate|].
    rewrite Hr in Hf. discriminate.
  - intros blocks o batch w0 w' batch' [Ho Hlen] Hf. split; [exact Ho|].
    destruct (fetchBlocks_returns batch o w0 Ho) as (? & ? & ? & ? & Hr & Hlen' & _);
      [lia | rewrite Hlen; vm_compute; discriminate|].
    rewrite Hr in Hf. injection Hf as _ <- _ _. rewrite Hlen'. exact Hlen.
  - intros blocks o batch w0 w' batch' n k [Ho Hlen] Hf _.
    split; [apply submit_cursor_int64; exact Ho|].
    destruct (fetchBlocks_returns batch o w0 Ho) as (? & ? & ? & ? & Hr & Hlen' & _);
      [lia | rewrite Hlen; vm_compute; discriminate|].
    rewrite Hr in Hf. injection Hf as _ <- _ _. rewrite Hlen'. exact Hlen.
  - split; [exact Hoff | reflexivity].
Qed.

(** Every block [Follow] sends carries the results of its own height:
    a batch with results of another height is never passed on. *)
Theorem Follow_sent_results_match fuel offset w b :
  b ∈ sent (Follow c quit fuel offset w).1 →
  Height (Results b) = Block_Height b.
Proof.
  revert b.
  refine (Follow_invariant
    (λ blocks _ _, ∀ b, b ∈ blocks → Height (Results b) = Block_Height b)
    (λ blocks _, ∀ b, b ∈ blocks → Height (Results b) = Block_Height b)
    _ _ _ _ _ _ _ _ fuel offset w _ _ _ (surjective_pairing _)); try (intros; eauto; fail).
  - intros blocks o batch w0 w' batch' n k Hinv Hf _ b Hb.
    apply elem_of_app in Hb. destruct Hb as [Hb|Hb]; [exact (Hinv b Hb)|].
    apply subseteq_take in Hb. exact (fetchBlocks_results_match _ _ _ _ _ _ Hf b Hb).
  - intros b Hb. by apply not_elem_of_nil in Hb.
Qed.

(** ** The quit channel *)

(** The head of an iteration of the loop of [Follow] goes on to the
    fetch, with the status [status'] and in the state [st0]: the offset
    is not beyond the latest height known and nothing is polled, or the
    status polled shows a height that is not below the offset. *)
Definition hasData (status : ResultStatus) (offset : Z) (st : followState)
    (status' : ResultStatus) (st0 : followState) : Prop :=
  ((offset >? LatestBlockHeight status) = false ∧ status' = status ∧ st0 = st) ∨
  ((offset >? LatestBlockHeight status) = true ∧
   (offset >? LatestBlockHeight status') = false ∧
   ∃ w, statusClient_Status c (world st) = (w, Ok status') ∧
        st0 = {| sent := sent st; cursorHeight := cursorHeight st;
                 nodeHeight := LatestBlockHeight status'; world := w |}).

(** Without a receive on quit all blocks are submitted. *)
Lemma submit_silent blocks :
  (∀ w, (quit w).2 = false) →
  ∀ offset st, (submit quit blocks offset st).2 = None.
Proof.
  intros Hsilent. induction blocks as [|b blocks IH]; intros offset st; [reflexivity|].
  cbn [submit]. pose proof (Hsilent (world st)) as Hq.
  destruct (quit (world st)) as [w received]. cbn [snd] in Hq. subst received. apply IH.
Qed.

Lemma followLoop_silent fuel :
  (∀ w, (quit w).2 = false) →
  ∀ status batch offset st height,
    (followLoop c quit fuel status batch offset st).2 ≠ Return height None.
Proof.
  intros Hsilent. induction fuel as [|fuel IH]; intros status batch offset st height;
    [discriminate|].
  assert (Hstep : ∀ status st0,
    (match fetchBlocks c batch offset (world st0) with
     | (w, Panics why) =>
       ({| sent := sent st0; cursorHeight := cursorHeight st0; nodeHeight := nodeHeight st0; world := w |},
        Panic why)
     | (w, Returns (batch, n, Some err)) =>
       ({| sent := sent st0; cursorHeight := cursorHeight st0; nodeHeight := nodeHeight st0; world := w |},
        Return offset (Some err))
     | (w, Returns (batch, n, None)) =>
       let st := {| sent := sent st0; cursorHeight := cursorHeight st0;
                    nodeHeight := nodeHeight st0; world := w |} in
       if (n =? 0)%nat then
         match quit (world st) with
         | (w, true) =>
           ({| sent := sent st; cursorHeight := cursorHeight st; nodeHeight := nodeHeight st; world := w |},
            Return offset (Some ErrNoData))
         | (w, false) =>
           followLoop c quit fuel status batch offset
             {| sent := sent st; cursorHeight := cursorHeight st; nodeHeight := nodeHeight st; world := w |}
         end
       else
         match submit quit (take n batch) offset st with
         | (st, offset, Some ended) => (st, ended)
         | (st, offset, None) => followLoop c quit fuel status batch offset st
         end
     end).2 ≠ Return height None).
  { intros status0 st0.
    destruct (fetchBlocks c batch offset (world st0)) as [w1 [[[batch1 n] [err|]]|why]];
      try discriminate.
    cbv beta iota zeta. destruct (n =? 0)%nat.
    - cbn [world]. destruct (quit w1) as [w2 [|]]; [discriminate | apply IH].
    - match goal with |- context [submit quit ?blocks offset ?st1] =>
        pose proof (submit_silent blocks Hsilent offset st1) as Hsub;
        destruct (submit quit blocks offset st1) as [[st2 offset2] ended2]
      end.
      cbn [snd] in Hsub. subst ended2. apply IH. }
  cbn [followLoop]. destruct (offset >? LatestBlockHeight status).
  - destruct (statusClient_Status c (world st)) as [w [status'|err]]; [|discriminate].
    cbv beta iota zeta. destruct (offset >? LatestBlockHeight status'); [discriminate|].
    apply Hstep.
  - apply Hstep.
Qed.

(** The loop that submits, when the receive on quit is taken at the
    block after [pre]. *)
Lemma submit_quit pre : ∀ b rest offset st st1 offset1 w,
  submit quit pre offset st = (st1, offset1, None) →
  quit (world st1) = (w, true) →
  submit quit (pre ++ b :: rest) offset st =
    ({| sent := sent st ++ pre; cursorHeight := cursorHeight st1; nodeHeight := nodeHeight st1;
        world := w |}, offset1, Some (Return offset1 None)) ∧
  offset1 = fold_left (λ _ b, wrap64 (Block_Height b + 1)) pre offset.
Proof.
  induction pre as [|p pre IH]; intros b rest offset st st1 offset1 w Hpre Hquit.
  - injection Hpre as <- <-. cbn [app submit fold_left]. rewrite Hquit, app_nil_r.
    split; reflexivity.
  - cbn [submit] in Hpre. cbn [app submit fold_left].
    destruct (quit (world st)) as [w0 [|]]; [discriminate|].
    destruct (IH b rest _ _ _ _ _ Hpre Hquit) as [Hrun Hoff].
    rewrite Hrun. cbn [sent]. rewrite <- app_assoc. split; [reflexivity | exact Hoff].
Qed.

(** [Follow] never returns [ErrQuit], and an error it returns is
    [ErrNoData] or a formatted one. A nil error needs a receive on quit:
    while the quit channel stays silent none is returned. In any
    iteration of the loop, the receive on quit after a fetch without
    blocks ends [Follow] with [ErrNoData] at the offset, nothing sent;
    and the receive on quit at a block of the batch ends it with a nil
    error, the blocks before that one sent and the height after the
    last of them returned. *)
Theorem Follow_never_ErrQuit fuel offset w :
  let run := Follow c quit fuel offset w in
  (∀ height, run.2 ≠ Return height (Some ErrQuit)) ∧
  (∀ height err, run.2 = Return height (Some err) →
     err = ErrNoData ∨
     (∃ format args wrapped, err = Wrapf format args wrapped) ∨
     (∃ format args, err = Errorf format args)) ∧
  ((∀ w, (quit w).2 = false) → ∀ height, run.2 ≠ Return height None) ∧
  (∀ fuel' status batch offset' st status' st0 w1 batch' w2,
     hasData status offset' st status' st0 →
     fetchBlocks c batch offset' (world st0) = (w1, Returns (batch', 0%nat, None)) →
     quit w1 = (w2, true) →
     followLoop c quit (S fuel') status batch offset' st =
       ({| sent := sent st; cursorHeight := cursorHeight st; nodeHeight := nodeHeight st0;
           world := w2 |},
        Return offset' (Some ErrNoData))) ∧
  (∀ fuel' status batch offset' st status' st0 w1 batch' n pre b rest st1 offset1 w2,
     hasData status offset' st status' st0 →
     fetchBlocks c batch offset' (world st0) = (w1, Returns (batch', n, None)) →
     take n batch' = pre ++ b :: rest →
     submit quit pre offset'
       {| sent := sent st0; cursorHeight := cursorHeight st0; nodeHeight := nodeHeight st0;
          world := w1 |} = (st1, offset1, None) →
     quit (world st1) = (w2, true) →
     followLoop c quit (S fuel') status batch offset' st =
       ({| sent := sent st ++ pre; cursorHeight := cursorHeight st1; nodeHeight := nodeHeight st1;
           world := w2 |},
        Return offset1 None) ∧
     offset1 = fold_left (λ _ b, wrap64 (Block_Height b + 1)) pre offset').
Proof.
  cbv zeta.
  assert (Hclass : ∀ height err, (Follow c quit fuel offset w).2 = Return height (Some err) →
     err = ErrNoData ∨
     (∃ format args wrapped, err = Wrapf format args wrapped) ∨
     (∃ format args, err = Errorf format args)).
  { refine (Follow_invariant
      (λ _ _ _, True)
      (λ _ ended, ∀ height err, ended = Return height (Some err) →
         err = ErrNoData ∨
         (∃ format args wrapped, err = Wrapf format args wrapped) ∨
         (∃ format args, err = Errorf format args))
      _ _ _ _ _ _ _ _ fuel offset w _ _ _ (surjective_pairing _));
      try discriminate; try (intros; exact I).
    - intros blocks o batch err _ height e He. injection He as _ <-. right. left. eauto.
    - intros blocks o batch _ height e He. injection He as _ <-. left. reflexivity.
    - intros blocks o batch w0 w' batch' n e _ Hf height e' He. injection He as _ <-. right.
      exact (fetchBlocks_error_formatted _ _ _ _ _ _ _ Hf). }
  split; [|split; [exact Hclass | split; [|split]]].
  - intros height H. destruct (Hclass _ _ H) as [He|[(f & a & e & He)|(f & a & He)]];
      discriminate He.
  - intros Hsilent height. unfold Follow.
    destruct (statusClient_Status c w) as [w1 [status|err]]; [|discriminate].
    apply followLoop_silent. exact Hsilent.
  - intros fuel' status batch offset' st status' st0 w1 batch' w2 Hdata Hfetch Hquit.
    cbn [followLoop].
    destruct Hdata as [(Hle & -> & ->)|(Hgt & Hle & w0 & Hstatus & ->)].
    + rewrite Hle, Hfetch. cbn [Nat.eqb world]. rewrite Hquit. reflexivity.
    + rewrite Hgt, Hstatus. cbv beta iota zeta. rewrite Hle.
      cbn [world] in Hfetch. cbn [world]. rewrite Hfetch. cbn [Nat.eqb world]. rewrite Hquit.
      reflexivity.
  - intros fuel' status batch offset' st status' st0 w1 batch' n pre b rest st1 offset1 w2
      Hdata Hfetch Htake Hpre Hquit.
    assert (Hn : (n =? 0)%nat = false).
    { destruct n; [|reflexivity]. rewrite take_0 in Htake. by destruct pre. }
    destruct (submit_quit pre b rest _ _ _ _ _ Hpre Hquit) as [Hrun Hoff].
    split; [|exact Hoff].
    cbn [followLoop].
    destruct Hdata as [(Hle & -> & ->)|(Hgt & Hle & w0 & Hstatus & ->)].
    + rewrite Hle, Hfetch. cbv beta iota zeta. rewrite Hn, Htake, Hrun. reflexivity.
    + rewrite Hgt, Hstatus. cbv beta iota zeta. rewrite Hle.
      cbn [world] in Hfetch. cbn [world]. rewrite Hfetch. cbv beta iota zeta.
      rewrite Hn, Htake. cbn [sent cursorHeight nodeHeight] in Hrun |- *. rewrite Hrun.
      reflexivity.
Qed.

End FollowSpec.

(** C1, at a node that pruned the first block. The node holds the
    blocks 2 and 3; asked for the range 1..20 it answers with the
    metadata of 3 and 2, which [fetchBlocks] accepts: the list is
    descending and within the range. [Follow] from offset 1 sends the
    heights 2 and 3, never 1, and returns 4, which is not the offset
    plus the number of blocks sent. *)
Theorem Follow_skips_pruned_height :
  let run := Follow Fake.client Fake.neverQuit 5 1 Fake.prunedNode in
  Fake.info Fake.prunedNode 1 20 = [3; 2] ∧
  Block_Height <$> sent run.1 = [2; 3] ∧
  run.2 = Return 4 (Some ErrNoData).
Proof. cbv zeta. repeat split; vm_compute; reflexivity. Qed.

(** The run at the node that pruned the first block: the heights sent
    ascend from the offset. *)
Lemma Follow_sends_ascending_witness :
  let run := Follow Fake.client Fake.neverQuit 5 1 Fake.prunedNode in
  let heights := Block_Height <$> sent run.1 in
  int64_max ∈ heights ∨
  (ascendingFrom 1 heights ∧
   ∀ height err, run.2 = Return height err → height = cursor 1 heights).
Proof.
  apply (Follow_sends_ascending Fake.client Fake.neverQuit 5 1 Fake.prunedNode).
  - unfold is_int64, int64_min, int64_max. lia.
  - apply surjective_pairing.
Defined.

Lemma fetchBlocks_returns_witness :
  ∃ w' batch' n err,
    fetchBlocks Fake.client (replicate 20 zeroBlock) 1 Fake.prunedNode =
      (w', Returns (batch', n, err)) ∧
    length batch' = length (replicate 20 zeroBlock) ∧
    (n ≤ length (replicate 20 zeroBlock))%nat ∧
    (is_Some err → n = 0%nat).
Proof.
  apply (fetchBlocks_returns Fake.client (replicate 20 zeroBlock) 1 Fake.prunedNode).
  - unfold is_int64, int64_min, int64_max. lia.
  - simpl. lia.
  - simpl. lia.
Defined.

Lemma Follow_never_panics_witness :
  (Follow Fake.client Fake.neverQuit 5 1 Fake.prunedNode).2 ≠ Panic "index out of range".
Proof.
  apply (Follow_never_panics Fake.client Fake.neverQuit 5 1 Fake.prunedNode).
  unfold is_int64, int64_min, int64_max. lia.
Defined.

Lemma Follow_sent_results_match_witness :
  let b := {| Block_Height := 2; Block_Time := Unix 2 0; Block_Hash := [2];
              Results := {| Height := 2; TxsResults := [] |} |} in
  Height (Results b) = Block_Height b.
Proof.
  apply (Follow_sent_results_match Fake.client Fake.neverQuit 5 1 Fake.prunedNode).
  vm_compute. left.
Defined.

(** The follower that is asked to quit at once, at the node that holds
    the blocks 2 and 3: the receive on quit at the first block of the
    batch ends it with a nil error at the offset. *)
Lemma Follow_never_ErrQuit_witness :
  (Follow Fake.client Fake.quitNow 5 1 Fake.prunedNode).2 = Return 1 None.
Proof.
  destruct (Follow_never_ErrQuit Fake.client Fake.quitNow 5 1 Fake.prunedNode)
    as (_ & _ & _ & _ & Hmid).
  refine (f_equal snd (proj1 (Hmid 4%nat {| EarliestBlockHeight := 2; LatestBlockHeight := 3 |}
            (replicate 20 zeroBlock) 1
            {| sent := []; cursorHeight := 2; nodeHeight := 3; world := Fake.prunedNode |}
            _ _ _ _ 2%nat [] _ _ _ _ _ _ _ _ _ _))).
  - left. split; [reflexivity|]. split; reflexivity.
  - reflexivity.
  - reflexivity.
  - reflexivity.
  - reflexivity.
Defined.

(** C4 at a node whose metadata comes in ascending order. *)
Lemma fetchBlocks_validation_fatal_witness :
  ∃ w' batch' e,
    fetchBlocks Fake.client (replicate 20 zeroBlock) 1 Fake.ascendingNode =
      (w', Returns (batch', 0%nat, Some e)) ∧
    ∀ fuel status st,
      world st = Fake.ascendingNode → (1 >? LatestBlockHeight status) = false →
      followLoop Fake.client Fake.neverQuit (S fuel) status (replicate 20 zeroBlock) 1 st =
        ({| sent := sent st; cursorHeight := cursorHeight st; nodeHeight := nodeHeight st;
            world := w' |}, Return 1 (Some e)).
Proof.
  apply (fetchBlocks_validation_fatal Fake.client Fake.neverQuit (replicate 20 zeroBlock) 1
    Fake.ascendingNode Fake.ascendingNode (Fake.metaAt <$> [5; 7])).
  - reflexivity.
  - unfold is_int64, int64_min, int64_max. lia.
  - repeat constructor; unfold is_int64, int64_min, int64_max; simpl; lia.
  - reflexivity.
  - left. intros Hd. specialize (Hd 0%nat 5 7 eq_refl eq_refl). lia.
Defined.

(** [fetchBlocks] at a node whose results are of the height after the
    requested one: the batch is refused. *)
Example fetchBlocks_refuses_shifted_results :
  (fetchBlocks Fake.client (replicate 20 zeroBlock) 1 Fake.shiftedNode).2 =
    Returns (<[1%nat := {| Block_Height := 2; Block_Time := Unix 2 0; Block_Hash := [2];
                           Results := {| Height := 3; TxsResults := [] |} |}]>
             (<[0%nat := {| Block_Height := 1; Block_Time := Unix 1 0; Block_Hash := [1];
                            Results := {| Height := 2; TxsResults := [] |} |}]>
              (replicate 20 zeroBlock)),
             0%nat,
             Some (Errorf "Tendermint RPC BlockResults(%d) got chain %d instead" [1; 2])).
Proof. vm_compute. reflexivity. Qed.

End ChainSpec.

(* ===================================================================== *)
(** * Properties of the demultiplexer *)
(* ===================================================================== *)

Module EventSpec.

Import Tendermint Event.

Section DemuxSpec.

Context {Add Fee Message Outbound Pool Refund Reserve Stake Swap Unstake : Type}.
Variable Add_LoadTendermint : Add → list (list Z * list Z) → Add * option error.
Variable Fee_LoadTendermint : Fee → list (list Z * list Z) → Fee * option error.
Variable Message_LoadTendermint : Message → list (list Z * list Z) → Message * option error.
Variable Outbound_LoadTendermint : Outbound → list (list Z * list Z) → Outbound * option error.
Variable Pool_LoadTendermint : Pool → list (list Z * list Z) → Pool * option error.
Variable Refund_LoadTendermint : Refund → list (list Z * list Z) → Refund * option error.
Variable Reserve_LoadTendermint : Reserve → list (list Z * list Z) → Reserve * option error.
Variable Stake_LoadTendermint : Stake → list (list Z * list Z) → Stake * option error.
Variable Swap_LoadTendermint : Swap → list (list Z * list Z) → Swap * option error.
Variable Unstake_LoadTendermint : Unstake → list (list Z * list Z) → Unstake * option error.
Context {L : Type} {HL : @Listener Add Fee Message Outbound Pool Refund Reserve Stake Swap Unstake L}.

Local Abbreviation event := (event Add_LoadTendermint Fee_LoadTendermint Message_LoadTendermint Outbound_LoadTendermint Pool_LoadTendermint Refund_LoadTendermint Reserve_LoadTendermint Stake_LoadTendermint Swap_LoadTendermint Unstake_LoadTendermint).
Local Abbreviation eventsLoop := (eventsLoop Add_LoadTendermint Fee_LoadTendermint Message_LoadTendermint Outbound_LoadTendermint Pool_LoadTendermint Refund_LoadTendermint Reserve_LoadTendermint Stake_LoadTendermint Swap_LoadTendermint Unstake_LoadTendermint).
Local Abbreviation txsLoop := (txsLoop Add_LoadTendermint Fee_LoadTendermint Message_LoadTendermint Outbound_LoadTendermint Pool_LoadTendermint Refund_LoadTendermint Reserve_LoadTendermint Stake_LoadTendermint Swap_LoadTendermint Unstake_LoadTendermint).
Local Abbreviation Block := (Block Add_LoadTendermint Fee_LoadTendermint Message_LoadTendermint Outbound_LoadTendermint Pool_LoadTendermint Refund_LoadTendermint Reserve_LoadTendermint Stake_LoadTendermint Swap_LoadTendermint Unstake_LoadTendermint).


(** An event of a type that is not known is answered with
    [errEventType]; nothing of the demultiplexer changes. *)
Lemma event_unknown_type (d : Demux) ev m :
  Type_ ev ∉ knownTypes → event d ev m = (d, Some errEventType).
Proof.
  intros Hunknown. unfold Event.event.
  repeat match goal with
  | |- context [String.eqb (Type_ ev) ?t] =>
    replace (String.eqb (Type_ ev) t) with false
      by (symmetry; apply String.eqb_neq; intros Heq; apply Hunknown; rewrite Heq;
          unfold knownTypes; set_solver)
  end.
  reflexivity.
Qed.





(** What [event] leaves of the demultiplexer does not depend on the
    lines logged so far, nor on the indices logged. *)
Lemma eventsLoop_fold m blockID txIndex events :
  ∀ eventIndex (d : Demux) logs,
    (eventsLoop m blockID txIndex eventIndex events d logs).1 =
    fold_left (λ d ev, (event d ev m).1) events d.
Proof.
  induction events as [|ev events IH]; intros eventIndex d logs; [reflexivity|].
  cbn [Event.eventsLoop fold_left].
  destruct (event d ev m) as [d' [err|]]; apply IH.
Qed.

Lemma eventsLoop_logs m blockID txIndex events :
  ∀ eventIndex (d : Demux) logs,
    (length (eventsLoop m blockID txIndex eventIndex events d logs).2 ≤
     length logs + length events)%nat.
Proof.
  induction events as [|ev events IH]; intros eventIndex d logs; cbn [Event.eventsLoop length snd].
  - lia.
  - destruct (event d ev m) as [d' [err|]].
    + etrans; [apply IH|]. rewrite length_app. simpl. lia.
    + etrans; [apply IH|]. lia.
Qed.

Lemma txsLoop_fold m blockID txs :
  ∀ txIndex (d : Demux) logs,
    (txsLoop m blockID txIndex txs d logs).1 =
      fold_left (λ d ev, (event d ev m).1) (concat (Events <$> txs)) d ∧
    (length (txsLoop m blockID txIndex txs d logs).2 ≤
      length logs + length (concat (Events <$> txs)))%nat.
Proof.
  induction txs as [|tx txs IH]; intros txIndex d logs.
  - simpl. split; [reflexivity | lia].
  - cbn [Event.txsLoop fmap list_fmap concat]. rewrite fold_left_app, length_app.
    pose proof (eventsLoop_fold m blockID txIndex (Events tx) 0 d logs) as Hd.
    pose proof (eventsLoop_logs m blockID txIndex (Events tx) 0 d logs) as Hl.
    destruct (eventsLoop m blockID txIndex 0 (Events tx) d logs) as [d1 logs1].
    cbn [fst snd] in Hd, Hl. rewrite <- Hd.
    destruct (IH (S txIndex) d1 logs1) as [H1 H2]. split; [exact H1|].
    etrans; [exact H2|]. change (list_fmap _ _ Events txs) with (Events <$> txs). lia.
Qed.




(** ** The order of delivery *)

(** [Block] hands the events of the block to [event] one by one, in
    the order of the transactions and, within a transaction, of its
    events, each with the header time of the block as metadata: the
    boundaries between transactions show in the log only. It logs at
    most one line per event. *)
Theorem Block_in_block_order (d : Demux) block meta :
  let m := {| BlockTimestamp := Header_Time meta |} in
  let events := concat (Events <$> TxsResults block) in
  (Block d block meta).1 = fold_left (λ d ev, (event d ev m).1) events d ∧
  (length (Block d block meta).2 ≤ length events)%nat.
Proof.
  cbv zeta. unfold Event.Block.
  exact (txsLoop_fold {| BlockTimestamp := Header_Time meta |} (BlockID_Hash meta)
           (TxsResults block) 0 d []).
Qed.

Lemma eventsLoop_unknown m blockID txIndex events :
  (∀ ev, ev ∈ events → Type_ ev ∉ knownTypes) →
  ∀ eventIndex (d : Demux) logs,
    ∃ logs', eventsLoop m blockID txIndex eventIndex events d logs = (d, logs ++ logs') ∧
             length logs' = length events.
Proof.
  induction events as [|ev events IH]; intros Hunknown eventIndex d logs.
  - exists []. rewrite app_nil_r. split; reflexivity.
  - cbn [Event.eventsLoop]. rewrite event_unknown_type by (apply Hunknown; left).
    destruct (IH (λ ev' Hev', Hunknown ev' (list_elem_of_further _ _ _ Hev')) (S eventIndex) d
                (logs ++ [("block %s tx %d event %d type %q skipped: %s",
                           [LBytes blockID; LInt (Z.of_nat txIndex); LInt (Z.of_nat eventIndex);
                            LStr (Type_ ev); LErr errEventType])]))
      as (logs' & Hrun & Hlen).
    eexists (_ :: logs'). rewrite Hrun, <- app_assoc. split; [reflexivity|]. simpl. lia.
Qed.

Lemma txsLoop_unknown m blockID txs :
  (∀ ev, ev ∈ concat (Events <$> txs) → Type_ ev ∉ knownTypes) →
  ∀ txIndex (d : Demux) logs,
    ∃ logs', txsLoop m blockID txIndex txs d logs = (d, logs ++ logs') ∧
             length logs' = length (concat (Events <$> txs)).
Proof.
  induction txs as [|tx txs IH]; intros Hunknown txIndex d logs.
  - exists []. rewrite app_nil_r. split; reflexivity.
  - cbn [Event.txsLoop]. cbn [fmap list_fmap concat] in Hunknown |- *.
    destruct (eventsLoop_unknown m blockID txIndex (Events tx)
                (λ ev Hev, Hunknown ev (proj2 (elem_of_app _ _ _) (or_introl Hev))) 0%nat d logs)
      as (logs1 & Hrun1 & Hlen1).
    rewrite Hrun1.
    destruct (IH (λ ev Hev, Hunknown ev (proj2 (elem_of_app _ _ _) (or_intror Hev)))
                (S txIndex) d (logs ++ logs1)) as (logs2 & Hrun2 & Hlen2).
    exists (logs1 ++ logs2). rewrite Hrun2, <- app_assoc. split; [reflexivity|].
    rewrite !length_app, Hlen1, Hlen2. reflexivity.
Qed.

(** A block whose events are all of types the demultiplexer does not
    know leaves the demultiplexer, its listener included, as it was,
    and logs one line per event. *)
Theorem Block_of_unknown_types (d : Demux) block meta :
  (∀ ev, ev ∈ concat (Events <$> TxsResults block) → Type_ ev ∉ knownTypes) →
  (Block d block meta).1 = d ∧
  length (Block d block meta).2 = length (concat (Events <$> TxsResults block)).
Proof.
  intros Hunknown. unfold Event.Block.
  destruct (txsLoop_unknown {| BlockTimestamp := Header_Time meta |} (BlockID_Hash meta)
              (TxsResults block) Hunknown 0%nat d []) as (logs' & -> & Hlen).
  split; [reflexivity | exact Hlen].
Qed.

End DemuxSpec.

#[local] Existing Instance Fake.callNames.

(** [Block] on the stand-in block: the event of the unknown type and
    the fee that fails to load are logged, the three other events reach
    the listener in their order. *)
Example Block_delivers_the_rest :
  let out := Block Fake.load Fake.load Fake.load Fake.load Fake.load Fake.load Fake.load Fake.load Fake.load Fake.load Fake.demux Fake.block (Fake.metaAt 5) in
  listener out.1 = ["stake"; "swap"; "pool"] ∧
  out.2 = [("block %s tx %d event %d type %q skipped: %s",
            [LBytes [5]; LInt 0; LInt 1; LStr "rewards"; LErr errEventType]);
           ("block %s tx %d event %d type %q skipped: %s",
            [LBytes [5]; LInt 1; LInt 0; LStr "fee"; LErr (errorString "missing attributes")])].
Proof. cbv zeta. split; vm_compute; reflexivity. Qed.

Lemma Block_of_unknown_types_witness :
  let block := {| Height := 5;
                  TxsResults := [ {| Events := [ {| Type_ := "rewards"; Attributes := [([114], [2])] |} ] |};
                                  {| Events := [ {| Type_ := "bond"; Attributes := [] |} ] |} ] |} in
  (Block Fake.load Fake.load Fake.load Fake.load Fake.load Fake.load Fake.load Fake.load Fake.load Fake.load
     Fake.demux block (Fake.metaAt 5)).1 = Fake.demux.
Proof.
  cbv zeta.
  refine (proj1 (Block_of_unknown_types Fake.load Fake.load Fake.load Fake.load Fake.load Fake.load Fake.load
           Fake.load Fake.load Fake.load Fake.demux _ (Fake.metaAt 5) _)).
  intros ev Hev. simpl in Hev. unfold knownTypes.
  apply elem_of_cons in Hev. destruct Hev as [->|Hev]; [simpl; compute_done|].
  apply list_elem_of_singleton in Hev. subst ev. simpl. compute_done.
Defined.


End EventSpec.

(* ===================================================================== *)
(** * Properties of the version 1 prices *)
(* ===================================================================== *)

Module ApiSpec.

Import Api.

(** C8, at a pool of asset depth 2^53 + 1 and rune depth three times
    that. The exact price is 3, and [poolsAsset], which divides as
    [big.Rat] and converts once, renders 3. [serveV1Assets] converts
    both depths to float64 before it divides: the depths round to 2^53
    and 3 * 2^53 + 4, and the price it renders is 3.0000000000000004. *)
Theorem priceRune_rounds_before_dividing :
  let assetE8DepthPerPool : gmap string Z := {["BNB.BNB" := 9007199254740993]} in
  let runeE8DepthPerPool : gmap string Z := {["BNB.BNB" := 27021597764222979]} in
  NewRat 27021597764222979 9007199254740993 = Returns (3 # 1)%Q ∧
  poolsAssetPrice assetE8DepthPerPool runeE8DepthPerPool "BNB.BNB" = Some 3%float ∧
  float64 9007199254740993 = 9007199254740992%float ∧
  float64 27021597764222979 = 27021597764222980%float ∧
  assetsPriceRune assetE8DepthPerPool runeE8DepthPerPool "BNB.BNB" = Some 0x1.8000000000001p+1%float.
Proof. cbv zeta. repeat split; vm_compute; reflexivity. Qed.

(** ** The parameters of a request *)

(** The separator does not occur in the string. *)
Definition hasNo (sep : Ascii.ascii) (s : string) : Prop :=
  sep ∉ String.list_ascii_of_string s.

(** The number of separators in the string. *)
Fixpoint occurrences (sep : Ascii.ascii) (s : string) : nat :=
  match s with
  | EmptyString => 0
  | String c rest => (if Ascii.eqb c sep then 1 else 0) + occurrences sep rest
  end.

Lemma cut_spec sep s :
  match cut sep s with
  | (before, Some after) =>
    s = before +:+ String sep after ∧ hasNo sep before ∧
    occurrences sep s = S (occurrences sep after)
  | (before, None) => before = s ∧ hasNo sep s ∧ occurrences sep s = 0%nat
  end.
Proof.
  induction s as [|c s IH]; simpl.
  - split; [reflexivity|]. split; [apply not_elem_of_nil | reflexivity].
  - destruct (Ascii.eqb_spec c sep) as [->|Hne].
    + split; [reflexivity|]. split; [apply not_elem_of_nil | reflexivity].
    + destruct (cut sep s) as [before [after|]].
      * destruct IH as (-> & Hno & Hocc). split; [reflexivity|]. split; [|exact Hocc].
        unfold hasNo. simpl. intros Hin. apply elem_of_cons in Hin.
        destruct Hin as [->|Hin]; [congruence | exact (Hno Hin)].
      * destruct IH as (-> & Hno & Hocc). split; [reflexivity|]. split; [|exact Hocc].
        unfold hasNo. simpl. intros Hin. apply elem_of_cons in Hin.
        destruct Hin as [->|Hin]; [congruence | exact (Hno Hin)].
Qed.

Lemma Join_cons x l sep :
  l ≠ [] → Timeseries.Join (x :: l) sep = x +:+ sep +:+ Timeseries.Join l sep.
Proof. destruct l; [congruence | reflexivity]. Qed.

(** [SplitN] cuts at the first n - 1 separators: joined again the
    pieces give the string; and when there are fewer than n pieces, no
    piece holds a separator. *)
Lemma SplitN_spec sep n :
  ∀ s, (1 ≤ n)%nat →
    Timeseries.Join (SplitN s sep n) (String sep "") = s ∧
    length (SplitN s sep n) = (n `min` S (occurrences sep s))%nat ∧
    ((length (SplitN s sep n) < n)%nat → Forall (hasNo sep) (SplitN s sep n)).
Proof.
  induction n as [|n IH]; intros s Hn; [lia|].
  destruct n as [|n].
  - simpl. split; [reflexivity|]. split; [lia|]. lia.
  - change (SplitN s sep (S (S n))) with
      (match cut sep s with
       | (before, Some after) => before :: SplitN after sep (S n)
       | (_, None) => [s]
       end).
    pose proof (cut_spec sep s) as Hcut.
    destruct (cut sep s) as [before [after|]].
    + destruct Hcut as (-> & Hno & Hocc).
      destruct (IH after ltac:(lia)) as (Hjoin & Hlen & Hclean).
      assert (Hne : SplitN after sep (S n) ≠ []).
      { intros Heq. rewrite Heq in Hlen. simpl in Hlen. lia. }
      rewrite (Join_cons _ _ _ Hne), Hjoin. split; [reflexivity|].
      cbn [length]. rewrite Hlen, Hocc. split; [lia|].
      intros Hlt. constructor; [exact Hno|]. apply Hclean. lia.
    + destruct Hcut as (_ & Hno & Hocc). split; [reflexivity|].
      rewrite Hocc. cbn [length]. split; [lia|]. intros _. constructor; [exact Hno | constructor].
Qed.

(** [assetParam] splits the joined values of the asset parameter at the
    commas: it answers with the assets exactly when the joined list is
    not empty and holds at most nine commas; the assets are one to ten,
    none holds a comma, and joined with commas they give the list
    back. *)
Theorem assetParam_splits_at_commas (r : Request) :
  let list := Timeseries.Join (URL_Query r "asset") "," in
  ((∃ assets, assetParam r = Ok assets) ↔ list ≠ "" ∧ (occurrences comma list ≤ 9)%nat) ∧
  ∀ assets, assetParam r = Ok assets →
    (1 ≤ length assets ≤ 10)%nat ∧
    length assets = S (occurrences comma list) ∧
    Forall (hasNo comma) assets ∧
    Timeseries.Join assets "," = list.
Proof.
  cbv zeta. unfold assetParam.
  set (list := Timeseries.Join (URL_Query r "asset") ",").
  destruct (String.eqb_spec list "") as [Hempty|Hfull].
  { split; [|intros assets H; discriminate].
    split; [intros [assets H]; discriminate | intros [H _]; congruence]. }
  destruct (SplitN_spec comma (assetListMax + 1) list ltac:(unfold assetListMax; lia))
    as (Hjoin & Hlen & Hclean).
  unfold assetListMax in *. change (10 + 1)%nat with 11%nat in *.
  remember (SplitN list comma 11) as pieces eqn:Hpieces. clear Hpieces.
  destruct (Nat.ltb_spec 10 (length pieces)) as [Hmany|Hfew].
  - split; [|intros assets H; discriminate].
    split; [intros [assets H]; discriminate | intros [_ H]; lia].
  - split.
    + split; [intros _; split; [exact Hfull | lia] | intros _; eauto].
    + intros assets H. injection H as <-.
      split; [lia|]. split; [lia|]. split; [apply Hclean; lia | exact Hjoin].
Qed.

(** ** Sums and bonds *)

Lemma wrap64_add_l a b : wrap64 (wrap64 a + b) = wrap64 (a + b).
Proof.
  unfold wrap64. f_equal.
  replace ((a + 2 ^ 63) mod 2 ^ 64 - 2 ^ 63 + b + 2 ^ 63) with ((a + 2 ^ 63) mod 2 ^ 64 + b) by lia.
  rewrite Zplus_mod_idemp_l. f_equal. lia.
Qed.

Lemma fold_wrap64 values :
  ∀ total, is_int64 total →
    fold_left (λ total n, wrap64 (total + n)) values total = wrap64 (total + foldr Z.add 0 values).
Proof.
  induction values as [|n values IH]; intros total Hint.
  - simpl. rewrite Z.add_0_r. symmetry. apply wrap64_id. exact Hint.
  - cbn [fold_left foldr]. rewrite IH by apply wrap64_range.
    rewrite wrap64_add_l. f_equal. lia.
Qed.

(** The int64 sum of a loop is the exact sum reduced to an int64. *)
Lemma sumInt64_exact values : sumInt64 values = wrap64 (foldr Z.add 0 values).
Proof.
  unfold sumInt64. rewrite fold_wrap64; [reflexivity|].
  unfold is_int64, int64_min, int64_max. lia.
Qed.

Lemma sum_permutation (l1 l2 : list Z) : l1 ≡ₚ l2 → foldr Z.add 0 l1 = foldr Z.add 0 l2.
Proof. induction 1; simpl; lia. Qed.

Lemma Sorted_lookup_le (l : list Z) :
  Sorted Z.le l → ∀ i j a b, (i ≤ j)%nat → l !! i = Some a → l !! j = Some b → a ≤ b.
Proof.
  intros Hs. apply Sorted_StronglySorted in Hs; [|intros x y z; apply Z.le_trans].
  induction Hs as [|x l Hl IH Hall]; intros i j a b Hij Ha Hb; [discriminate|].
  destruct i as [|i], j as [|j]; simpl in Ha, Hb.
  - injection Ha as <-. injection Hb as <-. lia.
  - injection Ha as <-. rewrite Forall_forall in Hall. apply Hall.
    exact (list_elem_of_lookup_2 _ _ _ Hb).
  - lia.
  - exact (IH i j a b ltac:(lia) Ha Hb).
Qed.

Section HandlersSpec.

Variable FormatFloat : float → string.
Variable ParseInt : string → result Z.
Context {DB linkedEvents : Type}.
Variable DBQuery : string → list arg → DB → DB * result sqlRows.

Abbreviation pkgState := (@Timeseries.pkgState DB linkedEvents).

(** A height [heightParam] accepts is the height of the last block, or
    a positive height that is not above it; with an error the height
    returned is -1; and a request without the parameter gets the last
    height. *)
Theorem heightParam_in_bounds (r : Request) (st : pkgState) track :
  Timeseries.lastBlockTrack st = Some track →
  let lastHeight := Timeseries.Height track in
  (∀ height, heightParam ParseInt r st = Returns (height, None) →
     height = lastHeight ∨ 0 < height ≤ lastHeight) ∧
  (∀ height err, heightParam ParseInt r st = Returns (height, Some err) → height = -1) ∧
  (URL_Query r "height" = [] → heightParam ParseInt r st = Returns (lastHeight, None)) ∧
  (∀ why, heightParam ParseInt r st ≠ Panics why).
Proof.
  intros Htrack. cbv zeta. unfold heightParam, Timeseries.LastBlock. rewrite Htrack.
  cbn [bindOutcome].
  destruct (URL_Query r "height") as [|param [|other rest]].
  - repeat split; try discriminate. intros height H. injection H as <-. left. reflexivity.
  - destruct (ParseInt param) as [height|err].
    + destruct (Z.eqb_spec height (-1)) as [->|Hne].
      * repeat split; try discriminate. intros h H. injection H as <-. left. reflexivity.
      * destruct (Z.leb_spec height 0) as [Hle|Hgt]; cbn [orb].
        -- repeat split; try discriminate. intros h e H. injection H as <- _. reflexivity.
        -- destruct (Z.ltb_spec (Timeseries.Height track) height) as [Hlt|Hge].
           ++ repeat split; try discriminate. intros h e H. injection H as <- _. reflexivity.
           ++ repeat split; try discriminate. intros h H. injection H as <-. right. lia.
    + repeat split; try discriminate. intros h e H. injection H as <- _. reflexivity.
  - repeat split; try discriminate. intros h e H. injection H as <- _. reflexivity.
Qed.

(** What a block of [activeAndStandbyBondMetrics] writes for bonds
    that are not empty. *)
Lemma bondMetrics_full kTotal kMin kMax kAvg kMedian bonds (m : gmap string metric) :
  bonds ≠ [] →
  ∃ lo hi med avg,
    bonds !! 0%nat = Some lo ∧ bonds !! (length bonds - 1)%nat = Some hi ∧
    bonds !! (length bonds / 2)%nat = Some med ∧
    bondMetrics FormatFloat kTotal kMin kMax kAvg kMedian bonds m =
      Returns (<[kMedian := MInt med]> (<[kAvg := MStr avg]> (<[kMax := MInt hi]>
                 (<[kMin := MInt lo]> (<[kTotal := MInt (sumInt64 bonds)]> m))))).
Proof.
  intros Hne. unfold bondMetrics, index.
  assert (Hlen : (0 < length bonds)%nat) by (destruct bonds; [congruence | simpl; lia]).
  destruct (lookup_lt_is_Some_2 bonds 0 Hlen) as [lo Hlo].
  destruct (lookup_lt_is_Some_2 bonds (length bonds - 1) ltac:(lia)) as [hi Hhi].
  assert (Hhalf : (length bonds / 2 < length bonds)%nat) by (apply Nat.div_lt; lia).
  destruct (lookup_lt_is_Some_2 bonds (length bonds / 2) Hhalf) as [med Hmed].
  exists lo, hi, med. eexists. split; [exact Hlo|]. split; [exact Hhi|]. split; [exact Hmed|].
  replace (length bonds =? 0)%nat with false by (symmetry; apply Nat.eqb_neq; lia).
  cbn [negb]. rewrite Hlo, Hhi, Hmed. cbn [bindOutcome]. unfold NewRat.
  replace (Z.of_nat (length bonds) =? 0) with false by (symmetry; apply Z.eqb_neq; lia).
  reflexivity.
Qed.

Lemma bondMetrics_empty kTotal kMin kMax kAvg kMedian (m : gmap string metric) :
  bondMetrics FormatFloat kTotal kMin kMax kAvg kMedian [] m = Returns m.
Proof. reflexivity. Qed.

(** [activeAndStandbyBondMetrics] on bonds in ascending order, as
    [sort.Sort] leaves them: it returns, the minimum is at most the
    median and the median at most the maximum, every bond lies between
    the minimum and the maximum, and the total is the sum of the bonds
    reduced to an int64. Without standby bonds no standby key is
    written. *)
Theorem activeAndStandbyBondMetrics_ordered active standby :
  Sorted Z.le active → active ≠ [] →
  ∃ m lo med hi,
    activeAndStandbyBondMetrics FormatFloat active standby = Returns m ∧
    m !! "totalActiveBond" = Some (MInt (wrap64 (foldr Z.add 0 active))) ∧
    m !! "minimumActiveBond" = Some (MInt lo) ∧
    m !! "medianActiveBond" = Some (MInt med) ∧
    m !! "maximumActiveBond" = Some (MInt hi) ∧
    lo ≤ med ≤ hi ∧
    Forall (λ bond, lo ≤ bond ≤ hi) active ∧
    (standby = [] → m !! "totalStandbyBond" = None ∧ m !! "medianStandbyBond" = None).
Proof.
  intros Hsorted Hne. unfold activeAndStandbyBondMetrics.
  destruct (bondMetrics_full "totalActiveBond" "minimumActiveBond" "maximumActiveBond"
              "averageActiveBond" "medianActiveBond" active ∅ Hne)
    as (lo & hi & med & avg & Hlo & Hhi & Hmed & ->).
  cbn [bindOutcome].
  assert (Hlen : (0 < length active)%nat) by (destruct active; [congruence | simpl; lia]).
  assert (Hbounds : lo ≤ med ≤ hi ∧ Forall (λ bond, lo ≤ bond ≤ hi) active).
  { assert (Hhalf : (length active / 2 < length active)%nat) by (apply Nat.div_lt; lia).
    split.
    - split.
      + apply (Sorted_lookup_le active Hsorted 0%nat (length active / 2)%nat lo med);
          [lia | exact Hlo | exact Hmed].
      + apply (Sorted_lookup_le active Hsorted (length active / 2)%nat (length active - 1)%nat med hi);
          [lia | exact Hmed | exact Hhi].
    - apply Forall_lookup. intros i bond Hi. apply lookup_lt_Some in Hi as Hlt. split.
      + apply (Sorted_lookup_le active Hsorted 0%nat i lo bond); [lia | exact Hlo | exact Hi].
      + apply (Sorted_lookup_le active Hsorted i (length active - 1)%nat bond hi);
          [lia | exact Hi | exact Hhi]. }
  destruct Hbounds as [Hmid Hall].
  destruct standby as [|bond standby].
  - rewrite bondMetrics_empty. eexists _, lo, med, hi. split; [reflexivity|].
    rewrite <- (sumInt64_exact active).
    do 4 (split; [repeat (rewrite lookup_insert_ne by discriminate); apply lookup_insert_eq|]).
    split; [exact Hmid|]. split; [exact Hall|].
    intros _. split; repeat (rewrite lookup_insert_ne by discriminate); apply lookup_empty.
  - destruct (bondMetrics_full "totalStandbyBond" "minimumStandbyBond" "maximumStandbyBond"
                "averageStandbyBond" "medianStandbyBond" (bond :: standby)
                (<["medianActiveBond" := MInt med]> (<["averageActiveBond" := MStr avg]>
                   (<["maximumActiveBond" := MInt hi]> (<["minimumActiveBond" := MInt lo]>
                      (<["totalActiveBond" := MInt (sumInt64 active)]> ∅))))) ltac:(discriminate))
      as (lo' & hi' & med' & avg' & _ & _ & _ & ->).
    eexists _, lo, med, hi. split; [reflexivity|].
    rewrite <- (sumInt64_exact active).
    do 4 (split; [repeat (rewrite lookup_insert_ne by discriminate); apply lookup_insert_eq|]).
    split; [exact Hmid|]. split; [exact Hall|]. discriminate.
Qed.

(** The total [serveV1Network] renders does not depend on the order in
    which the range visits the depth map, and neither does anything
    else of its response. *)
Theorem serveV1Network_any_order NodeAccountsLookup order1 order2 (r : Request) (st : pkgState) :
  (∀ m, order1 m ≡ₚ map_to_list m) →
  (∀ m, order2 m ≡ₚ map_to_list m) →
  serveV1Network FormatFloat NodeAccountsLookup order1 r st =
  serveV1Network FormatFloat NodeAccountsLookup order2 r st.
Proof.
  intros H1 H2. unfold serveV1Network.
  destruct (Timeseries.AssetAndRuneDepths st) as [[[assets runes] ts]|why]; [|reflexivity].
  cbn [bindOutcome].
  assert (Hsum : sumInt64 (order1 runes).*2 = sumInt64 (order2 runes).*2).
  { rewrite !sumInt64_exact. f_equal. apply sum_permutation.
    apply fmap_Permutation. rewrite H1, H2. reflexivity. }
  rewrite Hsum. reflexivity.
Qed.

Lemma bondMetrics_returns kTotal kMin kMax kAvg kMedian bonds (m : gmap string metric) :
  ∃ m', bondMetrics FormatFloat kTotal kMin kMax kAvg kMedian bonds m = Returns m'.
Proof.
  destruct bonds as [|bond bonds]; [eexists; reflexivity|].
  destruct (bondMetrics_full kTotal kMin kMax kAvg kMedian (bond :: bonds) m ltac:(discriminate))
    as (lo & hi & med & avg & _ & _ & _ & ->).
  eexists; reflexivity.
Qed.

(** The nodes of a status. *)
Definition ofStatus (status : string) (nodes : list NodeAccount) : list NodeAccount :=
  filter (λ node, Status node = status) nodes.

Lemma gatherBonds_spec nodes :
  activeBonds (gatherBonds nodes) = Bond <$> ofStatus "active" nodes ∧
  standbyBonds (gatherBonds nodes) = Bond <$> ofStatus "standby" nodes ∧
  activeNodes (gatherBonds nodes) = list_to_set (NodeAddr <$> ofStatus "active" nodes) ∧
  standbyNodes (gatherBonds nodes) = list_to_set (NodeAddr <$> ofStatus "standby" nodes).
Proof.
  unfold gatherBonds.
  enough (H : ∀ b,
    let b' := fold_left (λ b node,
      if String.eqb (Status node) "active" then
        {| activeNodes := {[NodeAddr node]} ∪ activeNodes b; standbyNodes := standbyNodes b;
           activeBonds := activeBonds b ++ [Bond node]; standbyBonds := standbyBonds b |}
      else if String.eqb (Status node) "standby" then
        {| activeNodes := activeNodes b; standbyNodes := {[NodeAddr node]} ∪ standbyNodes b;
           activeBonds := activeBonds b; standbyBonds := standbyBonds b ++ [Bond node] |}
      else b) nodes b in
    activeBonds b' = activeBonds b ++ (Bond <$> ofStatus "active" nodes) ∧
    standbyBonds b' = standbyBonds b ++ (Bond <$> ofStatus "standby" nodes) ∧
    activeNodes b' = list_to_set (NodeAddr <$> ofStatus "active" nodes) ∪ activeNodes b ∧
    standbyNodes b' = list_to_set (NodeAddr <$> ofStatus "standby" nodes) ∪ standbyNodes b).
  { destruct (H {| activeNodes := ∅; standbyNodes := ∅; activeBonds := []; standbyBonds := [] |})
      as (H1 & H2 & H3 & H4).
    cbn [activeBonds standbyBonds activeNodes standbyNodes] in H1, H2, H3, H4.
    rewrite (right_id_L ∅ (∪)) in H3, H4. repeat split; assumption. }
  induction nodes as [|node nodes IH]; intros b; cbv zeta.
  - cbn. rewrite !app_nil_r, !(left_id_L ∅ (∪)). repeat split.
  - cbn [fold_left]. unfold ofStatus in *.
    destruct (String.eqb_spec (Status node) "active") as [Ha|Hna].
    + destruct (IH {| activeNodes := {[NodeAddr node]} ∪ activeNodes b; standbyNodes := standbyNodes b;
                      activeBonds := activeBonds b ++ [Bond node]; standbyBonds := standbyBonds b |})
        as (H1 & H2 & H3 & H4). cbv zeta in H1, H2, H3, H4.
      rewrite H1, H2, H3, H4. cbn [activeBonds standbyBonds activeNodes standbyNodes].
      rewrite (filter_cons_True (λ node, Status node = "active")) by exact Ha.
      rewrite (filter_cons_False (λ node, Status node = "standby")) by (rewrite Ha; discriminate).
      cbn [fmap list_fmap list_to_set]. rewrite <- app_assoc. repeat split.
      rewrite (assoc_L (∪)). f_equal. apply (comm_L (∪)).
    + destruct (String.eqb_spec (Status node) "standby") as [Hs|Hns].
      * destruct (IH {| activeNodes := activeNodes b; standbyNodes := {[NodeAddr node]} ∪ standbyNodes b;
                        activeBonds := activeBonds b; standbyBonds := standbyBonds b ++ [Bond node] |})
          as (H1 & H2 & H3 & H4). cbv zeta in H1, H2, H3, H4.
        rewrite H1, H2, H3, H4. cbn [activeBonds standbyBonds activeNodes standbyNodes].
        rewrite (filter_cons_False (λ node, Status node = "active")) by exact Hna.
        rewrite (filter_cons_True (λ node, Status node = "standby")) by exact Hs.
        cbn [fmap list_fmap list_to_set]. rewrite <- app_assoc. repeat split.
      rewrite (assoc_L (∪)). f_equal. apply (comm_L (∪)).
      * destruct (IH b) as (H1 & H2 & H3 & H4). cbv zeta in H1, H2, H3, H4.
        rewrite H1, H2, H3, H4.
        rewrite (filter_cons_False (λ node, Status node = "active")) by exact Hna.
        rewrite (filter_cons_False (λ node, Status node = "standby")) by exact Hns.
        repeat split.
Qed.

(** Once a block is stored and the node accounts are at hand,
    [serveV1Network] answers with JSON and does not panic: the bonds of
    the active nodes and those of the standby nodes are each listed in
    ascending order, and the node counts are those of the distinct
    addresses. *)
Theorem serveV1Network_sorted_bonds NodeAccountsLookup nodes order (r : Request) (st : pkgState)
    track :
  Timeseries.lastBlockTrack st = Some track →
  NodeAccountsLookup = Ok nodes →
  ∃ body active standby,
    serveV1Network FormatFloat NodeAccountsLookup order r st = Returns (st, respJSON body) ∧
    net_activeBonds body = intStr <$> active ∧
    Sorted Z.le active ∧ active ≡ₚ Bond <$> ofStatus "active" nodes ∧
    net_standbyBonds body = intStr <$> standby ∧
    Sorted Z.le standby ∧ standby ≡ₚ Bond <$> ofStatus "standby" nodes ∧
    net_activeNodeCount body =
      pretty (size (list_to_set (NodeAddr <$> ofStatus "active" nodes) : gset string)) ∧
    net_standbyNodeCount body =
      pretty (size (list_to_set (NodeAddr <$> ofStatus "standby" nodes) : gset string)).
Proof.
  intros Htrack ->. unfold serveV1Network, Timeseries.AssetAndRuneDepths. rewrite Htrack.
  cbn [bindOutcome].
  destruct (gatherBonds_spec nodes) as (H1 & H2 & H3 & H4). rewrite H1, H2, H3, H4.
  unfold activeAndStandbyBondMetrics.
  destruct (bondMetrics_returns "totalActiveBond" "minimumActiveBond" "maximumActiveBond"
              "averageActiveBond" "medianActiveBond"
              (merge_sort Z.le (Bond <$> ofStatus "active" nodes)) ∅) as [m1 ->].
  cbn [bindOutcome].
  destruct (bondMetrics_returns "totalStandbyBond" "minimumStandbyBond" "maximumStandbyBond"
              "averageStandbyBond" "medianStandbyBond"
              (merge_sort Z.le (Bond <$> ofStatus "standby" nodes)) m1) as [m2 ->].
  cbn [bindOutcome].
  eexists _, (merge_sort Z.le (Bond <$> ofStatus "active" nodes)),
    (merge_sort Z.le (Bond <$> ofStatus "standby" nodes)).
  split; [reflexivity|]. cbn [net_activeBonds net_standbyBonds net_activeNodeCount net_standbyNodeCount].
  split; [reflexivity|]. split; [apply Sorted_merge_sort; apply _|].
  split; [apply merge_sort_Permutation|].
  split; [reflexivity|]. split; [apply Sorted_merge_sort; apply _|].
  split; [apply merge_sort_Permutation|]. split; reflexivity.
Qed.

(** ** The lists of pools and stakers *)

Lemma scanColumn_rows names :
  ∀ acc, Timeseries.scanColumn (TimeseriesSpec.nameRow <$> names) acc = (acc ++ names, None).
Proof.
  induction names as [|name names IH]; intros acc.
  - simpl. rewrite app_nil_r. reflexivity.
  - change (Timeseries.scanColumn (TimeseriesSpec.nameRow <$> name :: names) acc)
      with (Timeseries.scanColumn (TimeseriesSpec.nameRow <$> names) (acc ++ [name])).
    rewrite IH, <- app_assoc. reflexivity.
Qed.

(** [serveV1Pools] and [serveV1Stakers] answer as of the last committed
    block: each issues its statement with that block's timestamp, never
    meets the beyond-last error, and renders the names in the order of
    the rows. *)
Theorem serveV1Pools_as_of_last_block (r : Request) (st : pkgState) track d pools d' addrs :
  Timeseries.lastBlockTrack st = Some track →
  DBQuery "SELECT pool FROM stake_events WHERE block_timestamp <= $1 GROUP BY pool"
    [AInt (UnixNano (Timeseries.Timestamp track))] (Timeseries.db st) =
    (d, Ok {| rows_data := TimeseriesSpec.nameRow <$> pools; rows_Err := None |}) →
  DBQuery "SELECT rune_addr FROM stake_events WHERE block_timestamp <= $1 GROUP BY rune_addr"
    [AInt (UnixNano (Timeseries.Timestamp track))] (Timeseries.db st) =
    (d', Ok {| rows_data := TimeseriesSpec.nameRow <$> addrs; rows_Err := None |}) →
  (serveV1Pools DBQuery r st).2 = Returns (respJSON pools) ∧
  (serveV1Stakers DBQuery r st).2 = Returns (respJSON addrs).
Proof.
  intros Htrack Hpools Haddrs.
  unfold serveV1Pools, serveV1Stakers, Timeseries.Pools, Timeseries.StakeAddrs,
    Timeseries.LastBlock, Timeseries.lookupColumn, Timeseries.query.
  rewrite Htrack, (TimeseriesSpec.resolveMoment_zero 0 _ eq_refl), Hpools, Haddrs.
  cbn [rows_data rows_Err]. rewrite !scanColumn_rows. split; reflexivity.
Qed.

(** ** The node keys of [serveV1Nodes] *)

Lemma NodesSecpAndEd_rows now (st : pkgState) d rows err :
  DBQuery Timeseries.queryNodeKeys [AInt (UnixNano now)] (Timeseries.db st) =
    (d, Ok {| rows_data := TimeseriesSpec.keyRow <$> rows; rows_Err := err |}) →
  ∃ st', Timeseries.NodesSecpAndEd DBQuery now st =
           (st', (TimeseriesSpec.bySecp rows ∅, TimeseriesSpec.bySecp rows ∅, None)).
Proof.
  intros Hq. unfold Timeseries.NodesSecpAndEd, Timeseries.query. rewrite Hq. simpl.
  destruct (TimeseriesSpec.nodeKeysRows_bySecp rows
    {| Timeseries.secp256k1Addrs := ∅; Timeseries.ed25519Addrs := ∅; Timeseries.keyLog := [] |})
    as (k' & Hrun & Hs & He).
  rewrite Hrun. simpl in Hs, He. rewrite Hs, He. eexists. reflexivity.
Qed.

(** The first loop: every entry is filed under an address, with a key
    of that address. *)
Lemma secpLoop (M : gmap string string) pairs :
  ∀ m : gmap string nodeEntry,
    (∀ key addr, (key, addr) ∈ pairs → M !! key = Some addr) →
    (∀ addr e, m !! addr = Some e → M !! Secp e = Some addr) →
    let m' := fold_left (λ m '(key, addr),
                let e := default zeroEntry (m !! addr) in
                <[addr := {| Secp := key; Ed := Ed e |}]> m) pairs m in
    (∀ addr e, m' !! addr = Some e → M !! Secp e = Some addr) ∧
    (∀ addr, (is_Some (m !! addr) ∨ ∃ key, (key, addr) ∈ pairs) → is_Some (m' !! addr)).
Proof.
  induction pairs as [|[key addr] pairs IH]; intros m Hpairs Hm; cbv zeta.
  - split; [exact Hm|]. intros a [Ha|[k Hk]]; [exact Ha | by apply not_elem_of_nil in Hk].
  - cbn [fold_left].
    destruct (IH (<[addr := {| Secp := key; Ed := Ed (default zeroEntry (m !! addr)) |}]> m))
      as [H1 H2].
    + intros k a Hk. apply Hpairs. right. exact Hk.
    + intros a e He. destruct (decide (a = addr)) as [->|Hne].
      * rewrite lookup_insert_eq in He. injection He as <-. cbn [Secp]. apply Hpairs. left.
      * rewrite lookup_insert_ne in He by congruence. exact (Hm a e He).
    + split; [exact H1|]. intros a Ha. apply H2.
      destruct (decide (a = addr)) as [->|Hne]; [left; rewrite lookup_insert_eq; eauto|].
      destruct Ha as [Ha|[k Hk]].
      * left. rewrite lookup_insert_ne by congruence. exact Ha.
      * apply elem_of_cons in Hk. destruct Hk as [Hk|Hk]; [congruence|]. right. eauto.
Qed.

(** The second loop keeps the key the first loop filed, and files a
    key of the same address as the Ed25519 key. *)
Lemma edLoop (M : gmap string string) pairs :
  ∀ (m : gmap string nodeEntry) (done : string → Prop),
    (∀ key addr, (key, addr) ∈ pairs → M !! key = Some addr) →
    (∀ addr e, m !! addr = Some e → M !! Secp e = Some addr) →
    (∀ key addr, M !! key = Some addr → is_Some (m !! addr)) →
    (∀ addr e, done addr → m !! addr = Some e → M !! Ed e = Some addr) →
    let m' := fold_left (λ m '(key, addr),
                let e := default zeroEntry (m !! addr) in
                <[addr := {| Secp := Secp e; Ed := key |}]> m) pairs m in
    (∀ addr e, m' !! addr = Some e → M !! Secp e = Some addr) ∧
    (∀ addr e, (done addr ∨ ∃ key, (key, addr) ∈ pairs) → m' !! addr = Some e →
               M !! Ed e = Some addr).
Proof.
  induction pairs as [|[key addr] pairs IH]; intros m done Hpairs Hm Hall Hdone; cbv zeta.
  - split; [exact Hm|]. intros a e [Ha|[k Hk]]; [exact (Hdone a e Ha) | by apply not_elem_of_nil in Hk].
  - cbn [fold_left].
    assert (Hkey : M !! key = Some addr) by (apply Hpairs; left).
    destruct (Hall key addr Hkey) as [e0 He0]. rewrite He0. cbn [default].
    destruct (IH (<[addr := {| Secp := Secp e0; Ed := key |}]> m) (λ a, done a ∨ a = addr))
      as [H1 H2].
    + intros k a Hk. apply Hpairs. right. exact Hk.
    + intros a e He. destruct (decide (a = addr)) as [->|Hne].
      * rewrite lookup_insert_eq in He. injection He as <-. cbn [Secp]. exact (Hm addr e0 He0).
      * rewrite lookup_insert_ne in He by congruence. exact (Hm a e He).
    + intros k a Hk. destruct (decide (a = addr)) as [->|Hne].
      * rewrite lookup_insert_eq. eauto.
      * rewrite lookup_insert_ne by congruence. exact (Hall k a Hk).
    + intros a e Ha He. destruct (decide (a = addr)) as [->|Hne].
      * rewrite lookup_insert_eq in He. injection He as <-. cbn [Ed]. exact Hkey.
      * rewrite lookup_insert_ne in He by congruence.
        destruct Ha as [Ha|Ha]; [exact (Hdone a e Ha He) | congruence].
    + split; [exact H1|]. intros a e Ha. apply H2.
      destruct Ha as [Ha|[k Hk]]; [left; left; exact Ha|].
      apply elem_of_cons in Hk. destruct Hk as [Hk|Hk].
      * left. right. congruence.
      * right. eauto.
Qed.

(** Every entry of the response of [serveV1Nodes] pairs two secp256k1
    keys of one node address: the map [NodesSecpAndEd] returns as
    [ed25519Addrs] holds the secp256k1 keys, so the field the response
    calls ed25519 is a secp256k1 key registered for the node, and no
    Ed25519 key of the rows is rendered. *)
Theorem serveV1Nodes_ed25519_is_secp_key orderSecp orderEd orderEntries now (r : Request)
    (st : pkgState) d rows err :
  (∀ m, orderSecp m ≡ₚ map_to_list m) →
  (∀ m, orderEd m ≡ₚ map_to_list m) →
  (∀ m, orderEntries m ≡ₚ map_to_list m) →
  DBQuery Timeseries.queryNodeKeys [AInt (UnixNano now)] (Timeseries.db st) =
    (d, Ok {| rows_data := TimeseriesSpec.keyRow <$> rows; rows_Err := err |}) →
  ∃ st' entries,
    serveV1Nodes DBQuery orderSecp orderEd orderEntries now r st = (st', respJSON entries) ∧
    ∀ e, e ∈ entries →
      ∃ addr, TimeseriesSpec.bySecp rows ∅ !! Secp e = Some addr ∧
              TimeseriesSpec.bySecp rows ∅ !! Ed e = Some addr.
Proof.
  intros Horder HorderEd Hentries Hq.
  destruct (NodesSecpAndEd_rows now st d rows err Hq) as [st' Hrun].
  unfold serveV1Nodes. rewrite Hrun.
  set (M := TimeseriesSpec.bySecp rows ∅).
  assert (Hpairs : ∀ key addr, (key, addr) ∈ orderSecp M → M !! key = Some addr).
  { intros key addr Hin. rewrite Horder in Hin. apply elem_of_map_to_list in Hin. exact Hin. }
  assert (HpairsEd : ∀ key addr, (key, addr) ∈ orderEd M → M !! key = Some addr).
  { intros key addr Hin. rewrite HorderEd in Hin. apply elem_of_map_to_list in Hin. exact Hin. }
  destruct (secpLoop M (orderSecp M) ∅ Hpairs) as [H1 H2].
  { intros addr e He. rewrite lookup_empty in He. discriminate. }
  cbv zeta in H1, H2.
  match type of H1 with
  | ∀ addr e, ?m1 !! addr = Some e → _ =>
    destruct (edLoop M (orderEd M) m1 (λ _, False) HpairsEd H1) as [H3 H4]
  end.
  { intros key addr Hk. apply H2. right. exists key.
    rewrite Horder. apply elem_of_map_to_list. exact Hk. }
  { intros addr e []. }
  cbv zeta in H3, H4.
  eexists _, _. split; [reflexivity|].
  intros e He. apply list_elem_of_fmap in He. destruct He as ([addr e'] & -> & Hin).
  rewrite Hentries in Hin. apply elem_of_map_to_list in Hin. cbn [snd].
  exists addr. split; [exact (H3 addr e' Hin)|].
  apply (H4 addr e'); [|exact Hin]. right. exists (Secp e').
  rewrite HorderEd. apply elem_of_map_to_list. exact (H3 addr e' Hin).
Qed.

End HandlersSpec.

(** ** [poolsAsset] *)

Lemma NewRat_returns a b : b ≠ 0 → NewRat a b = Returns (Qred (inject_Z a / inject_Z b)).
Proof. intros Hb. unfold NewRat. apply Z.eqb_neq in Hb. rewrite Hb. reflexivity. Qed.

Lemma Qnum_Qred_nonzero q : Qnum q ≠ 0 → Qnum (Qred q) ≠ 0.
Proof.
  intros Hq Hzero. pose proof (Qred_correct q) as Heq. unfold Qeq in Heq.
  rewrite Hzero in Heq. simpl in Heq. symmetry in Heq.
  apply Z.mul_eq_0 in Heq. destruct Heq as [Heq|Heq]; [exact (Hq Heq) | discriminate].
Qed.

Lemma Qnum_ratio_nonzero a b : a ≠ 0 → b ≠ 0 → Qnum (Qred (inject_Z a / inject_Z b)) ≠ 0.
Proof.
  intros Ha Hb. apply Qnum_Qred_nonzero.
  destruct b as [|b|b]; [congruence| |]; simpl; lia.
Qed.

Lemma ratQuo_returns x y : Qnum y ≠ 0 → ratQuo x y = Returns (Qred (x / y)).
Proof. intros Hy. unfold ratQuo. apply Z.eqb_neq in Hy. rewrite Hy. reflexivity. Qed.

Section PoolsAssetSpec.

Variable FormatFloat : float → string.

Lemma whenCount_returns n key value (m : gmap string string) :
  (n ≠ 0 → ∃ r, value = Returns r) →
  ∃ m', whenCount FormatFloat n key value m = Returns m' ∧
        ∀ k, k ≠ key → m' !! k = m !! k.
Proof.
  intros Hvalue. unfold whenCount. destruct (Z.eqb_spec n 0) as [Hz|Hnz]; cbn [negb].
  - exists m. split; [reflexivity|]. reflexivity.
  - destruct (Hvalue Hnz) as [r ->]. eexists. split; [reflexivity|].
    intros k Hk. apply lookup_insert_ne. congruence.
Qed.

(** The quotient of a volume by a count that is not zero. *)
Lemma average_returns volume n :
  n ≠ 0 → ∃ r, (r ← NewRat n 1; ratQuo volume r) = Returns r.
Proof.
  intros Hn. rewrite (NewRat_returns n 1) by lia. cbn [mbind outcome_bind bindOutcome].
  rewrite ratQuo_returns by (apply Qnum_ratio_nonzero; [exact Hn | lia]). eauto.
Qed.

(** A total in basis points over a count that is not zero. *)
Lemma slip_returns total n :
  n ≠ 0 → ∃ r, (r ← NewRat total n; basis ← NewRat 10000 1; ratQuo r basis) = Returns r.
Proof.
  intros Hn. rewrite (NewRat_returns total n Hn). cbn [mbind outcome_bind bindOutcome].
  rewrite (NewRat_returns 10000 1) by lia. cbn [mbind outcome_bind bindOutcome].
  rewrite ratQuo_returns by (apply Qnum_ratio_nonzero; lia). eauto.
Qed.

Lemma ratio_returns total n : n ≠ 0 → ∃ r, NewRat total n = Returns r.
Proof. intros Hn. rewrite (NewRat_returns total n Hn). eauto. Qed.

Ltac stepCount :=
  match goal with
  | |- context [whenCount FormatFloat ?n ?key ?value ?m] =>
    let m' := fresh "m" in
    let Hm := fresh "Hm" in
    destruct (whenCount_returns n key value m) as (m' & -> & Hm);
    [first [apply average_returns | apply slip_returns | apply ratio_returns]|];
    cbn [mbind outcome_bind bindOutcome mret outcome_ret]
  end.

(** The computation panics exactly when one of the two staked totals is
    zero and the other is not. *)
Lemma poolsAssetBody_panics_iff asset height assetDepth runeDepth status stakeAddrs
    stakes unstakes swapsFromRune swapsToRune :
  let assetStaked := wrap64 (Stakes_AssetE8Total stakes - Unstakes_AssetE8Total unstakes) in
  let runeStaked := wrap64 (Stakes_RuneE8Total stakes - Unstakes_RuneE8Total unstakes) in
  let run := poolsAssetBody FormatFloat asset height assetDepth runeDepth status stakeAddrs
               stakes unstakes swapsFromRune swapsToRune in
  ((∃ why, run = Panics why) ↔
   (assetStaked = 0 ∧ runeStaked ≠ 0) ∨ (assetStaked ≠ 0 ∧ runeStaked = 0)) ∧
  (∀ why, run = Panics why → why = "invalid memory address or nil pointer dereference").
Proof.
  cbv zeta. unfold poolsAssetBody.
  set (m0 := list_to_map _ : gmap string string). clearbody m0.
  set (assetStaked := wrap64 (Stakes_AssetE8Total stakes - Unstakes_AssetE8Total unstakes)).
  set (runeStaked := wrap64 (Stakes_RuneE8Total stakes - Unstakes_RuneE8Total unstakes)).
  match goal with
  | |- context [mbind _ (if negb (assetDepth =? 0) then ?t else ?e)] =>
    assert (Hprice : ∃ m1, (if negb (assetDepth =? 0) then t else e) = Returns m1)
  end.
  { destruct (Z.eqb_spec assetDepth 0) as [Hz|Hnz]; cbn [negb]; [eexists; reflexivity|].
    rewrite (NewRat_returns runeDepth assetDepth Hnz).
    cbn [mbind outcome_bind bindOutcome mret outcome_ret].
    rewrite !(NewRat_returns _ 1) by lia.
    cbn [mbind outcome_bind bindOutcome mret outcome_ret].
    repeat stepCount. eexists. reflexivity. }
  destruct Hprice as [m1 ->]. cbn [mbind outcome_bind bindOutcome].
  fold assetStaked runeStaked.
  destruct (Z.eqb_spec assetStaked 0) as [Ha|Ha]; destruct (Z.eqb_spec runeStaked 0) as [Hr|Hr];
    cbn [negb]; rewrite ?(NewRat_returns _ assetStaked Ha), ?(NewRat_returns _ runeStaked Hr);
    cbn [mbind outcome_bind bindOutcome mret outcome_ret notNil orb ratAddPtr].
  - repeat stepCount.
    split; [|discriminate]. split; [intros [why H]; discriminate | intros [[_ H]|[H _]]; congruence].
  - split; [|intros why H; injection H as <-; reflexivity].
    split; [intros _; left; split; assumption | intros _; eexists; reflexivity].
  - split; [|intros why H; injection H as <-; reflexivity].
    split; [intros _; right; split; assumption | intros _; eexists; reflexivity].
  - rewrite (NewRat_returns 1 2) by lia. cbn [mbind outcome_bind bindOutcome mret outcome_ret].
    repeat stepCount.
    split; [|discriminate]. split; [intros [why H]; discriminate | intros [[H _]|[_ H]]; congruence].
Qed.

Context {DB linkedEvents : Type}.
Variable DBQuery : string → list arg → DB → DB * result sqlRows.
Variable PoolStakesLookup : string → Window → DB → DB * result PoolStakes.
Variable PoolUnstakesLookup : string → Window → DB → DB * result PoolUnstakes.
Variable PoolSwapsFromRuneLookup : string → Window → DB → DB * result PoolSwaps.
Variable PoolSwapsToRuneLookup : string → Window → DB → DB * result PoolSwaps.

(** Once its six lookups went through, [poolsAsset] panics exactly
    when one of the two staked totals, asset and rune, is zero and the
    other is not: the pool ROI is then the sum of a [*big.Rat] and a nil
    pointer. It has no other panic: no division of it is by zero. *)
Theorem poolsAsset_panics_iff asset height assets runes window
    (st st1 st2 : @Timeseries.pkgState DB linkedEvents) d3 d4 d5 d6
    status stakeAddrs stakes unstakes swapsFromRune swapsToRune :
  Timeseries.PoolStatus DBQuery asset (Until window) st = (st1, Returns (status, None)) →
  Timeseries.StakeAddrs DBQuery (Until window) st1 = (st2, Returns (stakeAddrs, None)) →
  PoolStakesLookup asset window (Timeseries.db st2) = (d3, Ok stakes) →
  PoolUnstakesLookup asset window d3 = (d4, Ok unstakes) →
  PoolSwapsFromRuneLookup asset window d4 = (d5, Ok swapsFromRune) →
  PoolSwapsToRuneLookup asset window d5 = (d6, Ok swapsToRune) →
  let assetStaked := wrap64 (Stakes_AssetE8Total stakes - Unstakes_AssetE8Total unstakes) in
  let runeStaked := wrap64 (Stakes_RuneE8Total stakes - Unstakes_RuneE8Total unstakes) in
  let run := (poolsAsset FormatFloat DBQuery PoolStakesLookup PoolUnstakesLookup
                PoolSwapsFromRuneLookup PoolSwapsToRuneLookup
                asset height assets runes window st).2 in
  ((∃ why, run = Panics why) ↔
   (assetStaked = 0 ∧ runeStaked ≠ 0) ∨ (assetStaked ≠ 0 ∧ runeStaked = 0)) ∧
  (∀ why, run = Panics why → why = "invalid memory address or nil pointer dereference") ∧
  (∀ err, run ≠ Returns (Err err)).
Proof.
  intros H1 H2 H3 H4 H5 H6. cbv zeta. unfold poolsAsset.
  rewrite H1, H2, H3, H4, H5, H6. cbn [snd].
  destruct (poolsAssetBody_panics_iff asset height (default 0 (assets !! asset))
              (default 0 (runes !! asset)) status stakeAddrs stakes unstakes
              swapsFromRune swapsToRune) as [Hiff Hwhy].
  cbv zeta in Hiff, Hwhy.
  destruct (poolsAssetBody FormatFloat asset height (default 0 (assets !! asset))
              (default 0 (runes !! asset)) status stakeAddrs stakes unstakes
              swapsFromRune swapsToRune) as [m|why];
    cbn [mbind outcome_bind bindOutcome mret outcome_ret].
  - split; [|split; [discriminate | discriminate]].
    rewrite <- Hiff. split; intros [why H]; discriminate.
  - split; [|split; [|discriminate]].
    + rewrite <- Hiff. split; intros _; eauto.
    + intros why' H. injection H as <-. apply Hwhy. reflexivity.
Qed.

End PoolsAssetSpec.

(** ** The pool cache *)

Import Timescale.

Definition zeroCache : poolCache := {| assetDepth := 0; runeDepth := 0 |}.

(** The changes applied one after the other. *)
Definition applyChanges (pools : gmap string poolCache) (changes : list (string * Z * Z))
    : gmap string poolCache :=
  fold_left (λ pools change, (updatePoolCache pools change.1.1 change.1.2 change.2).1)
    changes pools.

(** The changes of one pool. *)
Definition changesOf (pool : string) (changes : list (string * Z * Z)) : list (string * Z * Z) :=
  filter (λ change, change.1.1 = pool) changes.

(** The pool cache holds for every pool the sum of the changes made to
    it, reduced to an int64, on top of what it held; the depths
    [updatePoolCache] returns are the ones the cache then holds; a pool
    without changes is as it was. *)
Theorem updatePoolCache_accumulates pools changes pool :
  is_int64 (assetDepth (default zeroCache (pools !! pool))) →
  is_int64 (runeDepth (default zeroCache (pools !! pool))) →
  let before := default zeroCache (pools !! pool) in
  let after := default zeroCache (applyChanges pools changes !! pool) in
  assetDepth after =
    wrap64 (assetDepth before + foldr Z.add 0 ((λ change, change.1.2) <$> changesOf pool changes)) ∧
  runeDepth after =
    wrap64 (runeDepth before + foldr Z.add 0 ((λ change, change.2) <$> changesOf pool changes)) ∧
  (changesOf pool changes = [] → applyChanges pools changes !! pool = pools !! pool) ∧
  ∀ assetChanges runeChanges,
    (updatePoolCache pools pool assetChanges runeChanges).1 !! pool =
      Some {| assetDepth := (updatePoolCache pools pool assetChanges runeChanges).2.1;
              runeDepth := (updatePoolCache pools pool assetChanges runeChanges).2.2 |}.
Proof.
  cbv zeta. intros Ha Hr.
  split; [|split; [|split]].
  - revert pools Ha Hr. induction changes as [|[[p a] r] changes IH]; intros pools Ha Hr.
    + simpl. rewrite Z.add_0_r. symmetry. apply wrap64_id. exact Ha.
    + unfold applyChanges, changesOf in *. cbn [fold_left fst snd].
      destruct (decide (p = pool)) as [->|Hne].
      * rewrite (filter_cons_True (λ change, change.1.1 = pool)) by reflexivity.
        cbn [fmap list_fmap foldr fst snd]. rewrite IH.
        -- unfold updatePoolCache. cbn [fst]. rewrite lookup_insert_eq. cbn [default from_option id assetDepth].
           fold zeroCache.
           rewrite wrap64_add_l. f_equal. lia.
        -- unfold updatePoolCache. cbn [fst]. rewrite lookup_insert_eq. apply wrap64_range.
        -- unfold updatePoolCache. cbn [fst]. rewrite lookup_insert_eq. apply wrap64_range.
      * rewrite (filter_cons_False (λ change, change.1.1 = pool)) by exact Hne.
        assert (Hsame : (updatePoolCache pools p a r).1 !! pool = pools !! pool)
          by (unfold updatePoolCache; cbn [fst]; apply lookup_insert_ne; exact Hne).
        rewrite IH; rewrite Hsame; [reflexivity | exact Ha | exact Hr].
  - revert pools Ha Hr. induction changes as [|[[p a] r] changes IH]; intros pools Ha Hr.
    + simpl. rewrite Z.add_0_r. symmetry. apply wrap64_id. exact Hr.
    + unfold applyChanges, changesOf in *. cbn [fold_left fst snd].
      destruct (decide (p = pool)) as [->|Hne].
      * rewrite (filter_cons_True (λ change, change.1.1 = pool)) by reflexivity.
        cbn [fmap list_fmap foldr fst snd]. rewrite IH.
        -- unfold updatePoolCache. cbn [fst]. rewrite lookup_insert_eq. cbn [default from_option id runeDepth].
           fold zeroCache.
           rewrite wrap64_add_l. f_equal. lia.
        -- unfold updatePoolCache. cbn [fst]. rewrite lookup_insert_eq. apply wrap64_range.
        -- unfold updatePoolCache. cbn [fst]. rewrite lookup_insert_eq. apply wrap64_range.
      * rewrite (filter_cons_False (λ change, change.1.1 = pool)) by exact Hne.
        assert (Hsame : (updatePoolCache pools p a r).1 !! pool = pools !! pool)
          by (unfold updatePoolCache; cbn [fst]; apply lookup_insert_ne; exact Hne).
        rewrite IH; rewrite Hsame; [reflexivity | exact Ha | exact Hr].
  - clear Ha Hr. revert pools. induction changes as [|[[p a] r] changes IH]; intros pools Hnone.
    + reflexivity.
    + unfold applyChanges, changesOf in *. cbn [fold_left fst snd].
      destruct (decide (p = pool)) as [->|Hne].
      * rewrite (filter_cons_True (λ change, change.1.1 = pool)) in Hnone by reflexivity.
        discriminate.
      * rewrite (filter_cons_False (λ change, change.1.1 = pool)) in Hnone by exact Hne.
        rewrite IH by exact Hnone.
        unfold updatePoolCache. cbn [fst]. apply lookup_insert_ne. exact Hne.
  - intros a r. unfold updatePoolCache. cbn [fst snd]. apply lookup_insert_eq.
Qed.



(** ** At the stand-ins *)

Lemma heightParam_in_bounds_witness :
  heightParam Fake.parseInt Fake.request Fake.running ≠ Panics "nil".
Proof.
  refine (proj2 (proj2 (proj2 (heightParam_in_bounds Fake.parseInt Fake.request Fake.running
    {| Timeseries.Height := 7; Timeseries.Timestamp := Unix 1600000000 0; Timeseries.Hash := [7];
       Timeseries.agg := {| Timeseries.AssetE8DepthPerPool := {["BNB.BNB" := 100]};
                            Timeseries.RuneE8DepthPerPool := {["BNB.BNB" := 1000]} |} |}
    eq_refl))) "nil").
Defined.

Lemma activeAndStandbyBondMetrics_ordered_witness :
  ∃ m lo med hi,
    activeAndStandbyBondMetrics Fake.formatFloat [100; 200; 300] [50] = Returns m ∧
    m !! "medianActiveBond" = Some (MInt med) ∧ lo ≤ med ≤ hi.
Proof.
  destruct (activeAndStandbyBondMetrics_ordered Fake.formatFloat [100; 200; 300] [50])
    as (m & lo & med & hi & Hrun & _ & _ & Hmed & _ & Hle & _).
  - repeat constructor; lia.
  - discriminate.
  - exists m, lo, med, hi. split; [exact Hrun|]. split; [exact Hmed | exact Hle].
Defined.

Lemma serveV1Network_any_order_witness :
  serveV1Network Fake.formatFloat (Ok Fake.nodeAccounts) map_to_list Fake.request Fake.running =
  serveV1Network Fake.formatFloat (Ok Fake.nodeAccounts) (λ m, reverse (map_to_list m))
    Fake.request Fake.running.
Proof.
  apply (serveV1Network_any_order Fake.formatFloat (Ok Fake.nodeAccounts)
           map_to_list (λ m, reverse (map_to_list m)) Fake.request Fake.running).
  - reflexivity.
  - intros m. apply reverse_Permutation.
Defined.

Lemma serveV1Network_sorted_bonds_witness :
  ∃ body active,
    serveV1Network Fake.formatFloat (Ok Fake.nodeAccounts) map_to_list Fake.request Fake.running =
      Returns (Fake.running, respJSON body) ∧
    net_activeBonds body = intStr <$> active ∧ Sorted Z.le active.
Proof.
  destruct (serveV1Network_sorted_bonds Fake.formatFloat (Ok Fake.nodeAccounts) Fake.nodeAccounts
              map_to_list Fake.request Fake.running
              {| Timeseries.Height := 7; Timeseries.Timestamp := Unix 1600000000 0;
                 Timeseries.Hash := [7];
                 Timeseries.agg := {| Timeseries.AssetE8DepthPerPool := {["BNB.BNB" := 100]};
                                      Timeseries.RuneE8DepthPerPool := {["BNB.BNB" := 1000]} |} |}
              eq_refl eq_refl)
    as (body & active & standby & Hrun & Hbonds & Hsorted & _).
  exists body, active. split; [exact Hrun|]. split; [exact Hbonds | exact Hsorted].
Defined.

Lemma serveV1Nodes_ed25519_is_secp_key_witness :
  ∃ st' entries,
    serveV1Nodes Fake.DBQuery map_to_list map_to_list map_to_list (Unix 1600000000 0)
      Fake.request Fake.running =
      (st', respJSON entries) ∧
    ∀ e, e ∈ entries →
      ∃ addr,
        TimeseriesSpec.bySecp (Fake.set_node_keys_events (Timeseries.db Fake.running)) ∅ !! Secp e =
          Some addr ∧
        TimeseriesSpec.bySecp (Fake.set_node_keys_events (Timeseries.db Fake.running)) ∅ !! Ed e =
          Some addr.
Proof.
  apply (serveV1Nodes_ed25519_is_secp_key Fake.DBQuery map_to_list map_to_list map_to_list
           (Unix 1600000000 0) Fake.request Fake.running (Timeseries.db Fake.running)
           (Fake.set_node_keys_events (Timeseries.db Fake.running)) None).
  - reflexivity.
  - reflexivity.
  - reflexivity.
  - vm_compute. reflexivity.
Defined.

Lemma updatePoolCache_accumulates_witness :
  assetDepth (default zeroCache
    (applyChanges ∅ [("BNB.BNB", 5, 50); ("BTC.BTC", 1, 2); ("BNB.BNB", -2, 7)] !! "BNB.BNB")) =
  wrap64 (0 + foldr Z.add 0 [5; -2]).
Proof.
  refine (proj1 (updatePoolCache_accumulates ∅
    [("BNB.BNB", 5, 50); ("BTC.BTC", 1, 2); ("BNB.BNB", -2, 7)] "BNB.BNB" _ _)).
  - rewrite lookup_empty. unfold is_int64, int64_min, int64_max. simpl. lia.
  - rewrite lookup_empty. unfold is_int64, int64_min, int64_max. simpl. lia.
Defined.

Lemma serveV1Pools_as_of_last_block_witness :
  (serveV1Pools Fake.eventTables Fake.request Fake.indexed).2 =
    Returns (respJSON ["BNB.BNB"; "BTC.BTC"]) ∧
  (serveV1Stakers Fake.eventTables Fake.request Fake.indexed).2 = Returns (respJSON ["thor1x"]).
Proof.
  apply (serveV1Pools_as_of_last_block Fake.eventTables Fake.request Fake.indexed
    {| Timeseries.Height := 7; Timeseries.Timestamp := Unix 1600000000 0; Timeseries.Hash := [7];
       Timeseries.agg := {| Timeseries.AssetE8DepthPerPool := ∅;
                            Timeseries.RuneE8DepthPerPool := ∅ |} |}
    tt ["BNB.BNB"; "BTC.BTC"] tt ["thor1x"]); reflexivity.
Defined.

Lemma poolsAsset_panics_iff_witness :
  ∃ why,
    (poolsAsset Fake.formatFloat Fake.eventTables Fake.stakesLookup Fake.unstakesLookup
       Fake.swapsLookup Fake.swapsLookup
       "BNB.BNB" 7 {["BNB.BNB" := 100]} {["BNB.BNB" := 1000]}
       {| Since := Unix 0 0; Until := Unix 1600000000 0 |} Fake.indexed).2 = Panics why.
Proof.
  destruct (poolsAsset_panics_iff Fake.formatFloat Fake.eventTables
    Fake.stakesLookup Fake.unstakesLookup Fake.swapsLookup Fake.swapsLookup
    "BNB.BNB" 7 {["BNB.BNB" := 100]} {["BNB.BNB" := 1000]}
    {| Since := Unix 0 0; Until := Unix 1600000000 0 |} Fake.indexed
    (Timeseries.PoolStatus Fake.eventTables "BNB.BNB" (Unix 1600000000 0) Fake.indexed).1
    (Timeseries.StakeAddrs Fake.eventTables (Unix 1600000000 0)
       (Timeseries.PoolStatus Fake.eventTables "BNB.BNB" (Unix 1600000000 0) Fake.indexed).1).1
    tt tt tt tt "" ["thor1x"]
    {| Stakes_TxCount := 1; Stakes_AssetE8Total := 500; Stakes_RuneE8Total := 0;
       Stakes_StakeUnitsTotal := 10 |}
    {| Unstakes_TxCount := 0; Unstakes_AssetE8Total := 0; Unstakes_RuneE8Total := 0;
       Unstakes_StakeUnitsTotal := 0 |}
    {| Swaps_TxCount := 2; Swaps_AssetE8Total := 40; Swaps_LiqFeeE8Total := 4;
       Swaps_TradeSlipBPTotal := 30 |}
    {| Swaps_TxCount := 2; Swaps_AssetE8Total := 40; Swaps_LiqFeeE8Total := 4;
       Swaps_TradeSlipBPTotal := 30 |}) as [[_ H] _].
  - vm_compute. reflexivity.
  - vm_compute. reflexivity.
  - reflexivity.
  - reflexivity.
  - reflexivity.
  - reflexivity.
  - apply H. right. split; vm_compute; [discriminate | reflexivity].
Defined.

End ApiSpec.
